(** * Speed-test client and server: wire codec, transfer loops, orchestration

    A shallow embedding of [config.py], [server.py] and [client.py].
    Sockets, the clock and the random generator are inputs of the model:
    a function that reads from a socket takes the list of what the socket
    delivers, a function that writes returns the list of what it wrote. *)

From Stdlib Require Import ZArith QArith Lia Lqa List.
From Stdlib Require Import Strings.Byte.
From stdpp Require Import gmap list strings.

Local Open Scope Z_scope.
Set Warnings "-clear-no-such-hyp".

(** ** config.py *)

Module Config.

Definition MAGIC_COOKIE : Z := 0xabcddcba.
Definition MTYPE_OFFER : Z := 0x2.
Definition MTYPE_REQUEST : Z := 0x3.
Definition MTYPE_PAYLOAD : Z := 0x4.
Definition CONST_SIZE : Z := 1024.
Definition BROADCAST_PORT : Z := 39457.

End Config.

Import Config.

(** ** Bytes and big-endian integers *)

Abbreviation bytes := (list byte).

Definition Z_of_byte (b : byte) : Z := Z.of_N (Byte.to_N b).

Definition byte_of_Z (z : Z) : byte :=
  match Byte.of_N (Z.to_N (z mod 256)) with
  | Some b => b
  | None => Byte.x00
  end.

(** [be_decode] reads a byte string as one unsigned big-endian number. *)
Definition be_decode (bs : bytes) : Z :=
  fold_left (fun acc b => acc * 256 + Z_of_byte b) bs 0.

(** [be_encode n v] is the [n]-byte big-endian image of [v]. *)
Fixpoint be_encode (n : nat) (v : Z) : bytes :=
  match n with
  | O => []
  | S k => be_encode k (v / 256) ++ [byte_of_Z v]
  end.

(** ** The [struct] module, network byte order, no padding

    Only the four format characters the program uses. *)

Inductive fmt_char := FmtI | FmtB | FmtH | FmtQ.

Definition fmt_width (c : fmt_char) : nat :=
  match c with
  | FmtB => 1
  | FmtH => 2
  | FmtI => 4
  | FmtQ => 8
  end%nat.

Definition calcsize (fmt : list fmt_char) : nat :=
  foldr (fun c n => (fmt_width c + n)%nat) O fmt.

Definition fits (c : fmt_char) (v : Z) : bool :=
  (0 <=? v) && (v <? 256 ^ Z.of_nat (fmt_width c)).

(** [struct.pack]: [None] stands for [struct.error] (a value out of the
    range of its field, or the wrong number of values). *)
Fixpoint pack (fmt : list fmt_char) (vs : list Z) : option bytes :=
  match fmt, vs with
  | [], [] => Some []
  | c :: fmt', v :: vs' =>
      if fits c v
      then option_map (app (be_encode (fmt_width c) v)) (pack fmt' vs')
      else None
  | _, _ => None
  end.

Fixpoint unpack_fields (fmt : list fmt_char) (data : bytes) : list Z :=
  match fmt with
  | [] => []
  | c :: fmt' =>
      be_decode (firstn (fmt_width c) data)
        :: unpack_fields fmt' (skipn (fmt_width c) data)
  end.

(** [struct.unpack]: the buffer must have exactly the size of the format,
    [None] stands for [struct.error]. *)
Definition unpack (fmt : list fmt_char) (data : bytes) : option (list Z) :=
  if Nat.eqb (length data) (calcsize fmt)
  then Some (unpack_fields fmt data)
  else None.

Definition fmt_offer : list fmt_char := [FmtI; FmtB; FmtH; FmtH].
Definition fmt_request : list fmt_char := [FmtI; FmtB; FmtQ].
Definition fmt_payload : list fmt_char := [FmtI; FmtB; FmtQ; FmtQ].

(** ** server.py: UDP transfer server *)

(** Python's [range(start, stop)] and [range(start, stop, step)] for a
    positive step. *)
Definition range (start stop : Z) : list Z :=
  map (fun k => start + Z.of_nat k) (seq 0 (Z.to_nat (stop - start))).

Definition range_step (start stop step : Z) : list Z :=
  map (fun k => start + Z.of_nat k * step)
      (seq 0 (Z.to_nat ((stop - start + step - 1) / step))).

(** What a handler does to its socket, in order. *)
Inductive action :=
| Sendto (data : bytes)
| Sleep.

Definition sent_datagrams (tr : list action) : list bytes :=
  omap (fun a => match a with Sendto d => Some d | Sleep => None end) tr.

(** How [process_udp_connection] ends. *)
Inductive udp_reply :=
| Served             (* every segment was handed to the socket *)
| IgnoredPacket      (* wrong cookie or message type: return *)
| UnpackFailed       (* except struct.error *)
| UnexpectedError.   (* except Exception *)

Section UdpServer.

(** The [k]-th value drawn from [random.getrandbits(8)]. *)
Variable getrandbits8 : nat -> byte.

Definition random_bytes (drawn : nat) (n : Z) : bytes :=
  map getrandbits8 (seq drawn (Z.to_nat n)).

(** The loop that fills [segments_list]; [None] is the [struct.error] of
    the header's [struct.pack]. *)
Fixpoint generate_segments (file_size_bytes num_segments : Z)
    (indices : list Z) (drawn : nat) : option (list bytes) :=
  match indices with
  | [] => Some []
  | segment_index :: rest =>
      let remaining_bytes := file_size_bytes - segment_index * CONST_SIZE in
      let current_chunk_size := Z.min CONST_SIZE remaining_bytes in
      let payload_data := random_bytes drawn current_chunk_size in
      match pack fmt_payload
              [MAGIC_COOKIE; MTYPE_PAYLOAD; num_segments; segment_index] with
      | None => None
      | Some payload_header =>
          option_map (cons (payload_header ++ payload_data))
            (generate_segments file_size_bytes num_segments rest
               (drawn + length payload_data))
      end
  end.

Definition burst_limit : Z := 32.

(** The inner sending loop. [budget] is the number of [sendto] calls the
    socket still accepts; the call after that raises. The result is the
    trace and, when nothing was raised, the budget left. *)
Fixpoint send_burst (segments_list : list bytes) (indices : list Z)
    (budget : nat) : list action * option nat :=
  match indices with
  | [] => ([], Some budget)
  | segment_index :: rest =>
      match segments_list !! Z.to_nat segment_index, budget with
      | Some segment, S budget' =>
          let '(tr, r) := send_burst segments_list rest budget' in
          (Sendto segment :: tr, r)
      | _, _ => ([], None)
      end
  end.

(** The outer sending loop, one burst and one pause per start index. *)
Fixpoint send_bursts (segments_list : list bytes) (num_segments : Z)
    (starts : list Z) (budget : nat) : list action * bool :=
  match starts with
  | [] => ([], true)
  | start_index :: rest =>
      match send_burst segments_list
              (range start_index (Z.min (start_index + burst_limit) num_segments))
              budget with
      | (tr, Some budget') =>
          let '(tr', ok) := send_bursts segments_list num_segments rest budget' in
          (tr ++ Sleep :: tr', ok)
      | (tr, None) => (tr, false)
      end
  end.

Definition process_udp_connection (packet_data : bytes) (budget : nat)
    : list action * udp_reply :=
  match unpack fmt_request packet_data with
  | Some [cookie; message_type; file_size_bytes] =>
      if negb (cookie =? MAGIC_COOKIE) || negb (message_type =? MTYPE_REQUEST)
      then ([], IgnoredPacket)
      else
        let num_segments := (file_size_bytes + CONST_SIZE - 1) / CONST_SIZE in
        match generate_segments file_size_bytes num_segments
                (range 0 num_segments) 0 with
        | None => ([], UnpackFailed)
        | Some segments_list =>
            let '(tr, ok) :=
              send_bursts segments_list num_segments
                (range_step 0 num_segments burst_limit) budget in
            (tr, if ok then Served else UnexpectedError)
        end
  | _ => ([], UnpackFailed)
  end.

End UdpServer.

(** ** Python text: [bytes.decode], [str.strip], [int], [str]

    A [str] is the list of its code points. *)

Abbreviation str := (list Z).

Definition between (lo hi c : Z) : bool := (lo <=? c) && (c <=? hi).

(** [bytes.decode()]: strict UTF-8. [None] stands for
    [UnicodeDecodeError], which is a [ValueError]. *)
Fixpoint decode (data : bytes) : option str :=
  match data with
  | [] => Some []
  | b0 :: rest =>
      let c0 := Z_of_byte b0 in
      if c0 <? 0x80 then option_map (cons c0) (decode rest)
      else if between 0xC2 0xDF c0 then
        match rest with
        | b1 :: rest1 =>
            let c1 := Z_of_byte b1 in
            if between 0x80 0xBF c1
            then option_map (cons ((c0 - 0xC0) * 64 + (c1 - 0x80))) (decode rest1)
            else None
        | _ => None
        end
      else if between 0xE0 0xEF c0 then
        match rest with
        | b1 :: b2 :: rest2 =>
            let c1 := Z_of_byte b1 in
            let c2 := Z_of_byte b2 in
            let lo := if c0 =? 0xE0 then 0xA0 else 0x80 in
            let hi := if c0 =? 0xED then 0x9F else 0xBF in
            if between lo hi c1 && between 0x80 0xBF c2
            then option_map
                   (cons ((c0 - 0xE0) * 4096 + (c1 - 0x80) * 64 + (c2 - 0x80)))
                   (decode rest2)
            else None
        | _ => None
        end
      else if between 0xF0 0xF4 c0 then
        match rest with
        | b1 :: b2 :: b3 :: rest3 =>
            let c1 := Z_of_byte b1 in
            let c2 := Z_of_byte b2 in
            let c3 := Z_of_byte b3 in
            let lo := if c0 =? 0xF0 then 0x90 else 0x80 in
            let hi := if c0 =? 0xF4 then 0x8F else 0xBF in
            if between lo hi c1 && between 0x80 0xBF c2 && between 0x80 0xBF c3
            then option_map
                   (cons ((c0 - 0xF0) * 262144 + (c1 - 0x80) * 4096
                          + (c2 - 0x80) * 64 + (c3 - 0x80)))
                   (decode rest3)
            else None
        | _ => None
        end
      else None
  end.

(** [str.encode()] of a string of ASCII characters, the only strings the
    program encodes. *)
Definition encode_ascii (s : str) : bytes := map byte_of_Z s.

(** Whitespace for [str.strip()] ([str.isspace]). *)
Definition Py_UNICODE_ISSPACE (c : Z) : bool :=
  between 0x09 0x0D c || between 0x1C 0x20 c || (c =? 0x85) || (c =? 0xA0)
  || (c =? 0x1680) || between 0x2000 0x200A c || (c =? 0x2028) || (c =? 0x2029)
  || (c =? 0x202F) || (c =? 0x205F) || (c =? 0x3000).

(** Whitespace of the C-level integer parser, for ASCII characters. *)
Definition Py_ISSPACE (c : Z) : bool := between 0x09 0x0D c || (c =? 0x20).

Fixpoint lstrip (s : str) : str :=
  match s with
  | c :: rest => if Py_UNICODE_ISSPACE c then lstrip rest else s
  | [] => []
  end.

Definition strip (s : str) : str := rev (lstrip (rev (lstrip s))).

Definition chr_plus : Z := 43.
Definition chr_minus : Z := 45.
Definition chr_underscore : Z := 95.
Definition chr_zero : Z := 48.
Definition chr_newline : Z := 10.

Section PyInt.

(** The decimal value of a non-ASCII character in the interpreter's Unicode
    database (for instance the Arabic-Indic digits), [None] when the
    character is not a decimal digit. *)
Variable unicode_todecimal : Z -> option Z.

Definition digit_value (c : Z) : option Z :=
  if c <? 128
  then (if between 48 57 c then Some (c - chr_zero) else None)
  else if Py_UNICODE_ISSPACE c then None
  else unicode_todecimal c.

Definition int_space (c : Z) : bool :=
  if c <? 128 then Py_ISSPACE c else Py_UNICODE_ISSPACE c.

Fixpoint skip_int_space (s : str) : str :=
  match s with
  | c :: rest => if int_space c then skip_int_space rest else s
  | [] => []
  end.

(** The digit scan of the integer parser: digits with single underscores
    between them. It returns the value and what is left; [None] is a doubled
    or trailing underscore. *)
Fixpoint scan_digits (s : str) (prev_underscore : bool) (acc : Z)
    : option (Z * str) :=
  match s with
  | [] => if prev_underscore then None else Some (acc, [])
  | c :: rest =>
      if c =? chr_underscore
      then (if prev_underscore then None else scan_digits rest true acc)
      else
        match digit_value c with
        | Some d => scan_digits rest false (acc * 10 + d)
        | None => if prev_underscore then None else Some (acc, s)
        end
  end.

(** [int(s)] in base 10. [None] stands for [ValueError]. The limit on the
    number of digits (4300 by default) is out of reach of a request of at
    most 1024 bytes and is left out. *)
Definition py_int (s : str) : option Z :=
  let s1 := skip_int_space s in
  let '(sign, s2) :=
    match s1 with
    | c :: rest =>
        if c =? chr_plus then (1, rest)
        else if c =? chr_minus then (-1, rest)
        else (1, s1)
    | [] => (1, s1)
    end in
  match s2 with
  | c :: _ =>
      match digit_value c with
      | Some _ =>
          match scan_digits s2 false 0 with
          | Some (v, rest) =>
              match skip_int_space rest with
              | [] => Some (sign * v)
              | _ => None
              end
          | None => None
          end
      | None => None
      end
  | [] => None
  end.

End PyInt.

(** The integer literals [int] accepts, as a grammar: optional blanks, an
    optional sign, digits with single underscores between them, optional
    blanks. [int_tail t acc v]: after a digit, reading [t] takes the value
    from [acc] to [v]. *)
Inductive int_tail (tbl : Z -> option Z) : str -> Z -> Z -> Prop :=
| int_tail_nil acc : int_tail tbl [] acc acc
| int_tail_digit c d t acc v :
    digit_value tbl c = Some d ->
    int_tail tbl t (acc * 10 + d) v ->
    int_tail tbl (c :: t) acc v
| int_tail_underscore c d t acc v :
    digit_value tbl c = Some d ->
    int_tail tbl t (acc * 10 + d) v ->
    int_tail tbl (chr_underscore :: c :: t) acc v.

Definition int_body (tbl : Z -> option Z) (s : str) (v : Z) : Prop :=
  exists c d t, s = c :: t /\ digit_value tbl c = Some d /\ int_tail tbl t d v.

Definition int_literal (tbl : Z -> option Z) (s : str) (z : Z) : Prop :=
  exists ws1 sgn body ws2 v,
    s = ws1 ++ sgn ++ body ++ ws2 /\
    Forall (fun c => int_space c = true) ws1 /\
    Forall (fun c => int_space c = true) ws2 /\
    int_body tbl body v /\
    ((sgn = [] \/ sgn = [chr_plus]) /\ z = v \/ sgn = [chr_minus] /\ z = - v).

(** What the specification calls a decimal ASCII byte count. *)
Definition unsigned_decimal (s : str) : Prop :=
  s <> [] /\ Forall (fun c => 48 <= c <= 57) s.

(** [str(n)] for an integer. The fuel is the number of digits at most. *)
Fixpoint str_digits (fuel : nat) (n : Z) (acc : str) : str :=
  match fuel with
  | O => acc
  | S fuel' =>
      let acc' := (chr_zero + n mod 10) :: acc in
      if n <? 10 then acc' else str_digits fuel' (n / 10) acc'
  end.

Definition py_str (n : Z) : str :=
  if n <? 0
  then chr_minus :: str_digits (S (Z.to_nat (Z.log2 (- n)))) (- n) []
  else str_digits (S (Z.to_nat (Z.log2 n))) n [].

(** ** server.py: TCP transfer server *)

(** What [connection.recv] gives the handler. *)
Inductive recv_result :=
| RecvData (data : bytes)
| RecvOSError.

Inductive tcp_action :=
| Sendall (chunk : bytes)
| Close.

(** How [process_tcp_connection] ends. *)
Inductive tcp_end :=
| TcpCompleted        (* the loop ran to its end *)
| TcpSendFailed       (* sendall raised: logged, loop left *)
| TcpInvalidRequest   (* except ValueError: logged *)
| TcpUnhandled.       (* another exception leaves the handler *)

Definition chunks_sent (tr : list tcp_action) : list bytes :=
  omap (fun a => match a with Sendall d => Some d | Close => None end) tr.

Definition chunk_size : Z := CONST_SIZE * 8.

(** [connection.recv(bufsize)] on a connection whose peer has written
    [inbound] in one piece. *)
Definition recv_once (bufsize : Z) (inbound : bytes) : recv_result :=
  RecvData (take (Z.to_nat bufsize) inbound).

Section TcpServer.

Variable getrandbits8 : nat -> byte.
Variable unicode_todecimal : Z -> option Z.

(** The sending loop. [budget] is the number of [sendall] calls that
    succeed before one raises. [None] is the model running out of fuel. *)
Fixpoint send_chunks (fuel : nat) (total_file_size bytes_transferred : Z)
    (drawn budget : nat) : option (list tcp_action * tcp_end) :=
  match fuel with
  | O => None
  | S fuel' =>
      if bytes_transferred <? total_file_size then
        let remaining_bytes := total_file_size - bytes_transferred in
        let current_chunk_size := Z.min chunk_size remaining_bytes in
        let chunk_data := random_bytes getrandbits8 drawn current_chunk_size in
        match budget with
        | O => Some ([], TcpSendFailed)
        | S budget' =>
            match send_chunks fuel' total_file_size
                    (bytes_transferred + current_chunk_size)
                    (drawn + length chunk_data) budget' with
            | Some (tr, e) => Some (Sendall chunk_data :: tr, e)
            | None => None
            end
        end
      else Some ([], TcpCompleted)
  end.

(** The body of the [try]. *)
Definition tcp_session_body (fuel : nat) (received : recv_result) (budget : nat)
    : option (list tcp_action * tcp_end) :=
  match received with
  | RecvOSError => Some ([], TcpUnhandled)
  | RecvData data =>
      match decode data with
      | None => Some ([], TcpInvalidRequest)
      | Some text =>
          let received_data := strip text in
          match py_int unicode_todecimal received_data with
          | None => Some ([], TcpInvalidRequest)
          | Some total_file_size =>
              send_chunks fuel total_file_size 0 0 budget
          end
      end
  end.

(** [process_tcp_connection]: the body, then the [finally] clause. *)
Definition process_tcp_connection (fuel : nat) (received : recv_result)
    (budget : nat) : option (list tcp_action * tcp_end) :=
  match tcp_session_body fuel received budget with
  | Some (tr, e) => Some (tr ++ [Close], e)
  | None => None
  end.

End TcpServer.

(** The received bytes are not the text of an integer: they are not UTF-8,
    or the stripped text is no integer literal. *)
Definition not_integer_request (tbl : Z -> option Z) (data : bytes) : Prop :=
  match decode data with
  | None => True
  | Some text => forall z, ~ int_literal tbl (strip text) z
  end.

(** ** client.py: TCP transfer client *)

Definition request_line (file_size : Z) : bytes :=
  encode_ascii (py_str file_size ++ [chr_newline]).

Section TcpClient.

(** The network may hand the [k]-th [recv] call fewer bytes than it asked
    for: at most [S (segmentation k)], and at least one while the stream
    lasts. *)
Variable segmentation : nat -> nat.

(** The receive loop over the bytes the server writes before it closes.
    The result is [bytes_received] when the loop ends; [None] is the model
    running out of fuel. *)
Fixpoint tcp_receive (fuel : nat) (file_size : Z) (stream : bytes)
    (calls : nat) (bytes_received : Z) : option Z :=
  match fuel with
  | O => None
  | S fuel' =>
      if bytes_received <? file_size then
        let bufsize := Z.min chunk_size (file_size - bytes_received) in
        let data_to_rcv :=
          take (Nat.min (Z.to_nat bufsize) (S (segmentation calls))) stream in
        match data_to_rcv with
        | [] => Some bytes_received
        | _ =>
            tcp_receive fuel' file_size (drop (length data_to_rcv) stream)
              (S calls) (bytes_received + Z.of_nat (length data_to_rcv))
        end
      else Some bytes_received
  end.

(** What the client computes once the loop is left; the division raises
    ZeroDivisionError when the two clock readings are equal. *)
Inductive tcp_outcome :=
| TcpResult (bytes_received : Z) (total_time transfer_speed_bps : Q)
| TcpError.

Definition tcp_report (bytes_received : Z) (t_start t_end : Q) : tcp_outcome :=
  let total_time := (t_end - t_start)%Q in
  if Qeq_bool total_time 0 then TcpError
  else TcpResult bytes_received total_time
         (inject_Z bytes_received / total_time * 8)%Q.

(** [manage_tcp_connection] once connected: [stream] is what the server
    writes before it closes, [t_start] and [t_end] are the clock readings
    around the loop. *)
Definition manage_tcp_connection (fuel : nat) (file_size : Z) (stream : bytes)
    (t_start t_end : Q) : option tcp_outcome :=
  option_map (fun bytes_received => tcp_report bytes_received t_start t_end)
    (tcp_receive fuel file_size stream 0 0).

End TcpClient.

(** ** client.py: UDP transfer client *)

(** What one pass of the receive loop gets from [recvfrom], with the clock
    readings the pass takes: [t_received] right after the datagram came in,
    [t_checked] when the idle gap is tested. *)
Inductive udp_event :=
| Datagram (received_data : bytes) (t_received t_checked : Q)
| Timeout       (* socket.timeout *)
| RecvError.    (* any other exception raised by recvfrom *)

Record udp_state := {
  total_segments : Z;
  segments_received : gmap Z Z;
  bytes_received : Z;
  last_received : Q
}.

Inductive step_result :=
| Continue (st : udp_state)
| Break (st : udp_state)
| Raise.

Definition header_size : nat := calcsize fmt_payload.

(** Lines 168-170: a segment is counted the first time its index is seen. *)
Definition record_segment (st : udp_state) (curr_segment data_size : Z) : udp_state :=
  match segments_received st !! curr_segment with
  | Some _ => st
  | None =>
      {| total_segments := total_segments st;
         segments_received := <[curr_segment := data_size]> (segments_received st);
         bytes_received := bytes_received st + data_size;
         last_received := last_received st |}
  end.

Definition idle_gap : Q := 3 # 2.

(** One pass of the [while True] loop. *)
Definition udp_step (st : udp_state) (ev : udp_event) : step_result :=
  match ev with
  | Timeout =>
      if decide (segments_received st = ∅) then Continue st else Break st
  | RecvError => Raise
  | Datagram received_data t_received t_checked =>
      match unpack fmt_payload (take header_size received_data) with
      | Some [magic_cookie; message_type; total; curr_segment] =>
          let st1 :=
            {| total_segments := total;
               segments_received := segments_received st;
               bytes_received := bytes_received st;
               last_received := t_received |} in
          if negb (magic_cookie =? MAGIC_COOKIE) || negb (message_type =? MTYPE_PAYLOAD)
          then Continue st1
          else
            let data_size := Z.of_nat (length received_data) - Z.of_nat header_size in
            let st2 := record_segment st1 curr_segment data_size in
            if (total <=? Z.of_nat (size (segments_received st2)))
               || Qle_bool idle_gap (t_checked - last_received st2)
            then Break st2
            else Continue st2
      | _ => Raise
      end
  end.

Inductive loop_result :=
| Waiting (st : udp_state)    (* the script is used up, the loop is in recvfrom *)
| Broke (st : udp_state)      (* the loop was left by a break *)
| Raised.                     (* an exception left the loop *)

Fixpoint udp_receive_loop (events : list udp_event) (st : udp_state) : loop_result :=
  match events with
  | [] => Waiting st
  | ev :: rest =>
      match udp_step st ev with
      | Continue st' => udp_receive_loop rest st'
      | Break st' => Broke st'
      | Raise => Raised
      end
  end.

Inductive udp_outcome :=
| UdpResult (total_time trans_speed success_precent : Q)
| UdpError                      (* except Exception: the error is printed *)
| UdpWaiting (st : udp_state).  (* still receiving when the script ends *)

(** What is computed and printed once the loop is left. Both divisions
    raise ZeroDivisionError on a zero divisor. *)
Definition udp_report (st : udp_state) (t_start t_end : Q) : udp_outcome :=
  let total_time := (t_end - t_start)%Q in
  if total_segments st =? 0 then UdpError
  else
    let success_precent :=
      (inject_Z (Z.of_nat (size (segments_received st)))
       / inject_Z (total_segments st) * 100)%Q in
    if Qeq_bool total_time 0 then UdpError
    else
      let trans_speed := (inject_Z (bytes_received st * 8) / total_time)%Q in
      UdpResult total_time trans_speed success_precent.

Definition udp_initial (file_size : Z) (t_init : Q) : udp_state :=
  {| total_segments := (file_size + 1024 - 1) / 1024;
     segments_received := ∅;
     bytes_received := 0;
     last_received := t_init |}.

(** [manage_udp_connection]; [t_start], [t_init] and [t_end] are the clock
    readings before and after the loop. *)
Definition manage_udp_connection (file_size : Z) (events : list udp_event)
    (t_start t_init t_end : Q) : udp_outcome :=
  match pack fmt_request [MAGIC_COOKIE; MTYPE_REQUEST; file_size] with
  | None => UdpError
  | Some request_data =>
      match udp_receive_loop events (udp_initial file_size t_init) with
      | Waiting st => UdpWaiting st
      | Broke st => udp_report st t_start t_end
      | Raised => UdpError
      end
  end.

(** The script seen from outside: which datagrams pass the validation, and
    which total the last decodable header carried. *)
Definition header_of (ev : udp_event) : option (Z * Z * Z * Z) :=
  match ev with
  | Datagram received_data _ _ =>
      match unpack fmt_payload (take header_size received_data) with
      | Some [magic_cookie; message_type; total; curr_segment] =>
          Some (magic_cookie, message_type, total, curr_segment)
      | _ => None
      end
  | _ => None
  end.

Definition is_payload (h : Z * Z * Z * Z) : bool :=
  let '(magic_cookie, message_type, _, _) := h in
  (magic_cookie =? MAGIC_COOKIE) && (message_type =? MTYPE_PAYLOAD).

Definition accepted_index (ev : udp_event) : option Z :=
  match header_of ev with
  | Some h => if is_payload h then Some (snd h) else None
  | None => None
  end.

Definition accepted_indices (events : list udp_event) : gset Z :=
  list_to_set (omap accepted_index events).

Definition last_total (events : list udp_event) (initial : Z) : Z :=
  fold_left (fun total ev =>
               match header_of ev with
               | Some (_, _, t, _) => t
               | None => total
               end) events initial.

(** Datagrams for the examples: a 21-byte header and [n] payload bytes. *)
Definition make_datagram (cookie type total index : Z) (n : nat) : bytes :=
  be_encode 4 cookie ++ be_encode 1 type ++ be_encode 8 total ++ be_encode 8 index
  ++ repeat Byte.x00 n.

(** ** client.py: the receive loop against the clock *)





(** ** client.py: discovery listener *)

Record address := { host : string; port : Z }.

(** What the listening socket delivers to one pass of the loop. *)
Inductive discovery_event :=
| Arrival (offer_data : bytes) (sender_address : address)
| ListenError.   (* recvfrom raised: the error is printed, the loop goes on *)

(** [find_server_offer] over what the socket delivers. [None]: the script
    is used up and the function is still listening. *)
Fixpoint find_server_offer (arrivals : list discovery_event)
    : option (string * Z * Z) :=
  match arrivals with
  | [] => None
  | ListenError :: rest => find_server_offer rest
  | Arrival offer_data sender_address :: rest =>
      match unpack fmt_offer offer_data with
      | Some [magic_cookie; message_type; udp_port; tcp_port] =>
          if (magic_cookie =? MAGIC_COOKIE) && (message_type =? MTYPE_OFFER)
          then Some (host sender_address, udp_port, tcp_port)
          else find_server_offer rest
      | _ => find_server_offer rest
      end
  end.

(** A datagram is a valid Offer for the ports [udp_port], [tcp_port]. *)
Definition valid_offer (offer_data : bytes) (udp_port tcp_port : Z) : Prop :=
  unpack fmt_offer offer_data
  = Some [MAGIC_COOKIE; MTYPE_OFFER; udp_port; tcp_port].

Definition discarded (ev : discovery_event) : Prop :=
  forall offer_data sender udp_port tcp_port,
    ev = Arrival offer_data sender -> ~ valid_offer offer_data udp_port tcp_port.

(** ** client.py: session orchestrator *)

Inductive session_kind := TcpSession | UdpSession.

(** A thread is known by the cycle that created it and its place in that
    cycle's [connection_threads]. *)
Record thread_id := ThreadId { thread_cycle : nat; thread_position : nat }.

Inductive client_action :=
| FindOffer (cycle : nat)         (* the call of find_server_offer *)
| CreateThread (t : thread_id) (kind : session_kind) (connection_number : nat)
| StartThread (t : thread_id)
| JoinThread (t : thread_id)      (* thread.join() has returned *)
| TransfersComplete (cycle : nat).

Definition connection_threads (tcp_conn_num udp_conn_num cycle : nat)
    : list thread_id :=
  map (ThreadId cycle) (seq 0 (tcp_conn_num + udp_conn_num)).

(** One pass of the [while True] loop of [run_client]. *)
Definition client_cycle (tcp_conn_num udp_conn_num cycle : nat)
    : list client_action :=
  FindOffer cycle
  :: map (fun i => CreateThread (ThreadId cycle i) TcpSession (i + 1))
       (seq 0 tcp_conn_num)
  ++ map (fun i => CreateThread (ThreadId cycle (tcp_conn_num + i)) UdpSession (i + 1))
       (seq 0 udp_conn_num)
  ++ map StartThread (connection_threads tcp_conn_num udp_conn_num cycle)
  ++ map JoinThread (connection_threads tcp_conn_num udp_conn_num cycle)
  ++ [TransfersComplete cycle].

(** The first [cycles] passes. *)
Definition run_client (tcp_conn_num udp_conn_num cycles : nat)
    : list client_action :=
  flat_map (client_cycle tcp_conn_num udp_conn_num) (seq 0 cycles).

(** An execution interleaves what the orchestrator does with the ends of
    the session threads. *)
Inductive event :=
| Client (a : client_action)
| Finished (t : thread_id).   (* the session has reported and returned *)

Definition client_actions (tr : list event) : list client_action :=
  omap (fun e => match e with Client a => Some a | Finished _ => None end) tr.

(** [join] returns only once the thread has finished. *)
Definition joins_wait (tr : list event) : Prop :=
  forall before t after,
    tr = before ++ Client (JoinThread t) :: after -> Finished t ∈ before.

#[global] Instance thread_id_eq_dec : EqDecision thread_id.
Proof. solve_decision. Defined.

(** A decision procedure for [joins_wait]; [finished] holds the threads
    that have finished so far. *)
Fixpoint joins_check (finished : list thread_id) (tr : list event) : bool :=
  match tr with
  | [] => true
  | Finished t :: tr' => joins_check (t :: finished) tr'
  | Client (JoinThread t) :: tr' =>
      bool_decide (t ∈ finished) && joins_check finished tr'
  | Client _ :: tr' => joins_check finished tr'
  end.

(** [tr] is an execution of the client, complete or cut short. *)
Definition client_execution (tcp_conn_num udp_conn_num : nat) (tr : list event)
    : Prop :=
  joins_wait tr /\
  exists cycles rest,
    client_actions tr ++ rest = run_client tcp_conn_num udp_conn_num cycles.

(** An execution for the examples: one TCP and one UDP session, the UDP
    one finishing first, up to the second discovery call. *)
Definition example_pass : list event :=
  [Client (FindOffer 0);
   Client (CreateThread (ThreadId 0 0) TcpSession 1);
   Client (CreateThread (ThreadId 0 1) UdpSession 1);
   Client (StartThread (ThreadId 0 0)); Client (StartThread (ThreadId 0 1));
   Finished (ThreadId 0 1); Finished (ThreadId 0 0);
   Client (JoinThread (ThreadId 0 0)); Client (JoinThread (ThreadId 0 1));
   Client (TransfersComplete 0)].

(** The total announced by the last datagram that passed the validation. *)
Definition last_accepted_total (events : list udp_event) (initial : Z) : Z :=
  fold_left (fun total ev =>
               match header_of ev with
               | Some (m, ty, t, c) => if is_payload (m, ty, t, c) then t else total
               | None => total
               end) events initial.

(** Events for the examples: a full segment of a transfer, and a stray
    datagram with a wrong cookie; both read the clock at [t]. *)
Definition segment_event (total index : Z) (t : Q) : udp_event :=
  Datagram (make_datagram MAGIC_COOKIE MTYPE_PAYLOAD total index 1024) t t.

Definition stray_event (total : Z) (t : Q) : udp_event :=
  Datagram (make_datagram 0 MTYPE_PAYLOAD total 0 0) t t.

(** ** Vocabulary of the statements *)

Definition u64_max : Z := 2 ^ 64.

(** What one element of [segments_list] looks like. *)
Definition is_segment (file_size num_segments index : Z) (segment : bytes) : Prop :=
  exists header payload,
    segment = header ++ payload /\
    pack fmt_payload [MAGIC_COOKIE; MTYPE_PAYLOAD; num_segments; index] = Some header /\
    Z.of_nat (length payload) = Z.max 0 (Z.min CONST_SIZE (file_size - index * CONST_SIZE)).

Definition is_ascii_digit (c : Z) : Prop := 48 <= c <= 57.

(** The number a string of ASCII digits denotes, continuing from [acc]. *)
Definition digits_value (ds : str) (acc : Z) : Z :=
  fold_left (fun a c => a * 10 + (c - chr_zero)) ds acc.

Definition chunks_needed (remaining : Z) : Z := (Z.max 0 remaining + 8191) / 8192.

Definition good_chunk (c : bytes) : Prop := 0 < Z.of_nat (length c) <= 8192.

Definition step_state (r : step_result) : option udp_state :=
  match r with
  | Continue st | Break st => Some st
  | Raise => None
  end.

(** A loop that was left by [break] has consumed a prefix of the script:
    every pass but the last continued, the last one broke. *)
Definition consumed_prefix (events consumed : list udp_event)
    (st0 st : udp_state) : Prop :=
  exists pre ev rest st',
    consumed = pre ++ [ev] /\ events = consumed ++ rest /\
    udp_receive_loop pre st0 = Waiting st' /\ udp_step st' ev = Break st.

(** * The rest of the program *)

(** ** server.py: port allocation *)

Inductive allocation :=
| PortFound (port : Z)
| NoPortAvailable     (* RuntimeError("No available port found.") *)
| PortOutOfRange.     (* OverflowError of bind: the port is not in 0..65535 *)

Section AllocatePort.

(** Whether [sock.bind(('0.0.0.0', port))] succeeds on a fresh socket of the
    type chosen for [protocol]: a stream socket for ["tcp"], a datagram
    socket for anything else. *)
Variable bind_ok : bool -> Z -> bool.

Definition is_stream (protocol : string) : bool := String.eqb protocol "tcp".

Fixpoint try_ports (stream : bool) (ports : list Z) : allocation :=
  match ports with
  | [] => NoPortAvailable
  | port :: rest =>
      if (port <? 0) || (65535 <? port) then PortOutOfRange
      else if bind_ok stream port then PortFound port
      else try_ports stream rest
  end.

Definition allocate_port (start end_ : Z) (protocol : string) : allocation :=
  try_ports (is_stream protocol) (range start (end_ + 1)).

End AllocatePort.

(** ** server.py: discovery broadcaster *)

Inductive broadcast_action :=
| Broadcast (packet : bytes) (host : string) (port : Z)
| Pause.   (* time.sleep(1) *)

Definition broadcast_address : string := "172.18.255.255".

(** The sending loop, cut after [rounds] passes; [budget] is the number of
    [sendto] calls that succeed before one raises and ends the thread. *)
Fixpoint broadcast_loop (offer_packet : bytes) (rounds budget : nat)
    : list broadcast_action :=
  match rounds, budget with
  | S rounds', S budget' =>
      Broadcast offer_packet broadcast_address BROADCAST_PORT
        :: Pause :: broadcast_loop offer_packet rounds' budget'
  | _, _ => []
  end.

(** [offer_broadcast]: [None] is the [struct.error] of packing a port that
    does not fit 16 bits, raised before anything is sent. *)
Definition offer_broadcast (udp_port tcp_port : Z) (rounds budget : nat)
    : option (list broadcast_action) :=
  match pack fmt_offer [MAGIC_COOKIE; MTYPE_OFFER; udp_port; tcp_port] with
  | None => None
  | Some offer_packet => Some (broadcast_loop offer_packet rounds budget)
  end.

(** ** client.py: user-supplied values *)

Section ValuesFromUser.

Variable unicode_todecimal : Z -> option Z.

(** The interpreter's limit on the conversion of a string to an integer,
    [sys.int_max_str_digits]: 4300 digits unless it was changed. *)
Definition int_max_str_digits : Z := 4300.

(** The digits of a string; blanks, the sign and underscores are not
    counted, leading zeros are. *)
Definition count_digits (s : str) : Z :=
  Z.of_nat (length (filter (fun c => bool_decide (is_Some (digit_value unicode_todecimal c))) s)).

(** [int(s)] on a string of any length: an integer literal of more than
    4300 digits raises ValueError like a string that is no literal. *)
Definition py_int_limited (s : str) : option Z :=
  match py_int unicode_todecimal s with
  | Some v => if int_max_str_digits <? count_digits s then None else Some v
  | None => None
  end.

(** [values_from_user] over the lines the user types. A line on which
    [int] raises ValueError, because it is no integer or has too many digits,
    restarts the questions at the next line; so does a triple with a value
    that is not positive. [None]: the lines are used up. *)
Fixpoint values_from_user (lines : list str) : option (Z * Z * Z) :=
  match lines with
  | [] => None
  | line1 :: rest1 =>
      match py_int_limited line1 with
      | None => values_from_user rest1
      | Some file_size =>
          match rest1 with
          | [] => None
          | line2 :: rest2 =>
              match py_int_limited line2 with
              | None => values_from_user rest2
              | Some tcp_conn_num =>
                  match rest2 with
                  | [] => None
                  | line3 :: rest3 =>
                      match py_int_limited line3 with
                      | None => values_from_user rest3
                      | Some udp_conn_num =>
                          if (file_size <=? 0) || (tcp_conn_num <=? 0)
                             || (udp_conn_num <=? 0)
                          then values_from_user rest3
                          else Some (file_size, tcp_conn_num, udp_conn_num)
                      end
                  end
              end
          end
      end
  end.

End ValuesFromUser.

(** ** Vocabulary of the further statements *)

(** A trace made of bursts, each followed by its pause. *)
Definition burst_trace (groups : list (list bytes)) : list action :=
  flat_map (fun g => map Sendto g ++ [Sleep]) groups.

(** Every group but the last has [k] elements. *)
Definition full_but_last {A} (k : nat) (groups : list (list A)) : Prop :=
  forall i g, groups !! i = Some g -> (S i < length groups)%nat -> length g = k.


(** The payload bytes of a list of datagrams: their lengths less the 21
    header bytes of each. *)
Definition payload_bytes (got : list bytes) : Z :=
  foldr (fun d acc => (Z.of_nat (length d) - 21) + acc) 0 got.

(** The datagrams [got] reach the client, one per pass of its loop and in
    this order, each tested for the idle gap less than 1.5 s after it was
    stamped. *)
Definition delivered (got : list bytes) (events : list udp_event) : Prop :=
  Forall2 (fun d ev => exists t1 t2,
             ev = Datagram d t1 t2 /\ (t2 - t1 < idle_gap)%Q) got events.

(** The segment index a datagram carries, when it passes the validation. *)
Definition datagram_index (d : bytes) : option Z := accepted_index (Datagram d 0 0).

(** A pass that neither ends the loop nor records anything: a timeout, or a
    datagram whose header decodes and fails the validation. *)
Definition fruitless (ev : udp_event) : Prop :=
  ev = Timeout \/ exists h, header_of ev = Some h /\ is_payload h = false.

(** A Request for 1025 bytes and the answer to it, for the examples. *)
Definition example_request : bytes :=
  be_encode 4 MAGIC_COOKIE ++ be_encode 1 MTYPE_REQUEST ++ be_encode 8 1025.

Definition example_answer : list bytes :=
  sent_datagrams (fst (process_udp_connection (fun _ => Byte.x2a) example_request 2)).

(** ** server.py: start of [run_server] *)

Inductive startup :=
| Broadcasting (udp_port tcp_port : Z) (sent : list broadcast_action)
| StartupRuntimeError     (* no port could be allocated *)
| StartupOverflowError    (* a bind was given a port outside 0..65535 *)
| BroadcasterStructError. (* the broadcast thread died packing the Offer *)

(** The two allocations of [run_server] and the broadcast thread it starts,
    the latter followed for [rounds] passes. *)
Definition server_startup (bind_ok : bool -> Z -> bool) (rounds budget : nat)
    : startup :=
  match allocate_port bind_ok 1025 65535 "udp" with
  | NoPortAvailable => StartupRuntimeError
  | PortOutOfRange => StartupOverflowError
  | PortFound udp_port =>
      match allocate_port bind_ok 1025 65535 "tcp" with
      | NoPortAvailable => StartupRuntimeError
      | PortOutOfRange => StartupOverflowError
      | PortFound tcp_port =>
          match offer_broadcast udp_port tcp_port rounds budget with
          | Some sent => Broadcasting udp_port tcp_port sent
          | None => BroadcasterStructError
          end
      end
  end.

(** * Properties *)

(** ** Codec lemmas *)

Lemma Z_of_byte_range (b : byte) : 0 <= Z_of_byte b < 256.
Proof.
  unfold Z_of_byte. pose proof (Byte.to_N_bounded b) as H. lia.
Qed.

Lemma Z_of_byte_of_Z (z : Z) : Z_of_byte (byte_of_Z z) = z mod 256.
Proof.
  unfold byte_of_Z, Z_of_byte.
  assert (Hr : 0 <= z mod 256 < 256) by (apply Z.mod_pos_bound; lia).
  destruct (Byte.of_N (Z.to_N (z mod 256))) as [b|] eqn:E.
  - apply Byte.to_of_N in E. rewrite E. lia.
  - apply Byte.of_N_None_iff in E. lia.
Qed.

Lemma byte_of_Z_of_byte (b : byte) : byte_of_Z (Z_of_byte b) = b.
Proof.
  unfold byte_of_Z. pose proof (Z_of_byte_range b) as Hr.
  rewrite Z.mod_small by lia. unfold Z_of_byte.
  rewrite N2Z.id, Byte.of_to_N. reflexivity.
Qed.

Lemma be_decode_snoc (bs : bytes) (b : byte) :
  be_decode (bs ++ [b]) = be_decode bs * 256 + Z_of_byte b.
Proof. unfold be_decode. rewrite fold_left_app. reflexivity. Qed.

Lemma length_be_encode (n : nat) (v : Z) : length (be_encode n v) = n.
Proof.
  revert v. induction n as [|n IH]; intros v; simpl; [reflexivity|].
  rewrite length_app, IH. simpl. lia.
Qed.

Lemma be_decode_encode (n : nat) (v : Z) :
  be_decode (be_encode n v) = v mod 256 ^ Z.of_nat n.
Proof.
  revert v. induction n as [|n IH]; intros v.
  - simpl. rewrite Z.mod_1_r. reflexivity.
  - cbn [be_encode]. rewrite be_decode_snoc, IH, Z_of_byte_of_Z.
    rewrite Nat2Z.inj_succ, Z.pow_succ_r by lia.
    rewrite Z.rem_mul_r by lia. lia.
Qed.

Lemma be_decode_range (bs : bytes) :
  0 <= be_decode bs < 256 ^ Z.of_nat (length bs).
Proof.
  induction bs as [|b bs IH] using rev_ind.
  - simpl. unfold be_decode. simpl. lia.
  - rewrite be_decode_snoc, length_app. simpl.
    replace (Z.of_nat (length bs + 1)) with (Z.succ (Z.of_nat (length bs))) by lia.
    rewrite Z.pow_succ_r by lia.
    pose proof (Z_of_byte_range b). nia.
Qed.

Lemma be_encode_decode (bs : bytes) :
  be_encode (length bs) (be_decode bs) = bs.
Proof.
  induction bs as [|b bs IH] using rev_ind; [reflexivity|].
  rewrite length_app, Nat.add_comm. cbn [length Nat.add be_encode].
  rewrite be_decode_snoc.
  pose proof (Z_of_byte_range b) as Hb.
  replace ((be_decode bs * 256 + Z_of_byte b) / 256) with (be_decode bs).
  - rewrite IH. f_equal. f_equal.
    rewrite <- (byte_of_Z_of_byte b) at 2.
    unfold byte_of_Z.
    replace ((be_decode bs * 256 + Z_of_byte b) mod 256)
      with (Z_of_byte b mod 256); [reflexivity|].
    rewrite Z.add_comm, Z.mod_add by lia. reflexivity.
  - rewrite Z.add_comm, Z.div_add by lia.
    rewrite Z.div_small by lia. lia.
Qed.

Lemma length_pack (fmt : list fmt_char) (vs : list Z) (bs : bytes) :
  pack fmt vs = Some bs -> length bs = calcsize fmt.
Proof.
  revert vs bs. induction fmt as [|c fmt IH]; intros [|v vs] bs; simpl; try discriminate.
  - intros [= <-]. reflexivity.
  - destruct (fits c v); [|discriminate].
    destruct (pack fmt vs) as [tl|] eqn:E; [|discriminate].
    intros [= <-]. rewrite length_app, length_be_encode, (IH _ _ E). reflexivity.
Qed.

Lemma unpack_pack (fmt : list fmt_char) (vs : list Z) (bs : bytes) :
  pack fmt vs = Some bs -> unpack fmt bs = Some vs.
Proof.
  intros Hp. unfold unpack. rewrite (length_pack _ _ _ Hp), Nat.eqb_refl. f_equal.
  revert vs bs Hp. induction fmt as [|c fmt IH]; intros [|v vs] bs; simpl; try discriminate.
  - reflexivity.
  - destruct (fits c v) eqn:Hf; [|discriminate].
    destruct (pack fmt vs) as [tl|] eqn:E; [|discriminate].
    intros [= <-].
    rewrite take_app_length', drop_app_length' by (symmetry; apply length_be_encode).
    rewrite be_decode_encode, (IH _ _ E). f_equal.
    unfold fits in Hf. apply andb_prop in Hf as [H0 H1].
    apply Z.mod_small. lia.
Qed.

Lemma pack_unpack (fmt : list fmt_char) (bs : bytes) (vs : list Z) :
  unpack fmt bs = Some vs -> pack fmt vs = Some bs.
Proof.
  unfold unpack. destruct (Nat.eqb_spec (length bs) (calcsize fmt)) as [Hl|]; [|discriminate].
  intros [= <-]. revert bs Hl. induction fmt as [|c fmt IH]; intros bs Hl; simpl in *.
  - destruct bs; [reflexivity|discriminate].
  - assert (Hw : length (firstn (fmt_width c) bs) = fmt_width c)
      by (rewrite length_take; lia).
    pose proof (be_decode_range (firstn (fmt_width c) bs)) as Hr. rewrite Hw in Hr.
    unfold fits.
    replace (0 <=? _) with true by (symmetry; apply Z.leb_le; lia).
    replace (_ <? _) with true by (symmetry; apply Z.ltb_lt; lia).
    simpl. rewrite IH by (rewrite length_drop; lia). simpl.
    rewrite <- Hw at 1. rewrite be_encode_decode, take_drop. reflexivity.
Qed.

(** ** Python ranges *)

Lemma range_nil (a b : Z) : b <= a -> range a b = [].
Proof. intros H. unfold range. replace (Z.to_nat (b - a)) with O by lia. reflexivity. Qed.

Lemma range_cons (a b : Z) : a < b -> range a b = a :: range (a + 1) b.
Proof.
  intros H. unfold range.
  replace (Z.to_nat (b - a)) with (S (Z.to_nat (b - (a + 1)))) by lia.
  cbn [seq map]. f_equal; [lia|].
  rewrite <- seq_shift, map_map. apply map_ext. intros k. lia.
Qed.

Lemma length_range (a b : Z) : length (range a b) = Z.to_nat (b - a).
Proof. unfold range. rewrite length_map, length_seq. reflexivity. Qed.

Lemma lookup_range (a b : Z) (k : nat) :
  (k < Z.to_nat (b - a))%nat -> range a b !! k = Some (a + Z.of_nat k).
Proof.
  intros H. unfold range. rewrite list_lookup_fmap, lookup_seq_lt by lia. reflexivity.
Qed.

Lemma range_step_nil (a b s : Z) : 0 < s -> b <= a -> range_step a b s = [].
Proof.
  intros Hs H. unfold range_step.
  assert ((b - a + s - 1) / s <= 0); [|replace (Z.to_nat _) with O by lia; reflexivity].
  assert ((b - a + s - 1) / s < 1); [|lia].
  apply Z.div_lt_upper_bound; lia.
Qed.

Lemma range_step_cons (a b s : Z) :
  0 < s -> a < b -> range_step a b s = a :: range_step (a + s) b s.
Proof.
  intros Hs H. unfold range_step.
  replace (b - a + s - 1) with ((b - (a + s) + s - 1) + 1 * s) by lia.
  rewrite Z.div_add by lia.
  assert (0 <= (b - (a + s) + s - 1) / s) by (apply Z.div_pos; lia).
  rewrite Z2Nat.inj_add by lia.
  change (Z.to_nat 1) with 1%nat. rewrite Nat.add_1_r. cbn [seq map].
  f_equal; [lia|].
  rewrite <- seq_shift, map_map. apply map_ext. intros k. lia.
Qed.

(** ** UDP transfer server *)

Lemma fits_Q (v : Z) : fits FmtQ v = true <-> 0 <= v < u64_max.
Proof.
  unfold fits, u64_max. change (256 ^ Z.of_nat (fmt_width FmtQ)) with (2 ^ 64).
  rewrite andb_true_iff, Z.leb_le, Z.ltb_lt. reflexivity.
Qed.

Lemma pack_payload_header (n i : Z) :
  0 <= n < u64_max -> 0 <= i < u64_max ->
  exists hdr, pack fmt_payload [MAGIC_COOKIE; MTYPE_PAYLOAD; n; i] = Some hdr.
Proof.
  intros Hn Hi. apply fits_Q in Hn, Hi.
  unfold fmt_payload. cbn [pack].
  change (fits FmtI MAGIC_COOKIE) with true. change (fits FmtB MTYPE_PAYLOAD) with true.
  rewrite Hn, Hi. cbn. eauto.
Qed.

Lemma sent_datagrams_app (tr1 tr2 : list action) :
  sent_datagrams (tr1 ++ tr2) = sent_datagrams tr1 ++ sent_datagrams tr2.
Proof. unfold sent_datagrams. apply omap_app. Qed.

Lemma sent_datagrams_Sendto (l : list bytes) : sent_datagrams (map Sendto l) = l.
Proof. induction l as [|d l IH]; [reflexivity|]. cbn. f_equal. exact IH. Qed.

Section UdpServerFacts.

Variable getrandbits8 : nat -> byte.

Lemma generate_segments_spec (S n : Z) (indices : list Z) (drawn : nat) :
  0 <= n < u64_max ->
  Forall (fun i => 0 <= i < u64_max) indices ->
  exists segs,
    generate_segments getrandbits8 S n indices drawn = Some segs /\
    Forall2 (is_segment S n) indices segs.
Proof.
  intros Hn Hall. revert drawn.
  induction Hall as [|i rest Hi _ IH]; intros drawn; cbn [generate_segments].
  - eexists. split; [reflexivity|constructor].
  - destruct (pack_payload_header n i Hn Hi) as [hdr Hhdr]. rewrite Hhdr.
    destruct (IH (drawn + length (random_bytes getrandbits8 drawn
        (Z.min CONST_SIZE (S - i * CONST_SIZE))))%nat) as [segs [-> HF]].
    eexists. split; [reflexivity|]. constructor; [|exact HF].
    exists hdr, (random_bytes getrandbits8 drawn (Z.min CONST_SIZE (S - i * CONST_SIZE))).
    split; [reflexivity|]. split; [exact Hhdr|].
    unfold random_bytes. rewrite length_map, length_seq. lia.
Qed.

Lemma send_burst_ok (segs : list bytes) (a b : Z) (budget : nat) :
  0 <= a -> b <= Z.of_nat (length segs) -> b - a <= Z.of_nat budget ->
  send_burst segs (range a b) budget
  = (map Sendto (take (Z.to_nat (b - a)) (drop (Z.to_nat a) segs)),
     Some (budget - Z.to_nat (b - a))%nat).
Proof.
  intros Ha Hb. remember (Z.to_nat (b - a)) as k eqn:Hk.
  revert a budget Ha Hk. induction k as [|k IH]; intros a budget Ha Hk Hbud.
  - rewrite range_nil by lia. cbn. rewrite Nat.sub_0_r. reflexivity.
  - rewrite range_cons by lia. cbn [send_burst].
    destruct (lookup_lt_is_Some_2 segs (Z.to_nat a)) as [seg Hseg]; [lia|].
    rewrite Hseg. destruct budget as [|budget]; [lia|].
    rewrite (IH (a + 1)) by lia.
    f_equal.
    rewrite (drop_S _ _ _ Hseg). cbn.
    replace (Z.to_nat (a + 1)) with (S (Z.to_nat a)) by lia. reflexivity.
Qed.

Lemma send_bursts_ok (segs : list bytes) (a : Z) (budget : nat) :
  0 <= a ->
  Z.of_nat (length segs) - a <= Z.of_nat budget ->
  exists tr,
    send_bursts segs (Z.of_nat (length segs))
      (range_step a (Z.of_nat (length segs)) burst_limit) budget = (tr, true) /\
    sent_datagrams tr = drop (Z.to_nat a) segs.
Proof.
  set (n := Z.of_nat (length segs)).
  remember (Z.to_nat (n - a)) as k eqn:Hk. revert a budget Hk.
  induction k as [k IH] using lt_wf_ind. intros a budget Hk Ha Hbud.
  destruct (Z_lt_le_dec a n) as [Hlt|Hge].
  - rewrite range_step_cons by (unfold burst_limit; lia). cbn [send_bursts].
    set (b := Z.min (a + burst_limit) n).
    assert (Hb : a < b <= n) by (unfold b, burst_limit; lia).
    rewrite send_burst_ok by (fold n; lia).
    destruct (IH (Z.to_nat (n - (a + burst_limit)))
                 ltac:(unfold burst_limit; lia) (a + burst_limit)
                 (budget - Z.to_nat (b - a))%nat eq_refl)
      as [tr' [Htr' Hsent]]; [unfold burst_limit; lia|unfold b, burst_limit in *; lia|].
    rewrite Htr'. eexists. split; [reflexivity|].
    rewrite sent_datagrams_app.
    change (sent_datagrams (Sleep :: tr')) with (sent_datagrams tr').
    rewrite sent_datagrams_Sendto, Hsent.
    transitivity (take (Z.to_nat (b - a)) (drop (Z.to_nat a) segs)
                  ++ drop (Z.to_nat (b - a)) (drop (Z.to_nat a) segs));
      [|apply take_drop].
    f_equal. rewrite drop_drop.
    destruct (Z_le_gt_dec (a + burst_limit) n) as [Hin|Hout].
    + f_equal. unfold b, burst_limit in *. lia.
    + rewrite !drop_ge; [reflexivity| |]; unfold b, burst_limit, n in *; lia.
  - rewrite range_step_nil by (unfold burst_limit; lia).
    exists []. split; [reflexivity|].
    rewrite drop_ge by (unfold n in *; lia). reflexivity.
Qed.

End UdpServerFacts.

Lemma unpack_request_size (packet : bytes) (c t S : Z) :
  unpack fmt_request packet = Some [c; t; S] -> 0 <= S < u64_max.
Proof.
  intros H. apply pack_unpack in H. unfold fmt_request in H. cbn [pack] in H.
  destruct (fits FmtI c); [|discriminate].
  destruct (fits FmtB t); [|discriminate].
  destruct (fits FmtQ S) eqn:E; [|discriminate].
  apply fits_Q. exact E.
Qed.

(** C1. A valid Request for [S > 0] bytes is answered by exactly
    [ceil(S / 1024)] Payload datagrams; the [i]-th one sent carries the
    header (cookie, PAYLOAD, total, [i]) and [min(1024, S - i*1024)] payload
    bytes, so every segment but the last is full and none is empty.
    The socket is assumed to accept that many sends. *)
Theorem udp_server_segments (getrandbits8 : nat -> byte)
    (S : Z) (packet : bytes) (budget : nat) :
  0 < S ->
  unpack fmt_request packet = Some [MAGIC_COOKIE; MTYPE_REQUEST; S] ->
  (S + 1023) / 1024 <= Z.of_nat budget ->
  let total_segments := (S + 1023) / 1024 in
  exists tr,
    process_udp_connection getrandbits8 packet budget = (tr, Served) /\
    (total_segments - 1) * 1024 < S <= total_segments * 1024 /\
    Z.of_nat (length (sent_datagrams tr)) = total_segments /\
    forall i, 0 <= i < total_segments ->
      exists header payload,
        sent_datagrams tr !! Z.to_nat i = Some (header ++ payload) /\
        unpack fmt_payload header
          = Some [MAGIC_COOKIE; MTYPE_PAYLOAD; total_segments; i] /\
        Z.of_nat (length payload) = Z.min 1024 (S - i * 1024) /\
        0 < Z.of_nat (length payload) /\
        (i < total_segments - 1 -> Z.of_nat (length payload) = 1024).
Proof.
  intros HS Hreq Hbud n.
  pose proof (unpack_request_size _ _ _ _ Hreq) as HS64. unfold u64_max in HS64.
  assert (Hceil : (n - 1) * 1024 < S <= n * 1024).
  { unfold n. pose proof (Z.div_mod (S + 1023) 1024 ltac:(lia)) as Hdm.
    pose proof (Z.mod_pos_bound (S + 1023) 1024 ltac:(lia)). lia. }
  assert (Hn : 0 <= n < u64_max) by (unfold u64_max; lia).
  unfold process_udp_connection. rewrite Hreq.
  rewrite !Z.eqb_refl. cbn [negb orb].
  replace ((S + CONST_SIZE - 1) / CONST_SIZE) with n
    by (unfold n, CONST_SIZE; f_equal; lia).
  destruct (generate_segments_spec getrandbits8 S n (range 0 n) 0 Hn) as [segs [Hgen HF]].
  { apply Forall_forall. intros i Hi. apply list_elem_of_lookup in Hi.
    destruct Hi as [k Hk]. pose proof (lookup_lt_Some _ _ _ Hk) as Hlt.
    rewrite length_range in Hlt. rewrite lookup_range in Hk by lia.
    injection Hk as <-. unfold u64_max. lia. }
  rewrite Hgen.
  assert (Hlen : Z.of_nat (length segs) = n).
  { rewrite <- (Forall2_length _ _ _ HF), length_range. lia. }
  destruct (send_bursts_ok segs 0 budget ltac:(lia) ltac:(lia)) as [tr [Htr Hsent]].
  rewrite Hlen in Htr. rewrite Htr. exists tr.
  change (Z.to_nat 0) with O in Hsent. rewrite drop_0 in Hsent. rewrite Hsent.
  split; [reflexivity|]. split; [exact Hceil|]. split; [exact Hlen|].
  intros i Hi.
  assert (Hidx : range 0 n !! Z.to_nat i = Some i).
  { rewrite lookup_range by lia. f_equal. lia. }
  destruct (Forall2_lookup_l _ _ _ _ _ HF Hidx) as [seg [Hseg (hdr & pl & -> & Hhdr & Hpl)]].
  exists hdr, pl. split; [exact Hseg|]. split; [apply unpack_pack; exact Hhdr|].
  unfold CONST_SIZE in Hpl. lia.
Qed.

Lemma udp_server_segments_witness :
  exists tr,
    process_udp_connection (fun _ => Byte.x2a)
      (be_encode 4 MAGIC_COOKIE ++ be_encode 1 MTYPE_REQUEST ++ be_encode 8 1025) 2
      = (tr, Served) /\
    map length (sent_datagrams tr) = [1045; 22]%nat.
Proof.
  destruct (udp_server_segments (fun _ => Byte.x2a) 1025
              (be_encode 4 MAGIC_COOKIE ++ be_encode 1 MTYPE_REQUEST ++ be_encode 8 1025) 2
              ltac:(lia) ltac:(vm_compute; reflexivity) ltac:(vm_compute; discriminate))
    as [tr [Htr _]].
  exists tr. split; [exact Htr|].
  vm_compute in Htr. injection Htr as <-. vm_compute. reflexivity.
Defined.

(** ** Python text *)

Lemma digit_value_ascii (tbl : Z -> option Z) (c : Z) :
  is_ascii_digit c -> digit_value tbl c = Some (c - chr_zero).
Proof.
  intros H. unfold digit_value, between, is_ascii_digit in *.
  replace (c <? 128) with true by (symmetry; apply Z.ltb_lt; lia).
  replace (48 <=? c) with true by (symmetry; apply Z.leb_le; lia).
  replace (c <=? 57) with true by (symmetry; apply Z.leb_le; lia).
  reflexivity.
Qed.

Lemma digit_not_space (c : Z) : is_ascii_digit c -> Py_UNICODE_ISSPACE c = false.
Proof.
  unfold is_ascii_digit, Py_UNICODE_ISSPACE, between. intros H.
  repeat match goal with
  | |- context [?a <=? ?b] => destruct (Z.leb_spec a b); try lia
  | |- context [?a =? ?b] => destruct (Z.eqb_spec a b); try lia
  end; reflexivity.
Qed.

Lemma digit_not_int_space (c : Z) : is_ascii_digit c -> int_space c = false.
Proof.
  unfold is_ascii_digit, int_space, Py_ISSPACE, between. intros H.
  replace (c <? 128) with true by (symmetry; apply Z.ltb_lt; lia).
  repeat match goal with
  | |- context [?a <=? ?b] => destruct (Z.leb_spec a b); try lia
  | |- context [?a =? ?b] => destruct (Z.eqb_spec a b); try lia
  end; reflexivity.
Qed.

Lemma scan_digits_all (tbl : Z -> option Z) (ds : str) (acc : Z) :
  Forall is_ascii_digit ds ->
  scan_digits tbl ds false acc = Some (digits_value ds acc, []).
Proof.
  intros H. revert acc. induction H as [|c ds Hc _ IH]; intros acc; [reflexivity|].
  cbn [scan_digits]. rewrite (digit_value_ascii tbl c Hc).
  replace (c =? chr_underscore) with false
    by (symmetry; apply Z.eqb_neq; unfold is_ascii_digit, chr_underscore in *; lia).
  rewrite IH. reflexivity.
Qed.

Lemma py_int_digits (tbl : Z -> option Z) (ds : str) :
  ds <> [] -> Forall is_ascii_digit ds ->
  py_int tbl ds = Some (digits_value ds 0).
Proof.
  intros Hne H. destruct ds as [|c ds]; [congruence|].
  pose proof (Forall_inv H) as Hc.
  unfold py_int. cbn [skip_int_space]. rewrite (digit_not_int_space c Hc).
  replace (c =? chr_plus) with false
    by (symmetry; apply Z.eqb_neq; unfold is_ascii_digit, chr_plus in *; lia).
  replace (c =? chr_minus) with false
    by (symmetry; apply Z.eqb_neq; unfold is_ascii_digit, chr_minus in *; lia).
  rewrite (digit_value_ascii tbl c Hc), (scan_digits_all tbl _ 0 H).
  cbn [skip_int_space]. f_equal. lia.
Qed.

Lemma str_digits_digits (fuel : nat) (n : Z) (acc : str) :
  0 <= n -> Forall is_ascii_digit acc -> Forall is_ascii_digit (str_digits fuel n acc).
Proof.
  revert n acc. induction fuel as [|fuel IH]; intros n acc Hn Hacc; [exact Hacc|].
  cbn [str_digits].
  assert (Hd : Forall is_ascii_digit ((chr_zero + n mod 10) :: acc)).
  { constructor; [|exact Hacc]. unfold is_ascii_digit, chr_zero.
    pose proof (Z.mod_pos_bound n 10 ltac:(lia)). lia. }
  destruct (n <? 10); [exact Hd|]. apply IH; [|exact Hd].
  apply Z.div_pos; lia.
Qed.

Lemma str_digits_nonempty (fuel : nat) (n : Z) (acc : str) :
  str_digits (S fuel) n acc <> [].
Proof.
  revert n acc. induction fuel as [|fuel IH]; intros n acc.
  - cbn. destruct (n <? 10); discriminate.
  - cbn [str_digits]. destruct (n <? 10); [discriminate|].
    apply (IH (n / 10)).
Qed.

Lemma digits_value_str_digits (fuel : nat) (n : Z) (acc : str) (a : Z) :
  0 <= n < 10 ^ Z.of_nat fuel ->
  exists k, 0 <= k /\
    digits_value (str_digits fuel n acc) a = digits_value acc (a * 10 ^ k + n).
Proof.
  revert n acc a. induction fuel as [|fuel IH]; intros n acc a Hn.
  - exists 0. split; [lia|]. cbn. f_equal. change (10 ^ 0) with 1 in *. lia.
  - cbn [str_digits]. destruct (Z.ltb_spec n 10) as [Hlt|Hge].
    + exists 1. split; [lia|]. cbn [digits_value fold_left]. f_equal.
      rewrite Z.mod_small by lia. unfold chr_zero. lia.
    + destruct (IH (n / 10) ((chr_zero + n mod 10) :: acc) a) as [k [Hk Hv]].
      { split; [apply Z.div_pos; lia|].
        apply Z.div_lt_upper_bound; [lia|].
        rewrite Nat2Z.inj_succ, Z.pow_succ_r in Hn by lia. lia. }
      exists (k + 1). split; [lia|]. rewrite Hv.
      cbn [digits_value fold_left]. f_equal.
      rewrite Z.pow_add_r by lia. change (10 ^ 1) with 10.
      pose proof (Z.div_mod n 10 ltac:(lia)). unfold chr_zero. lia.
Qed.

Lemma log2_fuel (n : Z) : 0 <= n -> 0 <= n < 10 ^ Z.of_nat (S (Z.to_nat (Z.log2 n))).
Proof.
  intros Hn. split; [exact Hn|].
  pose proof (Z.log2_nonneg n) as Hl.
  rewrite Nat2Z.inj_succ, Z2Nat.id by lia.
  destruct (Z.eq_dec n 0) as [->|Hnz]; [cbn; lia|].
  pose proof (Z.log2_spec n ltac:(lia)) as [_ Hub].
  eapply Z.lt_le_trans; [exact Hub|].
  apply Z.pow_le_mono_l. lia.
Qed.

Lemma py_int_py_str (tbl : Z -> option Z) (n : Z) :
  0 <= n -> py_int tbl (py_str n) = Some n.
Proof.
  intros Hn. unfold py_str.
  replace (n <? 0) with false by (symmetry; apply Z.ltb_ge; lia).
  rewrite py_int_digits.
  - destruct (digits_value_str_digits _ n [] 0 (log2_fuel n Hn)) as [k [_ ->]].
    reflexivity.
  - apply str_digits_nonempty.
  - apply str_digits_digits; [exact Hn|constructor].
Qed.

Lemma decode_encode_ascii (s : str) :
  Forall (fun c => 0 <= c < 128) s -> decode (encode_ascii s) = Some s.
Proof.
  induction 1 as [|c s Hc _ IH]; [reflexivity|].
  cbn [encode_ascii map decode]. rewrite Z_of_byte_of_Z, Z.mod_small by lia.
  replace (c <? 128) with true by (symmetry; apply Z.ltb_lt; lia).
  fold (encode_ascii s). rewrite IH. reflexivity.
Qed.

Lemma lstrip_digits (ds : str) : Forall is_ascii_digit ds -> lstrip ds = ds.
Proof.
  intros H. destruct H as [|c ds Hc _]; [reflexivity|].
  cbn [lstrip]. rewrite (digit_not_space c Hc). reflexivity.
Qed.

Lemma strip_line (ds : str) :
  ds <> [] -> Forall is_ascii_digit ds -> strip (ds ++ [chr_newline]) = ds.
Proof.
  intros Hne H. unfold strip.
  replace (lstrip (ds ++ [chr_newline])) with (ds ++ [chr_newline]).
  - rewrite rev_app_distr. cbn [rev app lstrip].
    change (Py_UNICODE_ISSPACE chr_newline) with true. cbn iota.
    rewrite lstrip_digits by (apply Forall_rev; exact H).
    apply rev_involutive.
  - destruct H as [|c ds Hc _]; [congruence|].
    cbn [app lstrip]. rewrite (digit_not_space c Hc). reflexivity.
Qed.

Lemma length_str_digits (fuel : nat) (n : Z) (acc : str) :
  (length (str_digits fuel n acc) <= fuel + length acc)%nat.
Proof.
  revert n acc. induction fuel as [|fuel IH]; intros n acc; [cbn; lia|].
  cbn [str_digits]. destruct (n <? 10); [cbn; lia|].
  etransitivity; [apply IH|]. cbn [length]. lia.
Qed.

Lemma length_request_line (S : Z) :
  0 <= S < 2 ^ 1023 -> Z.of_nat (length (request_line S)) <= CONST_SIZE.
Proof.
  intros HS. unfold request_line, encode_ascii, py_str.
  replace (S <? 0) with false by (symmetry; apply Z.ltb_ge; lia).
  rewrite length_map, length_app. cbn [length].
  pose proof (length_str_digits (Datatypes.S (Z.to_nat (Z.log2 S))) S []) as Hl.
  cbn [length] in Hl.
  assert (Z.log2 S < 1023).
  { destruct (Z.eq_dec S 0) as [->|]; [cbn; lia|].
    apply Z.log2_lt_pow2; lia. }
  pose proof (Z.log2_nonneg S). unfold CONST_SIZE. lia.
Qed.

(** The server reads back the size the client wrote. *)
Lemma request_line_parsed (tbl : Z -> option Z) (S : Z) :
  0 <= S ->
  option_map (fun text => py_int tbl (strip text)) (decode (request_line S))
  = Some (Some S).
Proof.
  intros HS. unfold request_line.
  assert (Hd : Forall is_ascii_digit (py_str S)).
  { unfold py_str. replace (S <? 0) with false by (symmetry; apply Z.ltb_ge; lia).
    apply str_digits_digits; [exact HS|constructor]. }
  assert (Hne : py_str S <> []).
  { unfold py_str. replace (S <? 0) with false by (symmetry; apply Z.ltb_ge; lia).
    apply str_digits_nonempty. }
  rewrite decode_encode_ascii.
  - cbn [option_map]. rewrite strip_line by assumption.
    rewrite py_int_py_str by exact HS. reflexivity.
  - apply Forall_app. split.
    + eapply Forall_impl; [exact Hd|]. unfold is_ascii_digit. intros c Hc. cbn beta. lia.
    + constructor; [unfold chr_newline; lia|constructor].
Qed.

(** ** TCP transfer server and client *)

Lemma chunks_needed_step (m : Z) :
  0 < m -> chunks_needed (m - Z.min chunk_size m) = chunks_needed m - 1.
Proof.
  intros Hm. unfold chunks_needed, chunk_size, CONST_SIZE.
  change (1024 * 8) with 8192.
  destruct (Z_le_gt_dec 8192 m) as [Hbig|Hsmall].
  - rewrite Z.min_l by lia. rewrite !Z.max_r by lia.
    replace (m + 8191) with (m - 8192 + 8191 + 1 * 8192) by lia.
    rewrite Z.div_add by lia. lia.
  - rewrite Z.min_r by lia. rewrite Z.sub_diag.
    rewrite (Z.max_r 0 m) by lia.
    replace (m + 8191) with ((m - 1) + 1 * 8192) by lia.
    rewrite Z.div_add by lia. rewrite (Z.div_small (m - 1)) by lia.
    reflexivity.
Qed.

Lemma chunks_needed_nonneg (m : Z) : 0 <= chunks_needed m.
Proof. unfold chunks_needed. apply Z.div_pos; lia. Qed.

Lemma chunks_needed_pos (m : Z) : 0 < m -> 0 < chunks_needed m.
Proof.
  intros H. pose proof (chunks_needed_step m H). pose proof (chunks_needed_nonneg (m - Z.min chunk_size m)). lia.
Qed.

Section TcpFacts.

Variable getrandbits8 : nat -> byte.
Variable unicode_todecimal : Z -> option Z.
Variable segmentation : nat -> nat.

Lemma send_chunks_complete (fuel : nat) (total b : Z) (drawn budget : nat) :
  chunks_needed (total - b) < Z.of_nat fuel ->
  chunks_needed (total - b) <= Z.of_nat budget ->
  exists chunks,
    send_chunks getrandbits8 fuel total b drawn budget
      = Some (map Sendall chunks, TcpCompleted) /\
    Forall good_chunk chunks /\
    Z.of_nat (length (concat chunks)) = Z.max 0 (total - b).
Proof.
  revert b drawn budget. induction fuel as [|fuel IH]; intros b drawn budget Hf Hb.
  - pose proof (chunks_needed_nonneg (total - b)). lia.
  - cbn [send_chunks]. destruct (Z.ltb_spec b total) as [Hlt|Hge].
    + pose proof (chunks_needed_step (total - b) ltac:(lia)) as Hstep.
      pose proof (chunks_needed_pos (total - b) ltac:(lia)) as Hpos.
      destruct budget as [|budget]; [lia|].
      set (cur := Z.min chunk_size (total - b)) in *.
      destruct (IH (b + cur) (drawn + length (random_bytes getrandbits8 drawn cur))%nat budget)
        as [chunks [Hrun [Hgood Hlen]]].
      { replace (total - (b + cur)) with (total - b - cur) by lia. lia. }
      { replace (total - (b + cur)) with (total - b - cur) by lia. lia. }
      rewrite Hrun. exists (random_bytes getrandbits8 drawn cur :: chunks).
      assert (Hcur : 0 < cur <= 8192) by (unfold cur, chunk_size, CONST_SIZE; lia).
      assert (Hrl : length (random_bytes getrandbits8 drawn cur) = Z.to_nat cur)
        by (unfold random_bytes; rewrite length_map, length_seq; reflexivity).
      split; [reflexivity|]. split.
      * constructor; [unfold good_chunk; lia|exact Hgood].
      * cbn [concat]. rewrite length_app, Nat2Z.inj_add, Hlen, Hrl.
        unfold cur, chunk_size, CONST_SIZE in *. lia.
    + exists []. split; [reflexivity|]. split; [constructor|]. cbn. lia.
Qed.

Lemma send_chunks_fuel_mono (fuel fuel' : nat) (total b : Z) (drawn budget : nat)
    (r : list tcp_action * tcp_end) :
  (fuel <= fuel')%nat ->
  send_chunks getrandbits8 fuel total b drawn budget = Some r ->
  send_chunks getrandbits8 fuel' total b drawn budget = Some r.
Proof.
  revert fuel' b drawn budget r.
  induction fuel as [|fuel IH]; intros fuel' b drawn budget r Hle; [discriminate|].
  destruct fuel' as [|fuel']; [lia|].
  cbn [send_chunks]. destruct (b <? total); [|trivial].
  destruct budget as [|budget]; [trivial|].
  destruct (send_chunks getrandbits8 fuel total _ _ budget) as [[tr e]|] eqn:E; [|discriminate].
  rewrite (IH fuel' _ _ _ _ ltac:(lia) E). trivial.
Qed.

Lemma tcp_receive_total (fuel : nat) (file_size : Z) (stream : bytes)
    (calls : nat) (r : Z) :
  r <= file_size ->
  Z.min (file_size - r) (Z.of_nat (length stream)) < Z.of_nat fuel ->
  tcp_receive segmentation fuel file_size stream calls r
  = Some (Z.min file_size (r + Z.of_nat (length stream))).
Proof.
  revert stream calls r. induction fuel as [|fuel IH]; intros stream calls r Hr Hf.
  - lia.
  - cbn [tcp_receive]. destruct (Z.ltb_spec r file_size) as [Hlt|Hge].
    + destruct stream as [|x xs].
      * rewrite take_nil. f_equal. cbn [length]. lia.
      * set (bufsize := Z.min chunk_size (file_size - r)).
        assert (Hbuf : 0 < bufsize <= file_size - r)
          by (unfold bufsize, chunk_size, CONST_SIZE; lia).
        destruct (Nat.min (Z.to_nat bufsize) (S (segmentation calls))) as [|m] eqn:Em; [lia|].
        cbn [take]. cbn [length drop].
        rewrite IH.
        -- f_equal. rewrite length_drop, length_take. cbn [length]. lia.
        -- rewrite length_take. lia.
        -- rewrite length_drop, length_take. cbn [length] in *. lia.
    + f_equal. lia.
Qed.

End TcpFacts.

(** C2, amended. When the request line reaches the server's one [recv] in
    one piece, which takes a line of at most 1024 bytes, and every [sendall]
    succeeds, a client asking for [S >= 0] bytes makes the server send
    exactly [S] bytes, in chunks of at most 8192 bytes, and the client's
    receive loop, however the network cuts the stream into reads, ends with
    [bytes_received = S]. *)
Theorem tcp_transfer_exact (getrandbits8 : nat -> byte)
    (unicode_todecimal : Z -> option Z) (segmentation : nat -> nat)
    (S : Z) (budget : nat) :
  0 <= S ->
  Z.of_nat (length (request_line S)) <= CONST_SIZE ->
  (S + 8191) / 8192 <= Z.of_nat budget ->
  exists chunks,
    (exists fuel0, forall fuel, (fuel0 <= fuel)%nat ->
       process_tcp_connection getrandbits8 unicode_todecimal fuel
         (recv_once CONST_SIZE (request_line S)) budget
       = Some (map Sendall chunks ++ [Close], TcpCompleted)) /\
    Z.of_nat (length (concat chunks)) = S /\
    Forall (fun c => 0 < Z.of_nat (length c) <= 8192) chunks /\
    (exists fuel0, forall fuel, (fuel0 <= fuel)%nat ->
       tcp_receive segmentation fuel S (concat chunks) 0 0 = Some S /\
       forall t_start t_end,
         manage_tcp_connection segmentation fuel S (concat chunks) t_start t_end
         = Some (tcp_report S t_start t_end)).
Proof.
  intros HS Hline Hbud.
  assert (Hneed : chunks_needed (S - 0) = (S + 8191) / 8192).
  { unfold chunks_needed. rewrite Z.sub_0_r, Z.max_r by lia. reflexivity. }
  set (f0 := Datatypes.S (Z.to_nat (chunks_needed (S - 0)))).
  pose proof (chunks_needed_nonneg (S - 0)) as Hnn.
  destruct (send_chunks_complete getrandbits8 f0 S 0 0 budget) as [chunks [Hrun [Hgood Hlen]]];
    [unfold f0; lia|lia|].
  exists chunks. split; [|split; [lia|split; [exact Hgood|]]].
  - exists f0. intros fuel Hfuel.
    pose proof (send_chunks_fuel_mono getrandbits8 _ fuel _ _ _ _ _ Hfuel Hrun) as Hrun'.
    unfold process_tcp_connection, tcp_session_body, recv_once.
    rewrite take_ge by lia.
    pose proof (request_line_parsed unicode_todecimal S HS) as Hparse.
    destruct (decode (request_line S)) as [text|]; [|discriminate].
    cbn [option_map] in Hparse. injection Hparse as ->.
    rewrite Hrun'. reflexivity.
  - exists (Datatypes.S (Z.to_nat S)). intros fuel Hfuel.
    assert (Hrecv : tcp_receive segmentation fuel S (concat chunks) 0 0 = Some S)
      by (rewrite tcp_receive_total by lia; f_equal; lia).
    split; [exact Hrecv|]. intros t_start t_end.
    unfold manage_tcp_connection. rewrite Hrecv. reflexivity.
Qed.

(** C2 as stated fails: nothing is lost, but the five bytes of the request
    line for 5000 reach the server in two pieces, [50] and then [00] with the
    newline. The server's one [recv] returns the first piece, [int] reads 50,
    the server sends 50 bytes and closes, and the client's loop ends with
    [bytes_received = 50]. *)
Lemma tcp_request_split_across_reads :
  request_line 5000 = take 2 (request_line 5000) ++ drop 2 (request_line 5000) /\
  take 2 (request_line 5000) = [Byte.x35; Byte.x30] /\
  process_tcp_connection (fun _ => Byte.x00) (fun _ => None) 2
    (recv_once CONST_SIZE (take 2 (request_line 5000))) 1
  = Some (map Sendall [repeat Byte.x00 50] ++ [Close], TcpCompleted) /\
  tcp_receive (fun _ => 99%nat) 2 5000 (concat [repeat Byte.x00 50]) 0 0 = Some 50 /\
  50 <> 5000.
Proof. repeat split; try (vm_compute; reflexivity). discriminate. Qed.

(** ** The integer parser against the grammar of literals *)

Section PyIntFacts.

Variable tbl : Z -> option Z.

Lemma digit_value_not_space (c d : Z) :
  digit_value tbl c = Some d -> int_space c = false.
Proof.
  unfold digit_value, int_space, Py_ISSPACE, between.
  destruct (c <? 128).
  - destruct (Z.leb_spec 48 c), (Z.leb_spec c 57); cbn; try discriminate. intros _.
    repeat match goal with
    | |- context [?a <=? ?b] => destruct (Z.leb_spec a b); try lia
    | |- context [?a =? ?b] => destruct (Z.eqb_spec a b); try lia
    end; reflexivity.
  - destruct (Py_UNICODE_ISSPACE c); [discriminate|reflexivity].
Qed.

Lemma digit_value_not_mark (c d : Z) :
  digit_value tbl c = Some d ->
  c <> chr_underscore /\ c <> chr_plus /\ c <> chr_minus.
Proof.
  unfold digit_value, between, chr_underscore, chr_plus, chr_minus.
  destruct (Z.ltb_spec c 128).
  - destruct (Z.leb_spec 48 c), (Z.leb_spec c 57); cbn; try discriminate. lia.
  - lia.
Qed.

Lemma int_space_not_mark (c : Z) :
  int_space c = true ->
  c <> chr_underscore /\ c <> chr_plus /\ c <> chr_minus /\ digit_value tbl c = None.
Proof.
  intros Hs.
  assert (Hd : digit_value tbl c = None).
  { destruct (digit_value tbl c) as [d|] eqn:Ed; [|reflexivity].
    apply digit_value_not_space in Ed. congruence. }
  repeat split; try exact Hd; intros ->; revert Hs; vm_compute; discriminate.
Qed.

Lemma skip_int_space_split (s : str) :
  exists ws, s = ws ++ skip_int_space s /\ Forall (fun c => int_space c = true) ws.
Proof.
  induction s as [|c s [ws [Hs Hws]]].
  - exists []. split; [reflexivity|constructor].
  - cbn [skip_int_space]. destruct (int_space c) eqn:Ec.
    + exists (c :: ws). split; [cbn; congruence|constructor; assumption].
    + exists []. split; [reflexivity|constructor].
Qed.

Lemma skip_int_space_nil (s : str) :
  skip_int_space s = [] <-> Forall (fun c => int_space c = true) s.
Proof.
  induction s as [|c s IH]; cbn [skip_int_space].
  - split; [constructor|reflexivity].
  - destruct (int_space c) eqn:Ec.
    + rewrite IH. split; [intros H; constructor; assumption|intros H; exact (Forall_inv_tail H)].
    + split; [discriminate|]. intros H. apply Forall_inv in H. congruence.
Qed.

Lemma skip_int_space_app (ws s : str) :
  Forall (fun c => int_space c = true) ws ->
  skip_int_space (ws ++ s) = skip_int_space s.
Proof.
  induction 1 as [|c ws Hc _ IH]; [reflexivity|].
  cbn [app skip_int_space]. rewrite Hc. exact IH.
Qed.

(** What the scan has read is a tail of the grammar. *)
Lemma scan_digits_sound (s : str) (prev : bool) (acc v : Z) (rest : str) :
  scan_digits tbl s prev acc = Some (v, rest) ->
  exists t, s = t ++ rest /\
    int_tail tbl (if prev then chr_underscore :: t else t) acc v.
Proof.
  revert prev acc. induction s as [|c s IH]; intros prev acc; cbn [scan_digits].
  - destruct prev; [discriminate|]. intros [= <- <-].
    exists []. split; [reflexivity|constructor].
  - destruct (Z.eqb_spec c chr_underscore) as [->|Hc].
    + destruct prev; [discriminate|]. intros H.
      destruct (IH _ _ H) as [t [-> Ht]].
      exists (chr_underscore :: t). split; [reflexivity|exact Ht].
    + destruct (digit_value tbl c) as [d|] eqn:Ed.
      * intros H. destruct (IH _ _ H) as [t [-> Ht]]. cbn iota in Ht.
        exists (c :: t). split; [reflexivity|].
        destruct prev; econstructor; eassumption.
      * destruct prev; [discriminate|]. intros [= <- <-].
        exists []. split; [reflexivity|constructor].
Qed.

(** Conversely the scan reads a whole tail of the grammar, up to blanks or
    the end. *)
Lemma scan_digits_complete (t : str) (acc v : Z) (ws : str) :
  int_tail tbl t acc v ->
  Forall (fun c => int_space c = true) ws ->
  scan_digits tbl (t ++ ws) false acc = Some (v, ws).
Proof.
  intros Ht Hws. induction Ht as [acc|c d t acc v Hd _ IH|c d t acc v Hd _ IH].
  - cbn [app]. destruct Hws as [|w ws Hw Hws]; [reflexivity|].
    cbn [scan_digits]. destruct (int_space_not_mark w Hw) as (Hu & _ & _ & Hnd).
    rewrite Hnd. apply Z.eqb_neq in Hu. rewrite Hu. reflexivity.
  - cbn [app scan_digits]. destruct (digit_value_not_mark c d Hd) as (Hu & _).
    apply Z.eqb_neq in Hu. rewrite Hu, Hd. exact IH.
  - cbn [app scan_digits]. rewrite Z.eqb_refl.
    destruct (digit_value_not_mark c d Hd) as (Hu & _).
    apply Z.eqb_neq in Hu. rewrite Hu, Hd. exact IH.
Qed.

Theorem py_int_sound (s : str) (z : Z) : py_int tbl s = Some z -> int_literal tbl s z.
Proof.
  unfold py_int. destruct (skip_int_space_split s) as [ws1 [Hs Hws1]].
  remember (skip_int_space s) as s1 eqn:Es1. clear Es1.
  assert (Hbody : forall sgn sign s2,
    s1 = sgn ++ s2 ->
    ((sgn = [] \/ sgn = [chr_plus]) /\ sign = 1 \/ sgn = [chr_minus] /\ sign = -1) ->
    match s2 with
    | [] => None
    | c :: _ =>
        match digit_value tbl c with
        | Some _ =>
            match scan_digits tbl s2 false 0 with
            | Some (v, rest) =>
                match skip_int_space rest with [] => Some (sign * v) | _ => None end
            | None => None
            end
        | None => None
        end
    end = Some z -> int_literal tbl s z).
  { intros sgn sign s2 Hs1 Hsgn. destruct s2 as [|c s2]; [discriminate|].
    destruct (digit_value tbl c) as [d|] eqn:Ed; [|discriminate].
    destruct (scan_digits tbl (c :: s2) false 0) as [[v rest]|] eqn:Escan; [|discriminate].
    destruct (skip_int_space rest) eqn:Erest; [|discriminate].
    intros [= <-]. apply skip_int_space_nil in Erest.
    destruct (scan_digits_sound _ _ _ _ _ Escan) as [t [Ht Htail]]. cbn iota in Htail.
    exists ws1, sgn, t, rest, v. rewrite Hs, Hs1, Ht.
    split; [reflexivity|]. split; [exact Hws1|]. split; [exact Erest|]. split.
    - destruct t as [|c' t'].
      + cbn [app] in Ht. subst rest. apply Forall_inv in Erest.
        apply digit_value_not_space in Ed. congruence.
      + cbn [app] in Ht. injection Ht as <- _.
        destruct (digit_value_not_mark c d Ed) as (Hu & _).
        inversion Htail; subst; [|congruence].
        exists c, d, t'. split; [reflexivity|]. split; [assumption|].
        match goal with H : digit_value tbl c = Some _ |- _ => rewrite Ed in H; injection H as <- end.
        assumption.
    - destruct Hsgn as [[Hsg ->]|[Hsg ->]]; [left|right]; split; try assumption; lia. }
  destruct s1 as [|c r].
  - intros H. discriminate.
  - destruct (Z.eqb_spec c chr_plus) as [->|Hp].
    + apply (Hbody [chr_plus] 1 r); [reflexivity|]. left. split; [right|]; reflexivity.
    + destruct (Z.eqb_spec c chr_minus) as [->|Hm].
      * apply (Hbody [chr_minus] (-1) r); [reflexivity|]. right. split; reflexivity.
      * apply (Hbody [] 1 (c :: r)); [reflexivity|]. left. split; [left|]; reflexivity.
Qed.

Lemma py_int_body (sign : Z) (body ws2 : str) (v : Z) :
  int_body tbl body v ->
  Forall (fun c => int_space c = true) ws2 ->
  match body ++ ws2 with
  | [] => None
  | c :: _ =>
      match digit_value tbl c with
      | Some _ =>
          match scan_digits tbl (body ++ ws2) false 0 with
          | Some (v, rest) =>
              match skip_int_space rest with [] => Some (sign * v) | _ => None end
          | None => None
          end
      | None => None
      end
  end = Some (sign * v).
Proof.
  intros (c & d & t & -> & Hd & Ht) Hws. cbn [app]. rewrite Hd.
  cbn [scan_digits]. destruct (digit_value_not_mark c d Hd) as (Hu & _).
  apply Z.eqb_neq in Hu. rewrite Hu, Hd.
  change (0 * 10 + d) with d.
  rewrite (scan_digits_complete t d v ws2 Ht Hws).
  apply skip_int_space_nil in Hws. rewrite Hws. reflexivity.
Qed.

Theorem py_int_complete (s : str) (z : Z) : int_literal tbl s z -> py_int tbl s = Some z.
Proof.
  intros (ws1 & sgn & body & ws2 & v & -> & Hws1 & Hws2 & Hbody & Hsgn).
  unfold py_int. rewrite skip_int_space_app by exact Hws1.
  pose proof (py_int_body 1 body ws2 v Hbody Hws2) as Hpos.
  pose proof (py_int_body (-1) body ws2 v Hbody Hws2) as Hneg.
  destruct Hsgn as [[[->| ->] ->]|[-> ->]].
  - destruct Hbody as (c & d & t & -> & Hd & Ht). cbn [app] in *.
    cbn [skip_int_space]. rewrite (digit_value_not_space c d Hd).
    destruct (digit_value_not_mark c d Hd) as (_ & Hp & Hm).
    apply Z.eqb_neq in Hp, Hm. rewrite Hp, Hm.
    rewrite Hpos. f_equal; lia.
  - cbn [app skip_int_space]. change (int_space chr_plus) with false. cbn iota.
    rewrite Z.eqb_refl. rewrite Hpos. f_equal. lia.
  - cbn [app skip_int_space]. change (int_space chr_minus) with false. cbn iota.
    change (chr_minus =? chr_plus) with false. cbn iota. rewrite Z.eqb_refl.
    rewrite Hneg. f_equal; lia.
Qed.

Corollary py_int_None (s : str) : py_int tbl s = None <-> forall z, ~ int_literal tbl s z.
Proof.
  split.
  - intros Hn z Hz. apply py_int_complete in Hz. congruence.
  - intros H. destruct (py_int tbl s) as [z|] eqn:E; [|reflexivity].
    exfalso. exact (H z (py_int_sound s z E)).
Qed.

End PyIntFacts.

(** ** Invalid TCP requests *)

Lemma send_chunks_terminates (getrandbits8 : nat -> byte) (fuel : nat)
    (total b : Z) (drawn budget : nat) :
  chunks_needed (total - b) < Z.of_nat fuel ->
  exists chunks e,
    send_chunks getrandbits8 fuel total b drawn budget = Some (map Sendall chunks, e) /\
    (e = TcpCompleted \/ e = TcpSendFailed) /\
    (total <= b -> chunks = [] /\ e = TcpCompleted).
Proof.
  revert b drawn budget. induction fuel as [|fuel IH]; intros b drawn budget Hf.
  - pose proof (chunks_needed_nonneg (total - b)). lia.
  - cbn [send_chunks]. destruct (Z.ltb_spec b total) as [Hlt|Hge].
    + destruct budget as [|budget].
      * exists [], TcpSendFailed. split; [reflexivity|]. split; [right; reflexivity|lia].
      * pose proof (chunks_needed_step (total - b) ltac:(lia)) as Hstep.
        set (cur := Z.min chunk_size (total - b)) in *.
        destruct (IH (b + cur) (drawn + length (random_bytes getrandbits8 drawn cur))%nat budget)
          as (chunks & e & Hrun & He & _).
        { replace (total - (b + cur)) with (total - b - cur) by lia. lia. }
        rewrite Hrun. exists (random_bytes getrandbits8 drawn cur :: chunks), e.
        split; [reflexivity|]. split; [exact He|lia].
    + exists [], TcpCompleted. split; [reflexivity|]. split; [left; reflexivity|].
      intros _. split; reflexivity.
Qed.

(** C6, as the code has it. The handler converts the stripped text with
    [int]; it ends with InvalidRequest exactly when the bytes are not the
    text of an integer literal, and then nothing was sent. A literal for zero
    or for a negative number is converted, the loop does not run, and the
    handler ends normally having sent nothing. On every path the trace ends
    with the one [Close]. *)
Theorem tcp_invalid_request (getrandbits8 : nat -> byte) (tbl : Z -> option Z)
    (received : recv_result) (budget : nat) :
  exists fuel0, forall fuel, (fuel0 <= fuel)%nat ->
    exists chunks e,
      process_tcp_connection getrandbits8 tbl fuel received budget
        = Some (map Sendall chunks ++ [Close], e) /\
      (e = TcpInvalidRequest <->
         exists data, received = RecvData data /\ not_integer_request tbl data) /\
      (e = TcpInvalidRequest -> chunks = []) /\
      (forall data text z,
         received = RecvData data -> decode data = Some text ->
         int_literal tbl (strip text) z -> z <= 0 ->
         e = TcpCompleted /\ chunks = []).
Proof.
  unfold process_tcp_connection, tcp_session_body, not_integer_request.
  destruct received as [data|].
  2:{ exists O. intros fuel _. exists [], TcpUnhandled. split; [reflexivity|].
      split; [|split; [discriminate|intros; discriminate]].
      split; [discriminate|]. intros (data & Hd & _). discriminate. }
  destruct (decode data) as [text|] eqn:Edec.
  2:{ exists O. intros fuel _. exists [], TcpInvalidRequest. split; [reflexivity|].
      split; [|split; [reflexivity|intros; congruence]].
      split; [|reflexivity]. intros _. exists data. rewrite Edec. split; [reflexivity|exact I]. }
  destruct (py_int tbl (strip text)) as [total|] eqn:Eint.
  - exists (S (Z.to_nat (chunks_needed (total - 0)))). intros fuel Hfuel.
    pose proof (chunks_needed_nonneg (total - 0)).
    destruct (send_chunks_terminates getrandbits8 fuel total 0 0 budget ltac:(lia))
      as (chunks & e & Hrun & He & Hnone).
    rewrite Hrun. exists chunks, e. split; [reflexivity|].
    split; [|split].
    + split; [destruct He; congruence|].
      intros (data' & [= <-] & Hno). rewrite Edec in Hno.
      exfalso. exact (Hno total (py_int_sound tbl _ _ Eint)).
    + destruct He; congruence.
    + intros data' text' z [= <-] Ht Hlit Hz. rewrite Edec in Ht. injection Ht as <-.
      apply py_int_complete in Hlit. rewrite Eint in Hlit. injection Hlit as ->.
      destruct (Hnone ltac:(lia)) as [-> ->]. split; reflexivity.
  - exists O. intros fuel _. exists [], TcpInvalidRequest. split; [reflexivity|].
    split; [|split; [reflexivity|]].
    + split; [|reflexivity]. intros _. exists data. rewrite Edec.
      split; [reflexivity|]. apply py_int_None. exact Eint.
    + intros data' text' z [= <-] Ht Hlit _. rewrite Edec in Ht. injection Ht as <-.
      apply py_int_complete in Hlit. congruence.
Qed.

(** C6 as stated fails: the request [-5] is no unsigned decimal, yet the
    handler does not end with InvalidRequest; it ends normally. *)
Lemma tcp_negative_size_accepted :
  decode (encode_ascii [chr_minus; 53; chr_newline]) = Some [chr_minus; 53; chr_newline] /\
  ~ unsigned_decimal (strip [chr_minus; 53; chr_newline]) /\
  process_tcp_connection (fun _ => Byte.x00) (fun _ => None) 1
    (RecvData (encode_ascii [chr_minus; 53; chr_newline])) 8
  = Some ([Close], TcpCompleted).
Proof.
  split; [reflexivity|]. split; [|reflexivity].
  intros [_ H].
  change (strip [chr_minus; 53; chr_newline]) with [45; 53] in H.
  apply Forall_inv in H. lia.
Qed.

(** ** UDP transfer client *)

Lemma accepted_indices_app (a b : list udp_event) :
  accepted_indices (a ++ b) = accepted_indices a ∪ accepted_indices b.
Proof. unfold accepted_indices. rewrite omap_app. apply list_to_set_app_L. Qed.

Lemma accepted_indices_cons (ev : udp_event) (evs : list udp_event) :
  accepted_indices (ev :: evs) = accepted_indices [ev] ∪ accepted_indices evs.
Proof. apply (accepted_indices_app [ev] evs). Qed.

Lemma accepted_indices_one (ev : udp_event) :
  accepted_indices [ev]
  = match accepted_index ev with Some i => {[ i ]} | None => ∅ end.
Proof.
  unfold accepted_indices.
  destruct (accepted_index ev) as [i|] eqn:E; cbn; rewrite ?E; cbn.
  - apply union_empty_r_L.
  - reflexivity.
Qed.

Lemma last_total_app (a b : list udp_event) (t : Z) :
  last_total (a ++ b) t = last_total b (last_total a t).
Proof. unfold last_total. apply fold_left_app. Qed.

Lemma dom_record_segment (st : udp_state) (i d : Z) :
  dom (segments_received (record_segment st i d)) = {[ i ]} ∪ dom (segments_received st).
Proof.
  unfold record_segment. destruct (segments_received st !! i) as [x|] eqn:E.
  - assert (i ∈ dom (segments_received st)) by (apply elem_of_dom; eauto). set_solver.
  - cbn. apply dom_insert_L.
Qed.

Lemma total_record_segment (st : udp_state) (i d : Z) :
  total_segments (record_segment st i d) = total_segments st.
Proof. unfold record_segment. destruct (segments_received st !! i); reflexivity. Qed.

(** What one pass does to the set of indices and to [total_segments]. *)
Lemma udp_step_effect (st st' : udp_state) (ev : udp_event) :
  step_state (udp_step st ev) = Some st' ->
  dom (segments_received st') = dom (segments_received st) ∪ accepted_indices [ev] /\
  total_segments st' = last_total [ev] (total_segments st).
Proof.
  rewrite accepted_indices_one. unfold accepted_index, last_total. cbn [fold_left].
  destruct ev as [data t1 t2| |]; cbn [udp_step header_of].
  - destruct (unpack fmt_payload (take header_size data)) as [[|m [|ty [|tot [|cur [|? ?]]]]]|];
      try discriminate.
    unfold is_payload. cbn [snd].
    destruct (m =? MAGIC_COOKIE), (ty =? MTYPE_PAYLOAD); cbn [negb orb andb].
    2-4: intros [= <-]; cbn; split; [set_solver|reflexivity].
    match goal with
    | |- context [record_segment ?s cur ?d] =>
        pose proof (dom_record_segment s cur d) as Hdom;
        pose proof (total_record_segment s cur d) as Htot;
        set (st2 := record_segment s cur d) in *
    end.
    cbn [segments_received total_segments] in Hdom, Htot.
    destruct (_ || _); intros [= <-]; (split; [rewrite Hdom; set_solver|exact Htot]).
  - destruct (decide _); intros [= <-]; (split; [set_solver|reflexivity]).
  - discriminate.
Qed.

Lemma udp_loop_waiting (events : list udp_event) (st0 st : udp_state) :
  udp_receive_loop events st0 = Waiting st ->
  dom (segments_received st) = dom (segments_received st0) ∪ accepted_indices events /\
  total_segments st = last_total events (total_segments st0).
Proof.
  revert st0. induction events as [|ev events IH]; intros st0; cbn [udp_receive_loop].
  - intros [= <-]. split; [set_solver|reflexivity].
  - destruct (udp_step st0 ev) as [st1| |] eqn:Estep; try discriminate.
    intros H. destruct (IH _ H) as [Hd Ht].
    destruct (udp_step_effect st0 st1 ev) as [Hd1 Ht1]; [rewrite Estep; reflexivity|].
    rewrite accepted_indices_cons, (last_total_app [ev] events).
    split; [rewrite Hd, Hd1; set_solver|rewrite Ht, Ht1; reflexivity].
Qed.

Lemma udp_loop_broke (events : list udp_event) (st0 st : udp_state) :
  udp_receive_loop events st0 = Broke st ->
  exists consumed, consumed_prefix events consumed st0 st.
Proof.
  revert st0. induction events as [|ev events IH]; intros st0; cbn [udp_receive_loop];
    [discriminate|].
  destruct (udp_step st0 ev) as [st1|st1|] eqn:Estep; try discriminate.
  - intros H. destruct (IH _ H) as (consumed & pre & ev' & rest & st' & -> & -> & Hpre & Hbrk).
    exists (ev :: pre ++ [ev']), (ev :: pre), ev', rest, st'.
    split; [reflexivity|]. split; [reflexivity|]. split; [|exact Hbrk].
    cbn [udp_receive_loop]. rewrite Estep. exact Hpre.
  - intros [= <-]. exists [ev], [], ev, events, st0.
    split; [reflexivity|]. split; [reflexivity|]. split; [reflexivity|exact Estep].
Qed.

Lemma consumed_prefix_effect (events consumed : list udp_event) (st0 st : udp_state) :
  consumed_prefix events consumed st0 st ->
  dom (segments_received st) = dom (segments_received st0) ∪ accepted_indices consumed /\
  total_segments st = last_total consumed (total_segments st0).
Proof.
  intros (pre & ev & rest & st' & -> & _ & Hpre & Hbrk).
  destruct (udp_loop_waiting _ _ _ Hpre) as [Hd Ht].
  destruct (udp_step_effect st' st ev) as [Hd1 Ht1]; [rewrite Hbrk; reflexivity|].
  rewrite accepted_indices_app, last_total_app.
  split; [rewrite Hd1, Hd; set_solver|rewrite Ht1, Ht; reflexivity].
Qed.

Lemma percent_range (n T : Z) :
  0 <= n -> 0 < T ->
  (0 <= inject_Z n / inject_Z T * 100)%Q /\
  (n <= T <-> (inject_Z n / inject_Z T * 100 <= 100)%Q).
Proof.
  intros Hn HT. destruct T as [|p|p]; try lia.
  unfold Qle, Qdiv, Qmult, Qinv, inject_Z. cbn.
  split; [|split]; nia.
Qed.

Lemma gset_size_bound (X : gset Z) (T : Z) :
  (forall i, i ∈ X -> 0 <= i < T) -> Z.of_nat (size X) <= Z.max 0 T.
Proof.
  intros H.
  assert (Hsub : X ⊆ list_to_set (seqZ 0 T)).
  { intros i Hi. apply elem_of_list_to_set, elem_of_seqZ. specialize (H i Hi). lia. }
  apply subseteq_size in Hsub.
  rewrite size_list_to_set in Hsub by apply NoDup_seqZ.
  rewrite length_seqZ in Hsub. lia.
Qed.

Lemma header_of_range (ev : udp_event) (m ty tot cur : Z) :
  header_of ev = Some (m, ty, tot, cur) ->
  0 <= tot < u64_max /\ 0 <= cur < u64_max.
Proof.
  destruct ev as [data t1 t2| |]; cbn [header_of]; try discriminate.
  destruct (unpack fmt_payload (take header_size data))
    as [[|m' [|ty' [|tot' [|cur' [|? ?]]]]]|] eqn:E; try discriminate.
  intros [= -> -> -> ->]. apply pack_unpack in E.
  unfold fmt_payload in E. cbn [pack] in E.
  destruct (fits FmtI m); [|discriminate].
  destruct (fits FmtB ty); [|discriminate].
  destruct (fits FmtQ tot) eqn:E1; [|discriminate].
  destruct (fits FmtQ cur) eqn:E2; [|discriminate].
  split; apply fits_Q; assumption.
Qed.

Lemma accepted_index_range (ev : udp_event) (i : Z) :
  accepted_index ev = Some i -> 0 <= i < u64_max.
Proof.
  unfold accepted_index. destruct (header_of ev) as [[[[m ty] tot] cur]|] eqn:E; [|discriminate].
  destruct (is_payload _); [|discriminate]. cbn [snd]. intros [= <-].
  apply (header_of_range _ _ _ _ _ E).
Qed.

Lemma accepted_indices_range (events : list udp_event) (i : Z) :
  i ∈ accepted_indices events -> 0 <= i < u64_max.
Proof.
  unfold accepted_indices. rewrite elem_of_list_to_set, list_elem_of_omap.
  intros (ev & _ & Hev). exact (accepted_index_range ev i Hev).
Qed.

Lemma last_total_nonneg (events : list udp_event) (t : Z) :
  0 <= t -> 0 <= last_total events t.
Proof.
  revert t. induction events as [|ev events IH]; intros t Ht; [exact Ht|].
  change (last_total (ev :: events) t) with (last_total ([ev] ++ events) t).
  rewrite last_total_app. apply IH. unfold last_total. cbn [fold_left].
  destruct (header_of ev) as [[[[m ty] tot] cur]|] eqn:E; [|exact Ht].
  apply (header_of_range _ _ _ _ _ E).
Qed.

Lemma last_total_all_accepted (events : list udp_event) (t : Z) :
  (forall ev h, ev ∈ events -> header_of ev = Some h -> is_payload h = true) ->
  last_total events t = last_accepted_total events t.
Proof.
  revert t. induction events as [|ev events IH]; intros t Hall; [reflexivity|].
  unfold last_total, last_accepted_total. cbn [fold_left].
  fold (last_total events). fold (last_accepted_total events).
  destruct (header_of ev) as [[[[m ty] tot] cur]|] eqn:E.
  - rewrite (Hall ev _ (list_elem_of_here _ _) E).
    apply IH. intros ev' h Hin. apply Hall. apply list_elem_of_further. exact Hin.
  - apply IH. intros ev' h Hin. apply Hall. apply list_elem_of_further. exact Hin.
Qed.

(** C3, as the code has it. When a session reports a result, the loop has
    consumed a prefix of what the socket delivered; the percentage is the
    number of distinct indices of the accepted Payload datagrams in it,
    divided by [total_segments] as it stands when the loop is left, times
    100. It is never negative, and it is at most 100 exactly when that number
    does not exceed that total, in particular when every accepted index lies
    below it. When every datagram consumed is an accepted Payload, that total
    is the one the last of them announced. *)
Theorem udp_completion_percentage (S : Z) (events : list udp_event)
    (t_start t_init t_end tt sp pct : Q) :
  manage_udp_connection S events t_start t_init t_end = UdpResult tt sp pct ->
  exists consumed st,
    consumed_prefix events consumed (udp_initial S t_init) st /\
    let n := Z.of_nat (size (accepted_indices consumed)) in
    let T := total_segments st in
    0 < T /\
    (pct == inject_Z n / inject_Z T * 100)%Q /\
    (0 <= pct)%Q /\
    (n <= T <-> (pct <= 100)%Q) /\
    ((forall i, i ∈ accepted_indices consumed -> i < T) -> (pct <= 100)%Q) /\
    ((forall ev h, ev ∈ consumed -> header_of ev = Some h -> is_payload h = true) ->
       T = last_accepted_total consumed ((S + 1024 - 1) / 1024)).
Proof.
  unfold manage_udp_connection.
  destruct (pack fmt_request _) as [req|] eqn:Epack; [|discriminate].
  assert (HS : 0 <= S).
  { apply unpack_pack in Epack. apply unpack_request_size in Epack. lia. }
  destruct (udp_receive_loop events _) as [st|st|] eqn:Eloop; try discriminate.
  destruct (udp_loop_broke _ _ _ Eloop) as [consumed Hcons].
  destruct (consumed_prefix_effect _ _ _ _ Hcons) as [Hdom Htot].
  cbn [udp_initial segments_received total_segments] in Hdom, Htot.
  unfold udp_report. destruct (Z.eqb_spec (total_segments st) 0) as [|Hnz]; [discriminate|].
  destruct (Qeq_bool _ 0); [discriminate|]. intros [= _ _ <-].
  exists consumed, st. split; [exact Hcons|]. cbn zeta.
  assert (Hsize : size (segments_received st) = size (accepted_indices consumed)).
  { rewrite <- size_dom, Hdom. f_equal. set_solver. }
  rewrite <- Hsize.
  assert (HT : 0 < total_segments st).
  { pose proof (last_total_nonneg consumed ((S + 1024 - 1) / 1024)
                 ltac:(apply Z.div_pos; lia)). lia. }
  destruct (percent_range _ _ (Nat2Z.is_nonneg (size (segments_received st))) HT)
    as [Hlo Hhi].
  split; [exact HT|]. split; [reflexivity|]. split; [exact Hlo|]. split; [exact Hhi|].
  split.
  - intros Hidx. apply Hhi. rewrite Hsize.
    pose proof (gset_size_bound (accepted_indices consumed) (total_segments st)) as Hb.
    rewrite Z.max_r in Hb by lia. apply Hb.
    intros i Hi. pose proof (accepted_indices_range _ _ Hi). specialize (Hidx i Hi). lia.
  - intros Hall. rewrite Htot. apply last_total_all_accepted. exact Hall.
Qed.

Lemma udp_completion_percentage_witness :
  manage_udp_connection 4096
    [Datagram (make_datagram MAGIC_COOKIE MTYPE_PAYLOAD 4 0 1024) 0 0;
     Datagram (make_datagram MAGIC_COOKIE MTYPE_PAYLOAD 4 2 1024) 0 0;
     Timeout] 0 0 1
  = UdpResult 1 16384 (200 # 4) /\
  (0 <= 200 # 4)%Q.
Proof.
  assert (H : manage_udp_connection 4096
    [Datagram (make_datagram MAGIC_COOKIE MTYPE_PAYLOAD 4 0 1024) 0 0;
     Datagram (make_datagram MAGIC_COOKIE MTYPE_PAYLOAD 4 2 1024) 0 0;
     Timeout] 0 0 1 = UdpResult 1 16384 (200 # 4)) by (vm_compute; reflexivity).
  split; [exact H|].
  destruct (udp_completion_percentage _ _ _ _ _ _ _ _ H)
    as (consumed & st & _ & _ & _ & Hlo & _).
  exact Hlo.
Defined.

(** C3 as stated fails: two accepted datagrams with indices 0 and 1, the
    second announcing a total of 1, end the loop with two segments counted
    against a total of one, and the session reports 200 percent. *)
Lemma udp_percentage_above_100 :
  manage_udp_connection 2048
    [Datagram (make_datagram MAGIC_COOKIE MTYPE_PAYLOAD 10 0 1024) 0 0;
     Datagram (make_datagram MAGIC_COOKIE MTYPE_PAYLOAD 1 1 1024) 0 0] 0 0 1
  = UdpResult 1 16384 200 /\
  ~ (200 <= 100)%Q.
Proof.
  split; [vm_compute; reflexivity|]. intros H. vm_compute in H. apply H. reflexivity.
Qed.

Lemma last_received_record_segment (st : udp_state) (i d : Z) :
  last_received (record_segment st i d) = last_received st.
Proof. unfold record_segment. destruct (segments_received st !! i); reflexivity. Qed.

(** The pass over a datagram that passes the validation. *)
Lemma udp_step_accepted (st : udp_state) (data : bytes) (t1 t2 : Q) (i : Z) :
  accepted_index (Datagram data t1 t2) = Some i ->
  exists tot,
    header_of (Datagram data t1 t2) = Some (MAGIC_COOKIE, MTYPE_PAYLOAD, tot, i) /\
    let st2 :=
      record_segment
        {| total_segments := tot; segments_received := segments_received st;
           bytes_received := bytes_received st; last_received := t1 |}
        i (Z.of_nat (length data) - Z.of_nat header_size) in
    udp_step st (Datagram data t1 t2)
    = if (tot <=? Z.of_nat (size (segments_received st2)))
         || Qle_bool idle_gap (t2 - t1)
      then Break st2 else Continue st2.
Proof.
  unfold accepted_index. cbn [header_of udp_step].
  destruct (unpack fmt_payload (take header_size data))
    as [[|m [|ty [|tot [|cur [|? ?]]]]]|]; try discriminate.
  unfold is_payload. cbn [snd].
  destruct (Z.eqb_spec m MAGIC_COOKIE) as [->|]; [|discriminate].
  destruct (Z.eqb_spec ty MTYPE_PAYLOAD) as [->|]; [|discriminate].
  cbn [andb negb orb]. intros [= ->]. exists tot. split; [reflexivity|].
  cbn zeta. rewrite last_received_record_segment. reflexivity.
Qed.

(** The pass over a datagram whose header decodes but fails the validation. *)
Lemma udp_step_discarded (st : udp_state) (data : bytes) (t1 t2 : Q) (h : Z * Z * Z * Z) :
  header_of (Datagram data t1 t2) = Some h ->
  is_payload h = false ->
  udp_step st (Datagram data t1 t2)
  = Continue {| total_segments := snd (fst h);
                segments_received := segments_received st;
                bytes_received := bytes_received st; last_received := t1 |}.
Proof.
  cbn [header_of udp_step].
  destruct (unpack fmt_payload (take header_size data))
    as [[|m [|ty [|tot [|cur [|? ?]]]]]|]; try discriminate.
  intros [= <-]. unfold is_payload. cbn [fst snd].
  destruct (m =? MAGIC_COOKIE), (ty =? MTYPE_PAYLOAD); cbn [andb negb orb];
    try discriminate; reflexivity.
Qed.

Lemma record_segment_seen (st : udp_state) (i d : Z) :
  i ∈ dom (segments_received st) -> record_segment st i d = st.
Proof.
  intros H. apply elem_of_dom in H as [x Hx]. unfold record_segment. rewrite Hx. reflexivity.
Qed.

Lemma record_segment_twice (st : udp_state) (i d d' : Z) :
  record_segment (record_segment st i d) i d' = record_segment st i d.
Proof.
  apply record_segment_seen. rewrite dom_record_segment. set_solver.
Qed.

(** C8. A Payload datagram whose index is already in [segments_received]
    leaves the dictionary, hence the count of distinct segments, and the byte
    total as they were, whatever its length; so the same datagram delivered
    again right after its first delivery changes nothing either. *)
Theorem udp_duplicate_counted_once (st : udp_state) (data data' : bytes)
    (t1 t2 t1' t2' : Q) (i : Z) :
  accepted_index (Datagram data t1 t2) = Some i ->
  accepted_index (Datagram data' t1' t2') = Some i ->
  exists st1 st2,
    step_state (udp_step st (Datagram data t1 t2)) = Some st1 /\
    step_state (udp_step st1 (Datagram data' t1' t2')) = Some st2 /\
    (i ∈ dom (segments_received st) ->
       segments_received st1 = segments_received st /\
       size (segments_received st1) = size (segments_received st) /\
       bytes_received st1 = bytes_received st) /\
    segments_received st2 = segments_received st1 /\
    size (segments_received st2) = size (segments_received st1) /\
    bytes_received st2 = bytes_received st1.
Proof.
  intros H1 H2.
  destruct (udp_step_accepted st data t1 t2 i H1) as (tot & _ & Hs1).
  cbn zeta in Hs1.
  set (st1 := record_segment _ i _) in Hs1.
  destruct (udp_step_accepted st1 data' t1' t2' i H2) as (tot' & _ & Hs2).
  cbn zeta in Hs2.
  set (st2 := record_segment _ i _) in Hs2.
  exists st1, st2.
  split; [rewrite Hs1; match goal with |- context [if ?b then _ else _] =>
                          destruct b end; reflexivity|].
  split; [rewrite Hs2; match goal with |- context [if ?b then _ else _] =>
                          destruct b end; reflexivity|].
  split.
  - intros Hin. unfold st1. rewrite record_segment_seen by exact Hin. cbn. auto.
  - unfold st2. rewrite record_segment_seen.
    + cbn. auto.
    + cbn [segments_received]. unfold st1. rewrite dom_record_segment. set_solver.
Qed.

Lemma udp_duplicate_counted_once_witness :
  exists st1 st2,
    step_state (udp_step (udp_initial 2048 0)
      (Datagram (make_datagram MAGIC_COOKIE MTYPE_PAYLOAD 2 0 1024) 0 0)) = Some st1 /\
    step_state (udp_step st1
      (Datagram (make_datagram MAGIC_COOKIE MTYPE_PAYLOAD 2 0 1024) 0 0)) = Some st2 /\
    bytes_received st2 = bytes_received st1.
Proof.
  destruct (udp_duplicate_counted_once (udp_initial 2048 0)
              (make_datagram MAGIC_COOKIE MTYPE_PAYLOAD 2 0 1024)
              (make_datagram MAGIC_COOKIE MTYPE_PAYLOAD 2 0 1024) 0 0 0 0 0
              ltac:(vm_compute; reflexivity) ltac:(vm_compute; reflexivity))
    as (st1 & st2 & H1 & H2 & _ & _ & _ & Hb).
  exists st1, st2. split; [exact H1|]. split; [exact H2|exact Hb].
Defined.

Lemma udp_receive_loop_app (pre more : list udp_event) (st0 st : udp_state) :
  udp_receive_loop pre st0 = Waiting st ->
  udp_receive_loop (pre ++ more) st0 = udp_receive_loop more st.
Proof.
  revert st0. induction pre as [|ev pre IH]; intros st0; cbn [app udp_receive_loop].
  - intros [= <-]. reflexivity.
  - destruct (udp_step st0 ev); try discriminate. apply IH.
Qed.

Lemma elem_of_accepted_indices (events : list udp_event) (i : Z) :
  i ∈ accepted_indices events <-> exists ev, ev ∈ events /\ accepted_index ev = Some i.
Proof. unfold accepted_indices. rewrite elem_of_list_to_set. apply list_elem_of_omap. Qed.

Lemma udp_loop_nothing_received (S : Z) (t_init : Q) (pre : list udp_event)
    (st : udp_state) :
  udp_receive_loop pre (udp_initial S t_init) = Waiting st ->
  segments_received st = ∅ <-> forall ev, ev ∈ pre -> accepted_index ev = None.
Proof.
  intros Hrun. destruct (udp_loop_waiting _ _ _ Hrun) as [Hdom _].
  cbn [udp_initial segments_received] in Hdom. rewrite dom_empty_L, union_empty_l_L in Hdom.
  rewrite <- dom_empty_iff_L, Hdom. split.
  - intros Hempty ev Hev. destruct (accepted_index ev) as [i|] eqn:E; [|reflexivity].
    assert (Hi : i ∈ accepted_indices pre) by (apply elem_of_accepted_indices; eauto).
    rewrite Hempty in Hi. set_solver.
  - intros Hnone. apply set_eq. intros i. rewrite elem_of_accepted_indices. split.
    + intros (ev & Hev & Hi). rewrite (Hnone ev Hev) in Hi. discriminate.
    + set_solver.
Qed.

(** C7. When [recvfrom] times out after the loop has gone through [pre],
    the loop is left if some datagram of [pre] was accepted as a segment, and
    it goes on waiting, its state untouched, if none was. *)
Theorem udp_timeout_rule (S : Z) (t_init : Q) (pre : list udp_event) (st : udp_state) :
  udp_receive_loop pre (udp_initial S t_init) = Waiting st ->
  (udp_receive_loop (pre ++ [Timeout]) (udp_initial S t_init) = Broke st <->
     exists ev i, ev ∈ pre /\ accepted_index ev = Some i) /\
  (udp_receive_loop (pre ++ [Timeout]) (udp_initial S t_init) = Waiting st <->
     forall ev, ev ∈ pre -> accepted_index ev = None).
Proof.
  intros Hrun. rewrite (udp_receive_loop_app _ [Timeout] _ _ Hrun).
  pose proof (udp_loop_nothing_received S t_init pre st Hrun) as Hnone.
  cbn [udp_receive_loop udp_step].
  destruct (decide (segments_received st = ∅)) as [Hempty|Hsome].
  - split.
    + split; [discriminate|]. intros (ev & i & Hev & Hi).
      rewrite (proj1 Hnone Hempty ev Hev) in Hi. discriminate.
    + split; [intros _; apply Hnone; exact Hempty|reflexivity].
  - split.
    + split; [|reflexivity]. intros _.
      destruct (list_exist_dec (fun ev => is_Some (accepted_index ev)) pre) as [Hex|Hno].
      * intros ev. destruct (accepted_index ev); [left; eauto|right; intros [? ?]; discriminate].
      * destruct Hex as (ev & Hev & [i Hi]). eauto.
      * exfalso. apply Hsome, Hnone. intros ev Hev.
        destruct (accepted_index ev) as [i|] eqn:E; [|reflexivity].
        exfalso. apply Hno. exists ev. split; [exact Hev|]. rewrite E. eauto.
    + split; [discriminate|]. intros Hall. exfalso. apply Hsome, Hnone, Hall.
Qed.

Lemma udp_timeout_rule_witness :
  udp_receive_loop
    ([Datagram (make_datagram MAGIC_COOKIE MTYPE_PAYLOAD 4 0 1024) 0 0] ++ [Timeout])
    (udp_initial 4096 0)
  = Broke {| total_segments := 4; segments_received := {[ 0 := 1024 ]};
             bytes_received := 1024; last_received := 0 |}.
Proof.
  apply (udp_timeout_rule 4096 0
           [Datagram (make_datagram MAGIC_COOKIE MTYPE_PAYLOAD 4 0 1024) 0 0]
           {| total_segments := 4; segments_received := {[ 0 := 1024 ]};
              bytes_received := 1024; last_received := 0 |}).
  - vm_compute. reflexivity.
  - eexists _, 0. split; [apply list_elem_of_here|]. vm_compute. reflexivity.
Defined.

Lemma Qle_bool_true (a b : Q) : Qle_bool a b = true <-> (a <= b)%Q.
Proof. apply Qle_bool_iff. Qed.

(** The three ways a pass over a decodable datagram can go. *)
Lemma udp_step_datagram (st : udp_state) (data : bytes) (t1 t2 : Q)
    (h : Z * Z * Z * Z) :
  header_of (Datagram data t1 t2) = Some h ->
  (is_payload h = true ->
     exists st',
       last_received st' = t1 /\
       (udp_step st (Datagram data t1 t2) = Break st' \/
        udp_step st (Datagram data t1 t2) = Continue st') /\
       (udp_step st (Datagram data t1 t2) = Break st' <->
          snd (fst h) <= Z.of_nat (size (segments_received st')) \/
          (idle_gap <= t2 - t1)%Q)) /\
  (is_payload h = false ->
     exists st',
       udp_step st (Datagram data t1 t2) = Continue st' /\
       last_received st' = t1 /\
       segments_received st' = segments_received st /\
       bytes_received st' = bytes_received st).
Proof.
  intros Hh. split; intros Hp.
  - assert (Hacc : accepted_index (Datagram data t1 t2) = Some (snd h))
      by (unfold accepted_index; rewrite Hh, Hp; reflexivity).
    destruct (udp_step_accepted st data t1 t2 _ Hacc) as (tot & Hh' & Hstep).
    rewrite Hh in Hh'. injection Hh' as ->. cbn [fst snd] in *. cbn zeta in Hstep.
    set (st2 := record_segment _ _ _) in Hstep. exists st2.
    split; [unfold st2; apply last_received_record_segment|].
    rewrite Hstep.
    destruct (Z.leb_spec tot (Z.of_nat (size (segments_received st2)))) as [Hc|Hc];
      cbn [orb].
    + split; [left; reflexivity|]. split; [intros _; left; exact Hc|reflexivity].
    + destruct (Qle_bool idle_gap (t2 - t1)) eqn:Eg.
      * apply Qle_bool_true in Eg.
        split; [left; reflexivity|]. split; [intros _; right; exact Eg|reflexivity].
      * split; [right; reflexivity|]. split; [discriminate|].
        intros [Hc'|Hg]; [lia|]. apply Qle_bool_true in Hg. congruence.
  - rewrite (udp_step_discarded st data t1 t2 h Hh Hp).
    eexists. split; [reflexivity|]. cbn. auto.
Qed.






(** What a datagram that passes the validation does to the total. It
    stores the total it announces in [total_segments], in place of the value
    computed from the file size. The test that ends the loop compares the
    segment count against that announced total, and whether the loop ends
    right there or at the timeout that follows, the report divides by it. An
    accepted datagram announcing a total of 0 ends the loop at once and the
    session reports an error instead of a result. *)
Lemma udp_accepted_total (S : Z) (t_start t_init t_end : Q)
    (pre more : list udp_event) (st : udp_state) (data : bytes) (t1 t2 : Q)
    (tot cur : Z) :
  0 <= S < u64_max ->
  udp_receive_loop pre (udp_initial S t_init) = Waiting st ->
  header_of (Datagram data t1 t2) = Some (MAGIC_COOKIE, MTYPE_PAYLOAD, tot, cur) ->
  exists st',
    step_state (udp_step st (Datagram data t1 t2)) = Some st' /\
    total_segments st' = tot /\
    (udp_step st (Datagram data t1 t2) = Break st' <->
       tot <= Z.of_nat (size (segments_received st')) \/
       (idle_gap <= t2 - last_received st')%Q) /\
    (udp_step st (Datagram data t1 t2) = Break st' ->
       manage_udp_connection S (pre ++ Datagram data t1 t2 :: more) t_start t_init t_end
       = udp_report st' t_start t_end) /\
    (udp_step st (Datagram data t1 t2) = Continue st' ->
       manage_udp_connection S (pre ++ Datagram data t1 t2 :: Timeout :: more)
         t_start t_init t_end
       = udp_report st' t_start t_end) /\
    (forall tt sp pct,
       udp_report st' t_start t_end = UdpResult tt sp pct ->
       (pct == inject_Z (Z.of_nat (size (segments_received st'))) / inject_Z tot * 100)%Q) /\
    (tot = 0 ->
       manage_udp_connection S (pre ++ Datagram data t1 t2 :: more) t_start t_init t_end
       = UdpError).
Proof.
  intros HS Hrun Hh.
  assert (Hpack : exists req, pack fmt_request [MAGIC_COOKIE; MTYPE_REQUEST; S] = Some req).
  { apply fits_Q in HS. unfold fmt_request. cbn [pack].
    change (fits FmtI MAGIC_COOKIE) with true. change (fits FmtB MTYPE_REQUEST) with true.
    rewrite HS. cbn. eauto. }
  destruct Hpack as [req Hpack].
  destruct (udp_step_datagram st data t1 t2 _ Hh) as [Hvalid _].
  destruct (Hvalid eq_refl) as (st' & Hlast & Hor & Hiff). cbn [fst snd] in Hiff.
  destruct (udp_step_effect st st' (Datagram data t1 t2)) as [Hdom Htot].
  { destruct Hor as [-> | ->]; reflexivity. }
  unfold last_total in Htot. cbn [fold_left] in Htot. rewrite Hh in Htot.
  rewrite accepted_indices_one in Hdom. unfold accepted_index in Hdom.
  rewrite Hh in Hdom. cbn in Hdom.
  assert (Hbrk : udp_step st (Datagram data t1 t2) = Break st' ->
                 forall more',
                 manage_udp_connection S (pre ++ Datagram data t1 t2 :: more')
                   t_start t_init t_end = udp_report st' t_start t_end).
  { intros Hstep more'. unfold manage_udp_connection. rewrite Hpack.
    rewrite (udp_receive_loop_app _ _ _ _ Hrun). cbn [udp_receive_loop].
    rewrite Hstep. reflexivity. }
  exists st'. split; [destruct Hor as [-> | ->]; reflexivity|].
  split; [exact Htot|]. split; [rewrite Hlast; exact Hiff|].
  split; [intros Hstep; apply Hbrk; exact Hstep|]. split; [|split].
  - intros Hstep. unfold manage_udp_connection. rewrite Hpack.
    rewrite (udp_receive_loop_app _ _ _ _ Hrun). cbn [udp_receive_loop].
    rewrite Hstep. cbn [udp_step].
    destruct (decide (segments_received st' = ∅)) as [Hempty|]; [|reflexivity].
    exfalso. rewrite Hempty, dom_empty_L in Hdom. set_solver.
  - intros tt sp pct. unfold udp_report. rewrite Htot.
    destruct (tot =? 0); [discriminate|]. destruct (Qeq_bool _ 0); [discriminate|].
    intros [= _ _ <-]. reflexivity.
  - intros ->. rewrite Hbrk by (apply Hiff; left; lia).
    unfold udp_report. rewrite Htot. reflexivity.
Qed.

(** A valid Payload announcing a total of 0, after a first segment: the
    loop ends at once and the division by the total raises. *)
Example udp_zero_total_is_an_error :
  manage_udp_connection 4096
    ([segment_event 4 0 0]
     ++ Datagram (make_datagram MAGIC_COOKIE MTYPE_PAYLOAD 0 1 1024) 0 0 :: [])
    0 0 1
  = UdpError.
Proof.
  destruct (udp_accepted_total 4096 0 0 1 [segment_event 4 0 0] []
              {| total_segments := 4; segments_received := {[ 0 := 1024 ]};
                 bytes_received := 1024; last_received := 0 |}
              (make_datagram MAGIC_COOKIE MTYPE_PAYLOAD 0 1 1024) 0 0 0 1
              ltac:(vm_compute; split; [discriminate|reflexivity])
              ltac:(vm_compute; reflexivity) ltac:(vm_compute; reflexivity))
    as (st' & _ & _ & _ & _ & _ & _ & Herr).
  exact (Herr eq_refl).
Qed.

(** C10. The code at a run the claim speaks of: a segment announcing a
    total of 4 is accepted, a datagram with a wrong cookie announcing 2 is
    discarded, a timeout ends the loop. The most recently received valid
    Payload header said 4, yet the session divides by 2, the total of the
    datagram it has just discarded, and reports 50 percent, not 25: line 157
    stores the unpacked total before the validation of lines 160-162. *)
Lemma udp_denominator_from_discarded_datagram :
  manage_udp_connection 4096
    [segment_event 4 0 0; stray_event 2 0; Timeout] 0 0 1
  = UdpResult 1 8192 (100 # 2) /\
  last_accepted_total [segment_event 4 0 0; stray_event 2 0; Timeout] 4 = 4 /\
  ~ (100 # 2 == inject_Z 1 / inject_Z 4 * 100)%Q.
Proof.
  split; [vm_compute; reflexivity|]. split; [vm_compute; reflexivity|].
  intros H. vm_compute in H. discriminate.
Qed.

(** ** Discovery listener *)

Lemma find_server_offer_discard (ev : discovery_event) (rest : list discovery_event) :
  discarded ev -> find_server_offer (ev :: rest) = find_server_offer rest.
Proof.
  intros Hd. destruct ev as [data sender|]; [|reflexivity].
  cbn [find_server_offer].
  destruct (unpack fmt_offer data) as [[|m [|ty [|u [|t [|? ?]]]]]|] eqn:E; try reflexivity.
  destruct (Z.eqb_spec m MAGIC_COOKIE) as [->|]; [|reflexivity].
  destruct (Z.eqb_spec ty MTYPE_OFFER) as [->|]; [|reflexivity].
  exfalso. exact (Hd data sender u t eq_refl E).
Qed.

Lemma find_server_offer_accept (data : bytes) (sender : address)
    (rest : list discovery_event) (u t : Z) :
  valid_offer data u t ->
  find_server_offer (Arrival data sender :: rest) = Some (host sender, u, t).
Proof.
  unfold valid_offer. intros H. cbn [find_server_offer]. rewrite H.
  rewrite !Z.eqb_refl. reflexivity.
Qed.

Lemma find_server_offer_head (ev : discovery_event) (rest : list discovery_event) :
  discarded ev \/
  exists data sender u t, ev = Arrival data sender /\ valid_offer data u t.
Proof.
  destruct ev as [data sender|]; [|left; intros ? ? ? ? [=]].
  destruct (unpack fmt_offer data) as [vs|] eqn:E.
  - destruct vs as [|m [|ty [|u [|t [|? ?]]]]];
      try (left; intros d s u' t' [= <- <-]; unfold valid_offer; rewrite E; discriminate).
    destruct (Z.eq_dec m MAGIC_COOKIE) as [->|Hm];
      [|left; intros d s u' t' [= <- <-]; unfold valid_offer; rewrite E; congruence].
    destruct (Z.eq_dec ty MTYPE_OFFER) as [->|Hty];
      [|left; intros d s u' t' [= <- <-]; unfold valid_offer; rewrite E; congruence].
    right. exists data, sender, u, t. split; [reflexivity|exact E].
  - left. intros d s u' t' [= <- <-]. unfold valid_offer. rewrite E. discriminate.
Qed.

(** C4. The listener returns a triple exactly when the socket delivers a
    valid Offer: the triple is the sender's host and the two ports of the
    first datagram that decodes as (cookie 0xabcddcba, OFFER, ports), and
    everything delivered before it, malformed or with another cookie or type,
    was passed over with the loop going on. *)
Theorem discovery_only_valid_offers (arrivals : list discovery_event)
    (ip : string) (udp_port tcp_port : Z) :
  find_server_offer arrivals = Some (ip, udp_port, tcp_port) <->
  exists pre offer_data sender post,
    arrivals = pre ++ Arrival offer_data sender :: post /\
    Forall discarded pre /\
    valid_offer offer_data udp_port tcp_port /\
    pack fmt_offer [MAGIC_COOKIE; MTYPE_OFFER; udp_port; tcp_port] = Some offer_data /\
    host sender = ip.
Proof.
  split.
  - induction arrivals as [|ev rest IH]; [discriminate|].
    destruct (find_server_offer_head ev rest) as [Hd|(data & sender & u & t & -> & Hv)].
    + rewrite (find_server_offer_discard ev rest Hd). intros H.
      destruct (IH H) as (pre & d & s & post & -> & Hpre & Hrest).
      exists (ev :: pre), d, s, post. split; [reflexivity|].
      split; [constructor; assumption|exact Hrest].
    + rewrite (find_server_offer_accept data sender rest u t Hv). intros [= <- <- <-].
      exists [], data, sender, rest. split; [reflexivity|]. split; [constructor|].
      split; [exact Hv|]. split; [apply pack_unpack; exact Hv|reflexivity].
  - intros (pre & d & s & post & -> & Hpre & Hv & _ & <-).
    induction Hpre as [|ev pre Hev _ IH].
    + apply find_server_offer_accept. exact Hv.
    + cbn [app]. rewrite (find_server_offer_discard ev _ Hev). exact IH.
Qed.

Example find_server_offer_example :
  find_server_offer
    [Arrival (be_encode 4 0xdeadbeef ++ be_encode 1 MTYPE_OFFER ++ be_encode 2 1 ++ be_encode 2 2)
       {| host := "10.0.0.9"; port := 5000 |};
     ListenError;
     Arrival (be_encode 4 MAGIC_COOKIE ++ be_encode 1 MTYPE_REQUEST ++ be_encode 8 7)
       {| host := "10.0.0.8"; port := 5000 |};
     Arrival (be_encode 4 MAGIC_COOKIE ++ be_encode 1 MTYPE_OFFER
              ++ be_encode 2 2001 ++ be_encode 2 2002)
       {| host := "10.0.0.7"; port := 39457 |}]
  = Some ("10.0.0.7"%string, 2001, 2002).
Proof. reflexivity. Qed.

(** ** Session orchestrator *)

Lemma run_client_S (n m k : nat) :
  run_client n m (S k) = run_client n m k ++ client_cycle n m k.
Proof.
  unfold run_client. rewrite seq_S, flat_map_app. cbn [flat_map Nat.add].
  rewrite app_nil_r. reflexivity.
Qed.

Lemma elem_of_client_cycle (n m k : nat) (a : client_action) :
  a ∈ client_cycle n m k <->
  a = FindOffer k \/
  (exists i, (i < n)%nat /\ a = CreateThread (ThreadId k i) TcpSession (i + 1)) \/
  (exists i, (i < m)%nat /\ a = CreateThread (ThreadId k (n + i)) UdpSession (i + 1)) \/
  (exists i, (i < n + m)%nat /\ a = StartThread (ThreadId k i)) \/
  (exists i, (i < n + m)%nat /\ a = JoinThread (ThreadId k i)) \/
  a = TransfersComplete k.
Proof.
  unfold client_cycle, connection_threads.
  rewrite elem_of_cons, !elem_of_app, !list_elem_of_fmap, list_elem_of_singleton.
  setoid_rewrite list_elem_of_fmap. setoid_rewrite elem_of_seq.
  split.
  - intros [?|[(i & -> & Hi)|[(i & -> & Hi)|[(t & -> & i & -> & Hi)|[(t & -> & i & -> & Hi)|?]]]]].
    + left. assumption.
    + right. left. exists i. split; [lia|reflexivity].
    + do 2 right. left. exists i. split; [lia|reflexivity].
    + do 3 right. left. exists i. split; [lia|reflexivity].
    + do 4 right. left. exists i. split; [lia|reflexivity].
    + do 5 right. assumption.
  - intros [?|[(i & Hi & ->)|[(i & Hi & ->)|[(i & Hi & ->)|[(i & Hi & ->)|?]]]]].
    + left. assumption.
    + right. left. exists i. split; [reflexivity|lia].
    + do 2 right. left. exists i. split; [reflexivity|lia].
    + do 3 right. left. eexists. split; [reflexivity|]. exists i. split; [reflexivity|lia].
    + do 4 right. left. eexists. split; [reflexivity|]. exists i. split; [reflexivity|lia].
    + do 5 right. assumption.
Qed.

Lemma elem_of_run_client (n m k : nat) (a : client_action) :
  a ∈ run_client n m k <-> exists c, (c < k)%nat /\ a ∈ client_cycle n m c.
Proof.
  unfold run_client. rewrite list_elem_of_In, in_flat_map.
  setoid_rewrite in_seq. setoid_rewrite <- list_elem_of_In.
  split; intros (c & H1 & H2); exists c; (split; [lia|exact H2]).
Qed.

(** The discovery call of pass [c] comes right after [c] whole passes. *)
Lemma run_client_split (n m k c : nat) (pre post : list client_action) :
  run_client n m k = pre ++ FindOffer c :: post -> pre = run_client n m c.
Proof.
  revert pre post. induction k as [|k IH]; intros pre post.
  - destruct pre; discriminate.
  - rewrite run_client_S. intros H.
    apply app_eq_app in H as [l [[H1 H2]|[H1 H2]]].
    + destruct l as [|x l].
      * rewrite app_nil_r in H1. cbn [app] in H2. subst pre.
        unfold client_cycle in H2. injection H2 as <- _. reflexivity.
      * cbn [app] in H2. injection H2 as <- _. exact (IH _ _ H1).
    + destruct l as [|x l].
      * rewrite app_nil_r in H1. cbn [app] in H2. subst pre.
        unfold client_cycle in H2. injection H2 as <- _. reflexivity.
      * exfalso.
        unfold client_cycle in H2. cbn [app] in H2. injection H2 as _ H2.
        assert (Hin' : FindOffer c ∈ l ++ FindOffer c :: post)
          by (apply elem_of_app; right; apply list_elem_of_here).
        rewrite <- H2 in Hin'. unfold connection_threads in Hin'.
        rewrite !elem_of_app, !list_elem_of_fmap, list_elem_of_singleton in Hin'.
        destruct Hin' as [(? & [=] & _)|[(? & [=] & _)|[(? & [=] & _)|[(? & [=] & _)|[=]]]]].
Qed.

(** Within a pass every thread is started before any is joined. *)
Lemma client_cycle_join_split (n m k : nat) (p q : list client_action) (t : thread_id) :
  client_cycle n m k = p ++ JoinThread t :: q ->
  thread_cycle t = k /\
  forall i, (i < n + m)%nat -> StartThread (ThreadId k i) ∈ p.
Proof.
  intros H.
  assert (Hin : JoinThread t ∈ client_cycle n m k)
    by (rewrite H; apply elem_of_app; right; apply list_elem_of_here).
  apply elem_of_client_cycle in Hin.
  destruct Hin as [[=]|[(i & _ & [=])|[(i & _ & [=])|[(i & _ & [=])|[(i & Hi & [= ->])|[=]]]]]].
  split; [reflexivity|]. intros j Hj.
  set (head := FindOffer k
         :: map (fun i => CreateThread (ThreadId k i) TcpSession (i + 1)) (seq 0 n)
         ++ map (fun i => CreateThread (ThreadId k (n + i)) UdpSession (i + 1)) (seq 0 m)).
  set (starts := map StartThread (connection_threads n m k)).
  set (tail := map JoinThread (connection_threads n m k) ++ [TransfersComplete k]).
  assert (Hshape : client_cycle n m k = (head ++ starts) ++ tail).
  { unfold client_cycle, head, starts, tail. cbn [app]. rewrite <- !app_assoc. reflexivity. }
  assert (Hstart : StartThread (ThreadId k j) ∈ head ++ starts).
  { apply elem_of_app. right. unfold starts, connection_threads.
    apply list_elem_of_fmap. exists (ThreadId k j). split; [reflexivity|].
    apply list_elem_of_fmap. exists j. split; [reflexivity|]. apply elem_of_seq. lia. }
  assert (Hnojoin : JoinThread (ThreadId k i) ∉ head ++ starts).
  { unfold head, starts. rewrite elem_of_app, elem_of_cons, elem_of_app, !list_elem_of_fmap.
    intros [[[=]|[(? & [=] & _)|(? & [=] & _)]]|(? & [=] & _)]. }
  rewrite Hshape in H. apply app_eq_app in H as [l [[H1 H2]|[H1 H2]]].
  - destruct l as [|x l].
    + rewrite app_nil_r in H1. rewrite <- H1. exact Hstart.
    + exfalso. cbn [app] in H2. injection H2 as <- _. apply Hnojoin.
      rewrite H1. apply elem_of_app. right. apply list_elem_of_here.
  - rewrite H1. apply elem_of_app. left. exact Hstart.
Qed.

Lemma run_client_join_split (n m k : nat) (p q : list client_action) (t : thread_id) :
  run_client n m k = p ++ JoinThread t :: q ->
  forall i, (i < n + m)%nat -> StartThread (ThreadId (thread_cycle t) i) ∈ p.
Proof.
  revert p q. induction k as [|k IH]; intros p q.
  - destruct p; discriminate.
  - rewrite run_client_S. intros H i Hi.
    apply app_eq_app in H as [l [[H1 H2]|[H1 H2]]].
    + destruct l as [|x l].
      * rewrite app_nil_r in H1. cbn [app] in H2. subst p.
        unfold client_cycle in H2. discriminate.
      * cbn [app] in H2. injection H2 as <- _. exact (IH _ _ H1 i Hi).
    + destruct (client_cycle_join_split n m k l q t H2) as [<- Hstarts].
      rewrite H1. apply elem_of_app. right. apply Hstarts. exact Hi.
Qed.

Lemma client_actions_app (a b : list event) :
  client_actions (a ++ b) = client_actions a ++ client_actions b.
Proof. unfold client_actions. apply omap_app. Qed.

Lemma elem_of_client_actions (tr : list event) (a : client_action) :
  a ∈ client_actions tr <-> Client a ∈ tr.
Proof.
  unfold client_actions. rewrite list_elem_of_omap. split.
  - intros ([a'|t] & Hin & [= <-]). exact Hin.
  - intros Hin. exists (Client a). split; [exact Hin|reflexivity].
Qed.

Lemma joins_check_sound (finished : list thread_id) (tr : list event) :
  joins_check finished tr = true ->
  forall before t after,
    tr = before ++ Client (JoinThread t) :: after ->
    t ∈ finished \/ Finished t ∈ before.
Proof.
  revert finished. induction tr as [|e tr IH]; intros finished Hc before t after Heq.
  - destruct before; discriminate.
  - destruct before as [|e' before]; cbn [app] in Heq; injection Heq as -> ->.
    + cbn [joins_check] in Hc. apply andb_prop in Hc as [Hc _].
      left. apply bool_decide_eq_true in Hc. exact Hc.
    + assert (Hstep : exists finished',
                joins_check finished' (before ++ Client (JoinThread t) :: after) = true /\
                (forall x, x ∈ finished' -> x ∈ finished \/ Finished x = e')).
      { destruct e' as [a|t']; cbn [joins_check] in Hc.
        - exists finished. split; [|auto].
          destruct a; try exact Hc. apply andb_prop in Hc as [_ Hc]. exact Hc.
        - exists (t' :: finished). split; [exact Hc|].
          intros x Hx. apply elem_of_cons in Hx as [->|Hx]; auto. }
      destruct Hstep as (finished' & Hc' & Hsub).
      destruct (IH finished' Hc' before t after eq_refl) as [Hin|Hin].
      * destruct (Hsub t Hin) as [?|<-]; [left; assumption|].
        right. apply list_elem_of_here.
      * right. apply list_elem_of_further. exact Hin.
Qed.

(** C9. In any execution of the client, when the orchestrator makes the
    discovery call of pass [c], what it has done so far is exactly [c] whole
    passes (create the N + M threads, start them all, join them all); every
    thread started so far has been joined and has therefore finished; the
    N + M sessions of every earlier pass are among them; and no thread of a
    pass was joined before all N + M threads of that pass were started. *)
Theorem orchestrator_waits_for_all (n m : nat) (tr before after : list event) (c : nat) :
  client_execution n m tr ->
  tr = before ++ Client (FindOffer c) :: after ->
  client_actions before = run_client n m c /\
  (forall t, Client (StartThread t) ∈ before ->
     Client (JoinThread t) ∈ before /\ Finished t ∈ before) /\
  (forall c' i, (c' < c)%nat -> (i < n + m)%nat ->
     Client (StartThread (ThreadId c' i)) ∈ before /\
     Finished (ThreadId c' i) ∈ before) /\
  (forall earlier t later i,
     before = earlier ++ Client (JoinThread t) :: later -> (i < n + m)%nat ->
     Client (StartThread (ThreadId (thread_cycle t) i)) ∈ earlier).
Proof.
  intros [Hjoin (k & rest & Hrun)] ->.
  rewrite client_actions_app in Hrun. cbn [client_actions omap] in Hrun.
  fold (client_actions after) in Hrun. rewrite <- app_assoc in Hrun. cbn [app] in Hrun.
  symmetry in Hrun. apply run_client_split in Hrun.
  assert (Hjoined : forall t, Client (JoinThread t) ∈ before -> Finished t ∈ before).
  { intros t Ht. apply list_elem_of_split in Ht as (a & b & ->).
    apply elem_of_app. left. apply (Hjoin a t (b ++ Client (FindOffer c) :: after)).
    rewrite <- app_assoc. reflexivity. }
  assert (Hstarted : forall t, Client (StartThread t) ∈ before ->
                               Client (JoinThread t) ∈ before).
  { intros t Ht. apply elem_of_client_actions in Ht. apply elem_of_client_actions.
    rewrite Hrun in *. apply elem_of_run_client in Ht as (c' & Hc' & Ht).
    apply elem_of_run_client. exists c'. split; [exact Hc'|].
    apply elem_of_client_cycle in Ht.
    destruct Ht as [[=]|[(i & _ & [=])|[(i & _ & [=])|[(i & Hi & [= ->])|[(i & _ & [=])|[=]]]]]].
    apply elem_of_client_cycle. do 4 right. left. eauto. }
  split; [exact Hrun|]. split; [|split].
  - intros t Ht. split; [apply Hstarted; exact Ht|apply Hjoined, Hstarted; exact Ht].
  - intros c' i Hc' Hi.
    assert (Hs : Client (StartThread (ThreadId c' i)) ∈ before).
    { apply elem_of_client_actions. rewrite Hrun. apply elem_of_run_client.
      exists c'. split; [exact Hc'|]. apply elem_of_client_cycle. do 3 right. left. eauto. }
    split; [exact Hs|apply Hjoined, Hstarted; exact Hs].
  - intros earlier t later i -> Hi. apply elem_of_client_actions.
    rewrite client_actions_app in Hrun. cbn [client_actions omap] in Hrun.
    fold (client_actions later) in Hrun. symmetry in Hrun.
    exact (run_client_join_split n m c _ _ t Hrun i Hi).
Qed.

Lemma orchestrator_waits_for_all_witness :
  Finished (ThreadId 0 0) ∈ example_pass.
Proof.
  assert (Hc : joins_check [] (example_pass ++ Client (FindOffer 1) :: []) = true)
    by (vm_compute; reflexivity).
  assert (Hex : client_execution 1 1 (example_pass ++ Client (FindOffer 1) :: [])).
  { split.
    - intros before t after Heq.
      destruct (joins_check_sound [] _ Hc before t after Heq) as [Hin|Hin]; [|exact Hin].
      apply elem_of_nil in Hin. destruct Hin.
    - exists 2%nat. eexists. cbn. reflexivity. }
  exact (proj2 (proj1 (proj2 (proj2 (orchestrator_waits_for_all 1 1 _ example_pass []
           1%nat Hex eq_refl))) 0%nat 0%nat ltac:(lia) ltac:(lia))).
Defined.

Lemma tcp_transfer_exact_witness :
  exists chunks,
    Z.of_nat (length (concat chunks)) = 5000 /\
    exists fuel0, forall fuel, (fuel0 <= fuel)%nat ->
      tcp_receive (fun _ => 99%nat) fuel 5000 (concat chunks) 0 0 = Some 5000.
Proof.
  destruct (tcp_transfer_exact (fun _ => Byte.x00) (fun _ => None) (fun _ => 99%nat)
              5000 1 ltac:(lia) ltac:(vm_compute; discriminate)
              ltac:(vm_compute; discriminate))
    as (chunks & _ & Hlen & _ & fuel0 & Hrecv).
  exists chunks. split; [exact Hlen|].
  exists fuel0. intros fuel Hfuel. exact (proj1 (Hrecv fuel Hfuel)).
Defined.

(** * Further properties *)

(** ** Wire codec *)

(** X1. [struct.pack] and [struct.unpack] are inverse to each other on the
    formats of the three messages: a buffer unpacks to the values exactly
    when the values pack to the buffer. *)
Theorem struct_round_trip (fmt : list fmt_char) (vs : list Z) (bs : bytes) :
  pack fmt vs = Some bs <-> unpack fmt bs = Some vs.
Proof. split; [apply unpack_pack|apply pack_unpack]. Qed.

(** ** Port allocation *)

Lemma try_ports_range (bind_ok : bool -> Z -> bool) (s : bool) (a b : Z) :
  0 <= a -> b <= 65536 ->
  match try_ports bind_ok s (range a b) with
  | PortFound p =>
      a <= p < b /\ bind_ok s p = true /\
      forall q, a <= q < p -> bind_ok s q = false
  | NoPortAvailable => forall q, a <= q < b -> bind_ok s q = false
  | PortOutOfRange => False
  end.
Proof.
  intros Ha Hb. remember (Z.to_nat (b - a)) as k eqn:Hk. revert a Ha Hk.
  induction k as [|k IH]; intros a Ha Hk.
  - rewrite range_nil by lia. cbn. intros q Hq. lia.
  - rewrite range_cons by lia. cbn [try_ports].
    replace (a <? 0) with false by (symmetry; apply Z.ltb_ge; lia).
    replace (65535 <? a) with false by (symmetry; apply Z.ltb_ge; lia).
    cbn [orb]. destruct (bind_ok s a) eqn:Ebind.
    + split; [lia|]. split; [exact Ebind|]. intros q Hq. lia.
    + specialize (IH (a + 1) ltac:(lia) ltac:(lia)).
      destruct (try_ports bind_ok s (range (a + 1) b)) as [p| |].
      * destruct IH as (Hp & Hbp & Hbelow). split; [lia|]. split; [exact Hbp|].
        intros q Hq. destruct (Z.eq_dec q a) as [->|]; [exact Ebind|apply Hbelow; lia].
      * intros q Hq. destruct (Z.eq_dec q a) as [->|]; [exact Ebind|apply IH; lia].
      * exact IH.
Qed.

(** X2. Over a range of valid port numbers [allocate_port] is a first-fit
    search: it returns the lowest port of the range on which the bind
    succeeds, and it raises "no available port" only when the bind fails on
    every port of the range. *)
Theorem allocate_port_first_fit (bind_ok : bool -> Z -> bool)
    (start end_ : Z) (protocol : string) :
  0 <= start -> end_ <= 65535 ->
  match allocate_port bind_ok start end_ protocol with
  | PortFound p =>
      start <= p <= end_ /\ bind_ok (is_stream protocol) p = true /\
      forall q, start <= q < p -> bind_ok (is_stream protocol) q = false
  | NoPortAvailable =>
      forall q, start <= q <= end_ -> bind_ok (is_stream protocol) q = false
  | PortOutOfRange => False
  end.
Proof.
  intros Hs He. unfold allocate_port.
  pose proof (try_ports_range bind_ok (is_stream protocol) start (end_ + 1)
                Hs ltac:(lia)) as H.
  destruct (try_ports _ _ _) as [p| |].
  - destruct H as (Hp & Hb & Hq). split; [lia|]. split; assumption.
  - intros q Hq. apply H. lia.
  - exact H.
Qed.

Lemma allocate_port_first_fit_witness :
  allocate_port (fun stream port => if stream then 1027 <=? port else 1030 <=? port)
    1025 65535 "udp" = PortFound 1030.
Proof.
  pose proof (allocate_port_first_fit
                (fun stream port => if stream then 1027 <=? port else 1030 <=? port)
                1025 65535 "udp" ltac:(lia) ltac:(lia)) as H.
  destruct (allocate_port _ 1025 65535 "udp") as [p| |].
  - destruct H as (Hr & Hb & Hq). f_equal. cbn in Hb. apply Z.leb_le in Hb.
    destruct (Z_le_gt_dec p 1030) as [|Hgt]; [lia|].
    specialize (Hq 1030 ltac:(lia)). cbn in Hq. discriminate.
  - specialize (H 2000 ltac:(lia)). cbn in H. discriminate.
  - destruct H.
Defined.

(** ** Discovery: broadcaster to listener *)

Lemma fits_H (v : Z) : fits FmtH v = true <-> 0 <= v < 65536.
Proof.
  unfold fits. change (256 ^ Z.of_nat (fmt_width FmtH)) with 65536.
  rewrite andb_true_iff, Z.leb_le, Z.ltb_lt. reflexivity.
Qed.

Lemma find_server_offer_skip (pre rest : list discovery_event) :
  Forall discarded pre -> find_server_offer (pre ++ rest) = find_server_offer rest.
Proof.
  induction 1 as [|ev pre Hev _ IH]; [reflexivity|].
  cbn [app]. rewrite (find_server_offer_discard ev _ Hev). exact IH.
Qed.

Lemma elem_of_broadcast_loop (pkt : bytes) (rounds budget : nat) (a : broadcast_action) :
  a ∈ broadcast_loop pkt rounds budget ->
  a = Broadcast pkt broadcast_address BROADCAST_PORT \/ a = Pause.
Proof.
  revert budget. induction rounds as [|rounds IH]; intros budget; cbn [broadcast_loop].
  - intros H. apply elem_of_nil in H. destruct H.
  - destruct budget as [|budget]; [intros H; apply elem_of_nil in H; destruct H|].
    rewrite !elem_of_cons. intros [->|[->|H]]; [left|right|]; try reflexivity.
    exact (IH _ H).
Qed.

(** X3. The broadcaster and the listener agree. With both ports in the
    16-bit range the Offer packs into 9 bytes, every datagram the broadcaster
    sends is that packet, addressed to the port the listener is bound to, and
    a listener that receives it, after any number of datagrams it passes
    over, returns the sender's host with exactly the two advertised ports.
    With a port outside the range the broadcaster raises before it sends
    anything. *)
Theorem offer_reaches_listener (udp_port tcp_port : Z) (rounds budget : nat) :
  (0 <= udp_port < 65536 /\ 0 <= tcp_port < 65536 ->
   exists offer_packet,
     offer_broadcast udp_port tcp_port rounds budget
       = Some (broadcast_loop offer_packet rounds budget) /\
     length offer_packet = 9%nat /\
     (forall a, a ∈ broadcast_loop offer_packet rounds budget ->
        a = Broadcast offer_packet broadcast_address BROADCAST_PORT \/ a = Pause) /\
     (forall pre sender rest,
        Forall discarded pre ->
        find_server_offer (pre ++ Arrival offer_packet sender :: rest)
        = Some (host sender, udp_port, tcp_port))) /\
  (~ (0 <= udp_port < 65536 /\ 0 <= tcp_port < 65536) ->
   offer_broadcast udp_port tcp_port rounds budget = None).
Proof.
  unfold offer_broadcast. split.
  - intros [Hu Ht]. apply fits_H in Hu, Ht.
    destruct (pack fmt_offer [MAGIC_COOKIE; MTYPE_OFFER; udp_port; tcp_port])
      as [pkt|] eqn:Epack.
    + exists pkt. split; [reflexivity|]. split; [exact (length_pack _ _ _ Epack)|].
      split; [apply elem_of_broadcast_loop|].
      intros pre sender rest Hpre. rewrite (find_server_offer_skip pre _ Hpre).
      apply find_server_offer_accept. apply unpack_pack. exact Epack.
    + exfalso. revert Epack. unfold fmt_offer. cbn [pack].
      change (fits FmtI MAGIC_COOKIE) with true. change (fits FmtB MTYPE_OFFER) with true.
      rewrite Hu, Ht. cbn. discriminate.
  - intros Hout.
    destruct (pack fmt_offer [MAGIC_COOKIE; MTYPE_OFFER; udp_port; tcp_port])
      as [pkt|] eqn:Epack; [|reflexivity].
    exfalso. apply Hout. revert Epack. unfold fmt_offer. cbn [pack].
    destruct (fits FmtI MAGIC_COOKIE); [|discriminate].
    destruct (fits FmtB MTYPE_OFFER); [|discriminate].
    destruct (fits FmtH udp_port) eqn:Eu; [|discriminate].
    destruct (fits FmtH tcp_port) eqn:Et; [|discriminate].
    intros _. split; apply fits_H; assumption.
Qed.

(** ** User-supplied values *)

Lemma values_from_user_sound (tbl : Z -> option Z) (k : nat) :
  forall lines file_size tcp_conn_num udp_conn_num,
    (length lines <= k)%nat ->
    values_from_user tbl lines = Some (file_size, tcp_conn_num, udp_conn_num) ->
    0 < file_size /\ 0 < tcp_conn_num /\ 0 < udp_conn_num /\
    exists before line1 line2 line3 after,
      lines = before ++ line1 :: line2 :: line3 :: after /\
      py_int_limited tbl line1 = Some file_size /\
      py_int_limited tbl line2 = Some tcp_conn_num /\
      py_int_limited tbl line3 = Some udp_conn_num.
Proof.
  induction k as [|k IH]; intros lines fs n m Hlen.
  - destruct lines; [discriminate|cbn in Hlen; lia].
  - assert (Hrec : forall skipped rest,
              lines = skipped ++ rest -> skipped <> [] ->
              values_from_user tbl rest = Some (fs, n, m) ->
              0 < fs /\ 0 < n /\ 0 < m /\
              exists before line1 line2 line3 after,
                lines = before ++ line1 :: line2 :: line3 :: after /\
                py_int_limited tbl line1 = Some fs /\ py_int_limited tbl line2 = Some n /\
                py_int_limited tbl line3 = Some m).
    { intros skipped rest -> Hne Hv.
      assert (Hl : (length rest <= k)%nat).
      { rewrite length_app in Hlen. destruct skipped; [congruence|cbn in Hlen; lia]. }
      destruct (IH rest fs n m Hl Hv) as (H1 & H2 & H3 & b & l1 & l2 & l3 & a & -> & Hp).
      split; [exact H1|]. split; [exact H2|]. split; [exact H3|].
      exists (skipped ++ b), l1, l2, l3, a. rewrite <- app_assoc. split; [reflexivity|exact Hp]. }
    destruct lines as [|line1 rest1]; [discriminate|]. cbn [values_from_user].
    destruct (py_int_limited tbl line1) as [v1|] eqn:E1;
      [|apply (Hrec [line1] rest1 eq_refl); discriminate].
    destruct rest1 as [|line2 rest2]; [discriminate|].
    destruct (py_int_limited tbl line2) as [v2|] eqn:E2;
      [|apply (Hrec [line1; line2] rest2 eq_refl); discriminate].
    destruct rest2 as [|line3 rest3]; [discriminate|].
    destruct (py_int_limited tbl line3) as [v3|] eqn:E3;
      [|apply (Hrec [line1; line2; line3] rest3 eq_refl); discriminate].
    destruct (Z.leb_spec v1 0); cbn [orb];
      [apply (Hrec [line1; line2; line3] rest3 eq_refl); discriminate|].
    destruct (Z.leb_spec v2 0); cbn [orb];
      [apply (Hrec [line1; line2; line3] rest3 eq_refl); discriminate|].
    destruct (Z.leb_spec v3 0); cbn [orb];
      [apply (Hrec [line1; line2; line3] rest3 eq_refl); discriminate|].
    intros [= <- <- <-]. repeat (split; [assumption|]).
    exists [], line1, line2, line3, rest3. repeat split; assumption.
Qed.

(** X4. Whatever [values_from_user] returns, the three values are positive,
    and they are the integers of three consecutive lines of what the user
    typed, each of at most 4300 digits: a size of zero or less never leaves
    the function, nor does a connection count of zero or less. *)
Theorem values_from_user_positive (tbl : Z -> option Z) (lines : list str)
    (file_size tcp_conn_num udp_conn_num : Z) :
  values_from_user tbl lines = Some (file_size, tcp_conn_num, udp_conn_num) ->
  0 < file_size /\ 0 < tcp_conn_num /\ 0 < udp_conn_num /\
  exists before line1 line2 line3 after,
    lines = before ++ line1 :: line2 :: line3 :: after /\
    py_int_limited tbl line1 = Some file_size /\
    py_int_limited tbl line2 = Some tcp_conn_num /\
    py_int_limited tbl line3 = Some udp_conn_num.
Proof. apply (values_from_user_sound tbl (length lines)). lia. Qed.

Lemma values_from_user_positive_witness :
  0 < 5000 /\ 0 < 2 /\ 0 < 3 /\
  exists before line1 line2 line3 after,
    [[48]; [49]; [49]; [97; 98]; py_str 5000; py_str 2; py_str 3]
    = before ++ line1 :: line2 :: line3 :: after /\
    py_int_limited (fun _ => None) line1 = Some 5000 /\
    py_int_limited (fun _ => None) line2 = Some 2 /\
    py_int_limited (fun _ => None) line3 = Some 3.
Proof.
  apply (values_from_user_positive (fun _ => None)
           [[48]; [49]; [49]; [97; 98]; py_str 5000; py_str 2; py_str 3] 5000 2 3).
  vm_compute. reflexivity.
Defined.

(** The digit limit at work: a first line of 4301 digits is refused like a
    line that is no number and the questions start again at the next line,
    while a line of 4300 digits is taken. *)
Example values_from_user_long_line :
  values_from_user (fun _ => None) [repeat 49 4301; [50]; [51]; [55]] = Some (2, 3, 7) /\
  exists file_size,
    values_from_user (fun _ => None) [repeat 49 4300; [50]; [51]; [55]]
    = Some (file_size, 2, 3).
Proof. split; [vm_compute; reflexivity|]. eexists. vm_compute. reflexivity. Qed.

(** ** TCP transfer: request line, client count, failing socket *)

Lemma lstrip_no_space (s : str) :
  Forall (fun c => Py_UNICODE_ISSPACE c = false) s -> lstrip s = s.
Proof.
  intros H. destruct H as [|c s Hc _]; [reflexivity|].
  cbn [lstrip]. rewrite Hc. reflexivity.
Qed.

Lemma strip_line_no_space (s : str) :
  Forall (fun c => Py_UNICODE_ISSPACE c = false) s ->
  strip (s ++ [chr_newline]) = s.
Proof.
  intros H. destruct s as [|c0 s0]; [reflexivity|]. unfold strip.
  assert (Hl : lstrip ((c0 :: s0) ++ [chr_newline]) = (c0 :: s0) ++ [chr_newline]).
  { cbn [app lstrip]. rewrite (Forall_inv H). reflexivity. }
  remember (c0 :: s0) as s eqn:Es. clear Es c0 s0.
  rewrite Hl, rev_app_distr. cbn [rev app lstrip].
  change (Py_UNICODE_ISSPACE chr_newline) with true. cbn iota.
  rewrite lstrip_no_space by (apply Forall_rev; exact H).
  apply rev_involutive.
Qed.

Lemma py_int_negative_digits (tbl : Z -> option Z) (ds : str) :
  ds <> [] -> Forall is_ascii_digit ds ->
  py_int tbl (chr_minus :: ds) = Some (- digits_value ds 0).
Proof.
  intros Hne H. destruct ds as [|c ds]; [congruence|].
  pose proof (Forall_inv H) as Hc.
  unfold py_int. cbn [skip_int_space]. change (int_space chr_minus) with false. cbn iota.
  change (chr_minus =? chr_plus) with false. cbn iota. rewrite Z.eqb_refl.
  rewrite (digit_value_ascii tbl c Hc), (scan_digits_all tbl _ 0 H).
  cbn [skip_int_space]. f_equal; lia.
Qed.

Lemma py_str_shape (n : Z) :
  exists ds, ds <> [] /\ Forall is_ascii_digit ds /\
    (length ds <= S (Z.to_nat (Z.log2 (Z.abs n))))%nat /\
    digits_value ds 0 = Z.abs n /\
    py_str n = if n <? 0 then chr_minus :: ds else ds.
Proof.
  unfold py_str. destruct (Z.ltb_spec n 0) as [Hneg|Hpos].
  - exists (str_digits (S (Z.to_nat (Z.log2 (- n)))) (- n) []).
    split; [apply str_digits_nonempty|].
    split; [apply str_digits_digits; [lia|constructor]|].
    replace (Z.abs n) with (- n) by lia.
    split; [pose proof (length_str_digits (S (Z.to_nat (Z.log2 (- n)))) (- n) []) as Hl;
            cbn [length] in Hl; lia|].
    split; [|reflexivity].
    destruct (digits_value_str_digits _ (- n) [] 0 (log2_fuel (- n) ltac:(lia))) as [k [_ ->]].
    reflexivity.
  - exists (str_digits (S (Z.to_nat (Z.log2 n))) n []).
    split; [apply str_digits_nonempty|].
    split; [apply str_digits_digits; [lia|constructor]|].
    replace (Z.abs n) with n by lia.
    split; [pose proof (length_str_digits (S (Z.to_nat (Z.log2 n))) n []) as Hl;
            cbn [length] in Hl; lia|].
    split; [|reflexivity].
    destruct (digits_value_str_digits _ n [] 0 (log2_fuel n Hpos)) as [k [_ ->]].
    reflexivity.
Qed.

(** X5. What the client writes as its request is read back by the server
    as the same integer, for every integer whose line fits the server's one
    read of 1024 bytes: [int(recv(1024).decode().strip())] undoes
    [f"{file_size}\n".encode()], sign included. *)
Theorem tcp_request_round_trip (tbl : Z -> option Z) (file_size : Z) :
  Z.abs file_size < 2 ^ 1022 ->
  exists data text,
    recv_once CONST_SIZE (request_line file_size) = RecvData data /\
    data = request_line file_size /\
    decode data = Some text /\
    py_int tbl (strip text) = Some file_size.
Proof.
  intros Hsize. destruct (py_str_shape file_size) as (ds & Hne & Hds & Hlen & Hval & Hstr).
  assert (Hlog : Z.log2 (Z.abs file_size) < 1022).
  { destruct (Z.eq_dec (Z.abs file_size) 0) as [->|]; [cbn; lia|].
    apply Z.log2_lt_pow2; lia. }
  pose proof (Z.log2_nonneg (Z.abs file_size)) as Hlog0.
  assert (Hascii : Forall (fun c => 0 <= c < 128) (py_str file_size ++ [chr_newline])).
  { apply Forall_app. split; [|constructor; [unfold chr_newline; lia|constructor]].
    rewrite Hstr. destruct (file_size <? 0).
    - constructor; [unfold chr_minus; lia|].
      eapply Forall_impl; [exact Hds|]. unfold is_ascii_digit. intros c Hc. cbn beta. lia.
    - eapply Forall_impl; [exact Hds|]. unfold is_ascii_digit. intros c Hc. cbn beta. lia. }
  assert (Hnospace : Forall (fun c => Py_UNICODE_ISSPACE c = false) (py_str file_size)).
  { rewrite Hstr. destruct (file_size <? 0).
    - constructor; [reflexivity|]. eapply Forall_impl; [exact Hds|]. apply digit_not_space.
    - eapply Forall_impl; [exact Hds|]. apply digit_not_space. }
  exists (request_line file_size), (py_str file_size ++ [chr_newline]).
  split.
  { unfold recv_once. rewrite take_ge; [reflexivity|].
    unfold request_line, encode_ascii. rewrite length_map, length_app, Hstr.
    unfold CONST_SIZE. destruct (file_size <? 0); cbn [length]; lia. }
  split; [reflexivity|]. split; [apply decode_encode_ascii; exact Hascii|].
  rewrite strip_line_no_space by exact Hnospace. rewrite Hstr.
  destruct (Z.ltb_spec file_size 0).
  - rewrite py_int_negative_digits by assumption. f_equal. lia.
  - rewrite py_int_digits by assumption. f_equal. lia.
Qed.

Lemma tcp_request_round_trip_witness :
  exists data text,
    recv_once CONST_SIZE (request_line (-42)) = RecvData data /\
    data = request_line (-42) /\
    decode data = Some text /\
    py_int (fun _ => None) (strip text) = Some (-42).
Proof.
  apply (tcp_request_round_trip (fun _ => None) (-42)). reflexivity.
Defined.

(** X6. The TCP client counts exactly what arrives, up to what it asked
    for: whatever the server writes before closing and however the network
    cuts it into reads, the loop ends with the smaller of the requested size
    and the stream length, so a server that closes early yields a partial
    count and surplus bytes are never counted. With a positive count and a
    clock that has advanced, the session reports a positive speed. *)
Theorem tcp_client_counts_arrivals (segmentation : nat -> nat) (file_size : Z)
    (stream : bytes) (t_start t_end : Q) :
  let received := Z.max 0 (Z.min file_size (Z.of_nat (length stream))) in
  exists fuel0, forall fuel, (fuel0 <= fuel)%nat ->
    tcp_receive segmentation fuel file_size stream 0 0 = Some received /\
    manage_tcp_connection segmentation fuel file_size stream t_start t_end
    = Some (tcp_report received t_start t_end) /\
    (0 < received -> (t_start < t_end)%Q ->
     exists total_time speed,
       tcp_report received t_start t_end = TcpResult received total_time speed /\
       (0 < speed)%Q).
Proof.
  intros received.
  exists (S (Z.to_nat (Z.of_nat (length stream)))). intros fuel Hfuel.
  assert (Hrecv : tcp_receive segmentation fuel file_size stream 0 0 = Some received).
  { destruct (Z_lt_le_dec file_size 0) as [Hneg|Hpos].
    - destruct fuel as [|fuel]; [lia|]. cbn [tcp_receive].
      replace (0 <? file_size) with false by (symmetry; apply Z.ltb_ge; lia).
      f_equal. unfold received. lia.
    - rewrite tcp_receive_total by lia. f_equal. unfold received. lia. }
  split; [exact Hrecv|]. split.
  - unfold manage_tcp_connection. rewrite Hrecv. reflexivity.
  - intros Hpos Hclock. unfold tcp_report.
    destruct (Qeq_bool (t_end - t_start) 0) eqn:Ezero.
    + exfalso. apply Qeq_bool_iff in Ezero.
      assert (Hd : (0 < t_end - t_start)%Q).
      { unfold Qminus. rewrite <- (Qplus_opp_r t_start).
        apply Qplus_lt_l. exact Hclock. }
      rewrite Ezero in Hd. apply (Qlt_irrefl 0). exact Hd.
    + eexists _, _. split; [reflexivity|].
      assert (Hd : (0 < t_end - t_start)%Q).
      { unfold Qminus. rewrite <- (Qplus_opp_r t_start).
        apply Qplus_lt_l. exact Hclock. }
      apply Qmult_lt_0_compat; [|reflexivity].
      apply Qlt_shift_div_l; [exact Hd|].
      rewrite Qmult_0_l. unfold Qlt. cbn. lia.
Qed.

Lemma send_chunks_budget (getrandbits8 : nat -> byte) (fuel : nat)
    (total b : Z) (drawn budget : nat) :
  chunks_needed (total - b) < Z.of_nat fuel ->
  exists chunks,
    send_chunks getrandbits8 fuel total b drawn budget
    = Some (map Sendall chunks,
            if chunks_needed (total - b) <=? Z.of_nat budget
            then TcpCompleted else TcpSendFailed) /\
    Forall good_chunk chunks /\
    (chunks_needed (total - b) <= Z.of_nat budget ->
       Z.of_nat (length (concat chunks)) = Z.max 0 (total - b)) /\
    (Z.of_nat budget < chunks_needed (total - b) ->
       length chunks = budget /\
       Forall (fun c => Z.of_nat (length c) = 8192) chunks).
Proof.
  revert b drawn budget. induction fuel as [|fuel IH]; intros b drawn budget Hf.
  - pose proof (chunks_needed_nonneg (total - b)). lia.
  - cbn [send_chunks]. destruct (Z.ltb_spec b total) as [Hlt|Hge].
    + pose proof (chunks_needed_step (total - b) ltac:(lia)) as Hstep.
      pose proof (chunks_needed_pos (total - b) ltac:(lia)) as Hpos.
      destruct budget as [|budget].
      * exists []. replace (_ <=? _) with false by (symmetry; apply Z.leb_gt; lia).
        split; [reflexivity|]. split; [constructor|]. split; [lia|].
        intros _. split; [reflexivity|constructor].
      * set (cur := Z.min chunk_size (total - b)) in *.
        assert (Hcur : 0 < cur <= 8192) by (unfold cur, chunk_size, CONST_SIZE; lia).
        assert (Hrl : length (random_bytes getrandbits8 drawn cur) = Z.to_nat cur)
          by (unfold random_bytes; rewrite length_map, length_seq; reflexivity).
        assert (Hneed : chunks_needed (total - (b + cur)) = chunks_needed (total - b) - 1).
        { replace (total - (b + cur)) with (total - b - cur) by lia. exact Hstep. }
        destruct (IH (b + cur) (drawn + length (random_bytes getrandbits8 drawn cur))%nat
                    budget ltac:(lia)) as (chunks & Hrun & Hgood & Hdone & Hfail).
        rewrite Hrun. exists (random_bytes getrandbits8 drawn cur :: chunks).
        split.
        { cbn [map]. f_equal. f_equal. rewrite Hneed.
          destruct (Z.leb_spec (chunks_needed (total - b) - 1) (Z.of_nat budget)),
                   (Z.leb_spec (chunks_needed (total - b)) (Z.of_nat (S budget)));
            try reflexivity; lia. }
        split; [constructor; [unfold good_chunk; lia|exact Hgood]|].
        split.
        { intros Hb. cbn [concat]. rewrite length_app, Nat2Z.inj_add, Hdone, Hrl by lia.
          unfold cur, chunk_size, CONST_SIZE in *. lia. }
        { intros Hb. destruct (Hfail ltac:(lia)) as [Hlen Hfull].
          split; [cbn [length]; lia|]. constructor; [|exact Hfull].
          rewrite Hrl.
          assert (8192 < total - b).
          { destruct (Z_lt_le_dec 8192 (total - b)) as [|Hsmall]; [assumption|].
            exfalso. unfold chunks_needed in Hb.
            rewrite Z.max_r in Hb by lia.
            assert ((total - b + 8191) / 8192 < 2)
              by (apply Z.div_lt_upper_bound; lia).
            lia. }
          unfold cur, chunk_size, CONST_SIZE. lia. }
    + exists []. unfold chunks_needed. rewrite Z.max_l by lia.
      change ((0 + 8191) / 8192) with 0.
      replace (0 <=? Z.of_nat budget) with true by (symmetry; apply Z.leb_le; lia).
      split; [reflexivity|]. split; [constructor|]. split; [cbn; lia|lia].
Qed.

(** X7. The TCP server under a failing socket. For a request that converts
    to [total], the handler sends whole chunks in order until the size is
    reached or a [sendall] raises, and then closes. If the socket takes all
    the chunks the content is exactly [total] bytes (none for a size of zero
    or less); if it fails after [budget] successful sends, exactly [budget]
    chunks of 8192 bytes went out, the session ends as a send failure, and
    the trace still ends with the one [Close]. *)
Theorem tcp_server_failing_socket (getrandbits8 : nat -> byte)
    (tbl : Z -> option Z) (data : bytes) (text : str) (total : Z) (budget : nat) :
  decode data = Some text ->
  py_int tbl (strip text) = Some total ->
  exists fuel0, forall fuel, (fuel0 <= fuel)%nat ->
    exists chunks,
      process_tcp_connection getrandbits8 tbl fuel (RecvData data) budget
      = Some (map Sendall chunks ++ [Close],
              if chunks_needed total <=? Z.of_nat budget
              then TcpCompleted else TcpSendFailed) /\
      Forall (fun c => 0 < Z.of_nat (length c) <= 8192) chunks /\
      (chunks_needed total <= Z.of_nat budget ->
         Z.of_nat (length (concat chunks)) = Z.max 0 total) /\
      (Z.of_nat budget < chunks_needed total ->
         length chunks = budget /\
         Forall (fun c => Z.of_nat (length c) = 8192) chunks).
Proof.
  intros Hdec Hint. exists (S (Z.to_nat (chunks_needed total))). intros fuel Hfuel.
  pose proof (chunks_needed_nonneg total) as Hnn.
  destruct (send_chunks_budget getrandbits8 fuel total 0 0 budget) as
    (chunks & Hrun & Hgood & Hdone & Hfail).
  { rewrite Z.sub_0_r. lia. }
  rewrite Z.sub_0_r in *.
  exists chunks. unfold process_tcp_connection, tcp_session_body.
  rewrite Hdec, Hint, Hrun. split; [reflexivity|]. split; [exact Hgood|].
  split; assumption.
Qed.

Lemma tcp_server_failing_socket_witness :
  exists fuel0, forall fuel, (fuel0 <= fuel)%nat ->
    exists chunks,
      process_tcp_connection (fun _ => Byte.x00) (fun _ => None) fuel
        (RecvData (request_line 20000)) 2
      = Some (map Sendall chunks ++ [Close], TcpSendFailed) /\
      length chunks = 2%nat.
Proof.
  destruct (tcp_server_failing_socket (fun _ => Byte.x00) (fun _ => None)
              (request_line 20000) (py_str 20000 ++ [chr_newline]) 20000 2
              ltac:(vm_compute; reflexivity) ltac:(vm_compute; reflexivity))
    as [fuel0 H].
  exists fuel0. intros fuel Hfuel. destruct (H fuel Hfuel) as (chunks & Hrun & _ & _ & Hfail).
  exists chunks. split; [exact Hrun|]. apply Hfail. vm_compute. reflexivity.
Defined.

(** ** UDP transfer server: what it sends and when *)

Lemma take_split {A} (k m : nat) (l : list A) :
  (k <= m)%nat -> take m l = take k l ++ take (m - k) (drop k l).
Proof.
  revert m l. induction k as [|k IH]; intros m l Hle.
  - cbn. rewrite Nat.sub_0_r. reflexivity.
  - destruct m as [|m]; [lia|].
    destruct l as [|x l]; [rewrite drop_nil, !take_nil; reflexivity|].
    cbn. f_equal. apply IH. lia.
Qed.

Lemma send_burst_any (segs : list bytes) (a b : Z) (budget : nat) :
  0 <= a -> a <= b -> b <= Z.of_nat (length segs) ->
  send_burst segs (range a b) budget
  = (map Sendto (take (Nat.min budget (Z.to_nat (b - a))) (drop (Z.to_nat a) segs)),
     if b - a <=? Z.of_nat budget then Some (budget - Z.to_nat (b - a))%nat else None).
Proof.
  intros Ha Hab Hb. remember (Z.to_nat (b - a)) as k eqn:Hk.
  revert a budget Ha Hab Hk. induction k as [|k IH]; intros a budget Ha Hab Hk.
  - rewrite range_nil by lia. rewrite Nat.min_0_r. cbn [send_burst take map].
    replace (b - a <=? Z.of_nat budget) with true by (symmetry; apply Z.leb_le; lia).
    rewrite Nat.sub_0_r. reflexivity.
  - rewrite range_cons by lia. cbn [send_burst].
    destruct (lookup_lt_is_Some_2 segs (Z.to_nat a)) as [seg Hseg]; [lia|].
    rewrite Hseg. destruct budget as [|budget].
    + cbn [Nat.min take map].
      replace (b - a <=? Z.of_nat 0) with false by (symmetry; apply Z.leb_gt; lia).
      reflexivity.
    + rewrite (IH (a + 1)) by lia. cbn [Nat.min].
      rewrite (drop_S _ _ _ Hseg). cbn [take map].
      replace (Z.to_nat (a + 1)) with (S (Z.to_nat a)) by lia.
      f_equal.
      destruct (Z.leb_spec (b - (a + 1)) (Z.of_nat budget)),
               (Z.leb_spec (b - a) (Z.of_nat (S budget))); try lia; reflexivity.
Qed.

Lemma send_bursts_any (segs : list bytes) (a : Z) (budget : nat) :
  0 <= a ->
  exists tr,
    send_bursts segs (Z.of_nat (length segs))
      (range_step a (Z.of_nat (length segs)) burst_limit) budget
    = (tr, Z.of_nat (length segs) - a <=? Z.of_nat budget) /\
    sent_datagrams tr = take budget (drop (Z.to_nat a) segs).
Proof.
  set (n := Z.of_nat (length segs)).
  remember (Z.to_nat (n - a)) as k eqn:Hk. revert a budget Hk.
  induction k as [k IH] using lt_wf_ind. intros a budget Hk Ha.
  destruct (Z_lt_le_dec a n) as [Hlt|Hge].
  - rewrite range_step_cons by (unfold burst_limit; lia). cbn [send_bursts].
    set (b := Z.min (a + burst_limit) n).
    assert (Hb : a < b <= n) by (unfold b, burst_limit; lia).
    rewrite send_burst_any by (fold n; lia).
    destruct (Z.leb_spec (b - a) (Z.of_nat budget)) as [Henough|Hshort].
    + destruct (IH (Z.to_nat (n - (a + burst_limit)))
                   ltac:(unfold burst_limit; lia) (a + burst_limit)
                   (budget - Z.to_nat (b - a))%nat eq_refl ltac:(unfold burst_limit; lia))
        as [tr' [Htr' Hsent]].
      rewrite Htr'. eexists. split.
      * f_equal. unfold b, burst_limit in *.
        destruct (Z.leb_spec (n - (a + 32)) (Z.of_nat (budget - Z.to_nat (Z.min (a + 32) n - a)))),
                 (Z.leb_spec (n - a) (Z.of_nat budget)); try reflexivity; lia.
      * rewrite sent_datagrams_app.
        change (sent_datagrams (Sleep :: tr')) with (sent_datagrams tr').
        rewrite sent_datagrams_Sendto, Hsent.
        rewrite Nat.min_r by lia.
        rewrite (take_split (Z.to_nat (b - a)) budget) by lia.
        f_equal. f_equal. rewrite drop_drop.
        destruct (Z_le_gt_dec (a + burst_limit) n) as [Hin|Hout].
        -- f_equal. unfold b, burst_limit in *. lia.
        -- rewrite !drop_ge; [reflexivity| |]; unfold b, burst_limit, n in *; lia.
    + eexists. split.
      * f_equal. symmetry. apply Z.leb_gt. lia.
      * rewrite sent_datagrams_Sendto. rewrite Nat.min_l by lia. reflexivity.
  - rewrite range_step_nil by (unfold burst_limit; lia).
    exists []. split.
    + cbn [send_bursts]. f_equal. symmetry. apply Z.leb_le. lia.
    + rewrite drop_ge by (unfold n in *; lia). rewrite take_nil. reflexivity.
Qed.

Lemma range_bounds (n : Z) : n < u64_max -> Forall (fun i => 0 <= i < u64_max) (range 0 n).
Proof.
  intros Hn. apply Forall_forall. intros i Hi. apply list_elem_of_lookup in Hi.
  destruct Hi as [k Hk]. pose proof (lookup_lt_Some _ _ _ Hk) as Hlt.
  rewrite length_range in Hlt. rewrite lookup_range in Hk by lia.
  injection Hk as <-. lia.
Qed.

(** What the handler does with a valid Request, for any socket budget. *)
Lemma process_udp_connection_valid (getrandbits8 : nat -> byte) (S : Z) (packet : bytes) :
  unpack fmt_request packet = Some [MAGIC_COOKIE; MTYPE_REQUEST; S] ->
  let n := (S + CONST_SIZE - 1) / CONST_SIZE in
  exists segs,
    generate_segments getrandbits8 S n (range 0 n) 0 = Some segs /\
    Forall2 (is_segment S n) (range 0 n) segs /\
    Z.of_nat (length segs) = n /\
    forall budget,
      exists tr,
        process_udp_connection getrandbits8 packet budget
        = (tr, if n <=? Z.of_nat budget then Served else UnexpectedError) /\
        sent_datagrams tr = take budget segs /\
        send_bursts segs n (range_step 0 n burst_limit) budget
        = (tr, n <=? Z.of_nat budget).
Proof.
  intros Hreq n.
  pose proof (unpack_request_size _ _ _ _ Hreq) as HS. unfold u64_max in HS.
  assert (Hn : 0 <= n < u64_max).
  { unfold n, CONST_SIZE, u64_max. split; [apply Z.div_pos; lia|].
    apply Z.div_lt_upper_bound; lia. }
  destruct (generate_segments_spec getrandbits8 S n (range 0 n) 0 Hn
              (range_bounds n ltac:(lia))) as [segs [Hgen HF]].
  assert (Hlen : Z.of_nat (length segs) = n).
  { rewrite <- (Forall2_length _ _ _ HF), length_range. lia. }
  exists segs. split; [exact Hgen|]. split; [exact HF|]. split; [exact Hlen|].
  intros budget.
  destruct (send_bursts_any segs 0 budget ltac:(lia)) as [tr [Htr Hsent]].
  rewrite Hlen, Z.sub_0_r in Htr. change (Z.to_nat 0) with O in Hsent. rewrite drop_0 in Hsent.
  exists tr. unfold process_udp_connection. rewrite Hreq, !Z.eqb_refl. cbn [negb orb].
  fold n. rewrite Hgen, Htr. split; [|split; [exact Hsent|reflexivity]].
  destruct (n <=? Z.of_nat budget); reflexivity.
Qed.

(** X8. The UDP server never sends out of order and never sends a segment
    twice: for a valid Request, whatever the socket does, the datagrams that
    went out are the first ones of the segment list, as many as the socket
    took, and the handler ends as served exactly when the socket took them
    all. *)
Theorem udp_server_sends_prefix (getrandbits8 : nat -> byte) (S : Z) (packet : bytes) :
  unpack fmt_request packet = Some [MAGIC_COOKIE; MTYPE_REQUEST; S] ->
  let n := (S + CONST_SIZE - 1) / CONST_SIZE in
  exists segs,
    Forall2 (is_segment S n) (range 0 n) segs /\
    forall budget,
      exists tr,
        process_udp_connection getrandbits8 packet budget
        = (tr, if n <=? Z.of_nat budget then Served else UnexpectedError) /\
        sent_datagrams tr = take budget segs.
Proof.
  intros Hreq n.
  destruct (process_udp_connection_valid getrandbits8 S packet Hreq)
    as (segs & _ & HF & _ & Hall).
  exists segs. split; [exact HF|]. intros budget.
  destruct (Hall budget) as (tr & Hrun & Hsent & _). exists tr. split; assumption.
Qed.

Lemma udp_server_sends_prefix_witness :
  exists tr,
    process_udp_connection (fun _ => Byte.x2a)
      (be_encode 4 MAGIC_COOKIE ++ be_encode 1 MTYPE_REQUEST ++ be_encode 8 5000) 3
    = (tr, UnexpectedError) /\
    length (sent_datagrams tr) = 3%nat.
Proof.
  destruct (udp_server_sends_prefix (fun _ => Byte.x2a) 5000
              (be_encode 4 MAGIC_COOKIE ++ be_encode 1 MTYPE_REQUEST ++ be_encode 8 5000)
              ltac:(vm_compute; reflexivity)) as (segs & HF & Hall).
  destruct (Hall 3%nat) as (tr & Hrun & Hsent).
  exists tr. split; [exact Hrun|].
  rewrite Hsent, length_take. apply Forall2_length in HF.
  rewrite length_range in HF. rewrite <- HF. vm_compute. reflexivity.
Defined.

(** X9. The UDP server answers nothing but a Request: if the handler did
    anything at all with its socket, the datagram it was given is exactly 13
    bytes long and decodes to the magic cookie, the REQUEST type and a
    positive size. A datagram of another length, with another cookie or type,
    or asking for zero bytes, gets no reply. *)
Theorem udp_server_replies_only_to_requests (getrandbits8 : nat -> byte)
    (packet : bytes) (budget : nat) :
  fst (process_udp_connection getrandbits8 packet budget) <> [] ->
  length packet = 13%nat /\
  exists S, 0 < S /\
    unpack fmt_request packet = Some [MAGIC_COOKIE; MTYPE_REQUEST; S].
Proof.
  unfold process_udp_connection.
  destruct (unpack fmt_request packet) as [vs|] eqn:Eun; [|intros H; contradiction].
  assert (Hlen : length packet = 13%nat)
    by (apply pack_unpack in Eun; apply length_pack in Eun; exact Eun).
  destruct vs as [|c [|t [|S [|? ?]]]]; try (intros H; contradiction).
  destruct (Z.eqb_spec c MAGIC_COOKIE) as [->|]; [|intros H; contradiction].
  destruct (Z.eqb_spec t MTYPE_REQUEST) as [->|]; [|intros H; contradiction].
  cbn [negb orb]. intros Hne. split; [exact Hlen|]. exists S. split; [|reflexivity].
  pose proof (unpack_request_size _ _ _ _ Eun) as HS.
  destruct (Z.eq_dec S 0) as [->|]; [|lia].
  exfalso. apply Hne. vm_compute. reflexivity.
Qed.

Lemma udp_server_replies_only_to_requests_witness :
  exists S, 0 < S /\
    unpack fmt_request
      (be_encode 4 MAGIC_COOKIE ++ be_encode 1 MTYPE_REQUEST ++ be_encode 8 1)
    = Some [MAGIC_COOKIE; MTYPE_REQUEST; S].
Proof.
  apply (udp_server_replies_only_to_requests (fun _ => Byte.x00)
           (be_encode 4 MAGIC_COOKIE ++ be_encode 1 MTYPE_REQUEST ++ be_encode 8 1) 1).
  vm_compute. discriminate.
Defined.

Lemma send_bursts_groups (segs : list bytes) (a : Z) (budget : nat) :
  0 <= a ->
  Z.of_nat (length segs) - a <= Z.of_nat budget ->
  exists groups,
    send_bursts segs (Z.of_nat (length segs))
      (range_step a (Z.of_nat (length segs)) burst_limit) budget
    = (burst_trace groups, true) /\
    concat groups = drop (Z.to_nat a) segs /\
    Forall (fun g => (0 < length g <= 32)%nat) groups /\
    full_but_last 32 groups /\
    Z.of_nat (length groups) = (Z.max 0 (Z.of_nat (length segs) - a) + 31) / 32.
Proof.
  set (n := Z.of_nat (length segs)).
  remember (Z.to_nat (n - a)) as k eqn:Hk. revert a budget Hk.
  induction k as [k IH] using lt_wf_ind. intros a budget Hk Ha Hbud.
  destruct (Z_lt_le_dec a n) as [Hlt|Hge].
  - rewrite range_step_cons by (unfold burst_limit; lia). cbn [send_bursts].
    set (b := Z.min (a + burst_limit) n).
    assert (Hb : a < b <= n) by (unfold b, burst_limit; lia).
    rewrite send_burst_ok by (fold n; lia).
    destruct (IH (Z.to_nat (n - (a + burst_limit)))
                 ltac:(unfold burst_limit; lia) (a + burst_limit)
                 (budget - Z.to_nat (b - a))%nat eq_refl)
      as (groups & Hrun & Hcat & Hsize & Hfull & Hcount);
      [unfold burst_limit; lia|unfold b, burst_limit in *; lia|].
    rewrite Hrun.
    set (g0 := take (Z.to_nat (b - a)) (drop (Z.to_nat a) segs)).
    assert (Hg0 : length g0 = Z.to_nat (b - a)).
    { unfold g0. rewrite length_take, length_drop. unfold n in *. lia. }
    exists (g0 :: groups). split; [|split; [|split; [|split]]].
    + unfold burst_trace. cbn [flat_map]. rewrite <- app_assoc. reflexivity.
    + cbn [concat]. rewrite Hcat. unfold g0.
      transitivity (take (Z.to_nat (b - a)) (drop (Z.to_nat a) segs)
                    ++ drop (Z.to_nat (b - a)) (drop (Z.to_nat a) segs));
        [|apply take_drop].
      f_equal. rewrite drop_drop.
      destruct (Z_le_gt_dec (a + burst_limit) n) as [Hin|Hout].
      * f_equal. unfold b, burst_limit in *. lia.
      * rewrite !drop_ge; [reflexivity| |]; unfold b, burst_limit, n in *; lia.
    + constructor; [|exact Hsize]. rewrite Hg0. unfold b, burst_limit in *. lia.
    + intros i g Hi Hmore. destruct i as [|i].
      * cbn in Hi. injection Hi as <-. rewrite Hg0.
        cbn [length] in Hmore.
        assert (a + burst_limit < n).
        { destruct (Z_lt_le_dec (a + burst_limit) n); [assumption|].
          exfalso. rewrite Z.max_l in Hcount by (fold n; lia).
          change ((0 + 31) / 32) with 0 in Hcount. lia. }
        unfold b, burst_limit in *. lia.
      * cbn in Hi. apply (Hfull i g Hi). cbn [length] in Hmore. lia.
    + cbn [length]. rewrite Nat2Z.inj_succ, Hcount. unfold burst_limit.
      rewrite (Z.max_r 0 (n - a)) by lia.
      replace (n - a + 31) with (n - a - 32 + 31 + 1 * 32) by lia.
      rewrite Z.div_add by lia.
      destruct (Z_lt_le_dec (a + 32) n).
      * rewrite Z.max_r by lia.
        replace (n - (a + 32) + 31) with (n - a - 32 + 31) by lia. lia.
      * rewrite Z.max_l by lia. change ((0 + 31) / 32) with 0.
        assert ((n - a - 32 + 31) / 32 = 0) by (apply Z.div_small; lia). lia.
  - rewrite range_step_nil by (unfold burst_limit; lia).
    exists []. split; [reflexivity|]. split; [rewrite drop_ge by (unfold n in *; lia); reflexivity|].
    split; [constructor|]. split; [intros i g Hi; discriminate|].
    rewrite Z.max_l by lia. reflexivity.
Qed.

(** X10. The UDP server paces its answer. When the socket takes every
    datagram, the trace of a valid Request is a sequence of bursts, each
    followed by its 1 ms pause; the bursts are the segment list cut in order
    into groups of 32, the last one shorter when the count is no multiple of
    32; so no more than 32 datagrams are ever sent without a pause, and there
    are ceil(total / 32) pauses. *)
Theorem udp_server_bursts (getrandbits8 : nat -> byte) (S : Z) (packet : bytes)
    (budget : nat) :
  unpack fmt_request packet = Some [MAGIC_COOKIE; MTYPE_REQUEST; S] ->
  (S + CONST_SIZE - 1) / CONST_SIZE <= Z.of_nat budget ->
  let n := (S + CONST_SIZE - 1) / CONST_SIZE in
  exists groups,
    process_udp_connection getrandbits8 packet budget = (burst_trace groups, Served) /\
    sent_datagrams (burst_trace groups) = concat groups /\
    Forall2 (is_segment S n) (range 0 n) (concat groups) /\
    Forall (fun g => (0 < length g <= 32)%nat) groups /\
    full_but_last 32 groups /\
    Z.of_nat (length groups) = (n + 31) / 32.
Proof.
  intros Hreq Hbud n.
  destruct (process_udp_connection_valid getrandbits8 S packet Hreq)
    as (segs & Hgen & HF & Hlen & Hall).
  fold n in Hgen, HF, Hlen, Hall, Hbud.
  assert (Hn : 0 <= n) by lia.
  destruct (send_bursts_groups segs 0 budget ltac:(lia) ltac:(lia))
    as (groups & Hrun & Hcat & Hsize & Hfull & Hcount).
  rewrite Hlen in Hrun, Hcount. change (Z.to_nat 0) with O in Hcat. rewrite drop_0 in Hcat.
  destruct (Hall budget) as (tr & Hproc & Hsent & Hbursts).
  rewrite Hrun in Hbursts. injection Hbursts as <- Hok.
  exists groups. split.
  { rewrite Hproc. rewrite <- Hok. reflexivity. }
  split.
  { rewrite Hsent, Hcat. apply take_ge. lia. }
  split; [rewrite Hcat; exact HF|]. split; [exact Hsize|]. split; [exact Hfull|].
  rewrite Hcount. rewrite Z.sub_0_r, Z.max_r by lia. reflexivity.
Qed.

Lemma udp_server_bursts_witness :
  exists groups,
    process_udp_connection (fun _ => Byte.x2a)
      (be_encode 4 MAGIC_COOKIE ++ be_encode 1 MTYPE_REQUEST ++ be_encode 8 40000) 40
    = (burst_trace groups, Served) /\
    length groups = 2%nat.
Proof.
  destruct (udp_server_bursts (fun _ => Byte.x2a) 40000
              (be_encode 4 MAGIC_COOKIE ++ be_encode 1 MTYPE_REQUEST ++ be_encode 8 40000) 40
              ltac:(vm_compute; reflexivity) ltac:(vm_compute; discriminate))
    as (groups & Hrun & _ & _ & _ & _ & Hcount).
  exists groups. split; [exact Hrun|].
  apply Nat2Z.inj. rewrite Hcount. vm_compute. reflexivity.
Defined.

Lemma is_segment_length (S n i : Z) (seg : bytes) :
  is_segment S n i seg ->
  Z.of_nat (length seg) = 21 + Z.max 0 (Z.min CONST_SIZE (S - i * CONST_SIZE)).
Proof.
  intros (hdr & pl & -> & Hhdr & Hpl). apply length_pack in Hhdr.
  rewrite length_app, Nat2Z.inj_add, Hpl, Hhdr. reflexivity.
Qed.

Lemma segments_total_length (S n a : Z) (l : list bytes) :
  0 <= S -> n = (S + CONST_SIZE - 1) / CONST_SIZE -> 0 <= a <= n ->
  Forall2 (is_segment S n) (range a n) l ->
  Z.of_nat (length (concat l)) = 21 * (n - a) + Z.max 0 (S - a * CONST_SIZE).
Proof.
  intros HS Hn Ha. unfold CONST_SIZE in *.
  assert (Hceil : (n - 1) * 1024 < S <= n * 1024).
  { pose proof (Z.div_mod (S + 1024 - 1) 1024 ltac:(lia)) as Hdm.
    pose proof (Z.mod_pos_bound (S + 1024 - 1) 1024 ltac:(lia)). lia. }
  clear Hn. remember (Z.to_nat (n - a)) as k eqn:Hk. revert a l Ha Hk.
  induction k as [|k IH]; intros a l Ha Hk HF.
  - rewrite range_nil in HF by lia. inversion HF; subst. cbn. lia.
  - rewrite range_cons in HF by lia. inversion HF as [|i seg is' l' Hseg HF' Hi Hl]; subst.
    cbn [concat]. rewrite length_app, Nat2Z.inj_add.
    rewrite (IH (a + 1) l' ltac:(lia) ltac:(lia) HF').
    rewrite (is_segment_length _ _ _ _ Hseg). unfold CONST_SIZE. lia.
Qed.

(** X11. The segments of one answer carry the requested size, no more and
    no less: for a valid Request of [S] bytes the payloads the server sends
    add up to [S] bytes (the datagrams to [S] plus 21 header bytes each), and
    no datagram is longer than 1045 bytes, well within the 4096 bytes the
    client reads at a time. *)
Theorem udp_server_total_bytes (getrandbits8 : nat -> byte) (S : Z) (packet : bytes)
    (budget : nat) :
  unpack fmt_request packet = Some [MAGIC_COOKIE; MTYPE_REQUEST; S] ->
  (S + CONST_SIZE - 1) / CONST_SIZE <= Z.of_nat budget ->
  let n := (S + CONST_SIZE - 1) / CONST_SIZE in
  exists tr,
    process_udp_connection getrandbits8 packet budget = (tr, Served) /\
    Z.of_nat (length (sent_datagrams tr)) = n /\
    Z.of_nat (length (concat (sent_datagrams tr))) = 21 * n + S /\
    Forall (fun d => 21 < Z.of_nat (length d) <= 1045) (sent_datagrams tr).
Proof.
  intros Hreq Hbud n.
  pose proof (unpack_request_size _ _ _ _ Hreq) as HS.
  destruct (process_udp_connection_valid getrandbits8 S packet Hreq)
    as (segs & _ & HF & Hlen & Hall).
  fold n in HF, Hlen, Hall, Hbud.
  destruct (Hall budget) as (tr & Hproc & Hsent & _).
  replace (n <=? Z.of_nat budget) with true in Hproc by (symmetry; apply Z.leb_le; lia).
  rewrite take_ge in Hsent by lia.
  exists tr. rewrite Hsent. split; [exact Hproc|]. split; [exact Hlen|].
  assert (Hn : 0 <= n) by lia.
  split.
  - rewrite (segments_total_length S n 0 segs ltac:(lia) eq_refl ltac:(lia) HF). lia.
  - apply Forall_forall. intros d Hd. apply list_elem_of_lookup in Hd as [k Hk].
    destruct (Forall2_lookup_r _ _ _ _ _ HF Hk) as (i & Hi & Hseg).
    pose proof (lookup_lt_Some _ _ _ Hi) as Hlt. rewrite length_range in Hlt.
    rewrite lookup_range in Hi by lia. injection Hi as <-.
    rewrite (is_segment_length _ _ _ _ Hseg). unfold CONST_SIZE.
    assert (Hceil : (n - 1) * 1024 < S).
    { unfold n, CONST_SIZE.
      pose proof (Z.div_mod (S + 1024 - 1) 1024 ltac:(lia)) as Hdm.
      pose proof (Z.mod_pos_bound (S + 1024 - 1) 1024 ltac:(lia)). lia. }
    lia.
Qed.

Lemma udp_server_total_bytes_witness :
  exists tr,
    process_udp_connection (fun _ => Byte.x2a)
      (be_encode 4 MAGIC_COOKIE ++ be_encode 1 MTYPE_REQUEST ++ be_encode 8 2500) 3
    = (tr, Served) /\
    Z.of_nat (length (concat (sent_datagrams tr))) = 2563.
Proof.
  destruct (udp_server_total_bytes (fun _ => Byte.x2a) 2500
              (be_encode 4 MAGIC_COOKIE ++ be_encode 1 MTYPE_REQUEST ++ be_encode 8 2500) 3
              ltac:(vm_compute; reflexivity) ltac:(vm_compute; discriminate))
    as (tr & Hrun & _ & Htotal & _).
  exists tr. split; [exact Hrun|]. rewrite Htotal. vm_compute. reflexivity.
Defined.

(** ** UDP transfer client: errors, waiting, accounting *)

(** X12. A datagram shorter than the 21-byte header is not passed over: it
    ends the session with an error, whatever was received before it, and no
    result is reported. *)
Theorem udp_short_datagram_aborts (S : Z) (t_start t_init t_end : Q)
    (pre more : list udp_event) (st : udp_state) (data : bytes) (t1 t2 : Q) :
  udp_receive_loop pre (udp_initial S t_init) = Waiting st ->
  (length data < 21)%nat ->
  manage_udp_connection S (pre ++ Datagram data t1 t2 :: more) t_start t_init t_end
  = UdpError.
Proof.
  intros Hrun Hshort. unfold manage_udp_connection.
  destruct (pack fmt_request _); [|reflexivity].
  rewrite (udp_receive_loop_app _ _ _ _ Hrun). cbn [udp_receive_loop udp_step].
  unfold unpack. rewrite length_take.
  change (calcsize fmt_payload) with 21%nat. change header_size with 21%nat.
  replace (Nat.eqb (Nat.min 21 (length data)) 21) with false
    by (symmetry; apply Nat.eqb_neq; lia).
  reflexivity.
Qed.

Lemma udp_short_datagram_aborts_witness :
  manage_udp_connection 4096
    ([segment_event 4 0 0] ++ Datagram [Byte.x00; Byte.x01] 0 0 :: []) 0 0 1
  = UdpError.
Proof.
  apply (udp_short_datagram_aborts 4096 0 0 1 [segment_event 4 0 0] []
           {| total_segments := 4; segments_received := {[ 0 := 1024 ]};
              bytes_received := 1024; last_received := 0 |}).
  - vm_compute. reflexivity.
  - cbn. lia.
Defined.

Lemma udp_step_break_nonempty (st st' : udp_state) (ev : udp_event) :
  udp_step st ev = Break st' -> segments_received st' <> ∅.
Proof.
  destruct ev as [data t1 t2| |]; cbn [udp_step].
  - destruct (unpack fmt_payload (take header_size data))
      as [[|m [|ty [|tot [|cur [|? ?]]]]]|]; try discriminate.
    destruct (negb (m =? MAGIC_COOKIE) || negb (ty =? MTYPE_PAYLOAD)); [discriminate|].
    match goal with
    | |- context [record_segment ?s cur ?d] =>
        pose proof (dom_record_segment s cur d) as Hdom;
        set (st2 := record_segment s cur d) in *
    end.
    destruct (_ || _); [|discriminate]. intros [= <-] Hempty.
    rewrite Hempty, dom_empty_L in Hdom. set_solver.
  - destruct (decide (segments_received st = ∅)); [discriminate|].
    intros [= <-]. assumption.
  - discriminate.
Qed.

Lemma percent_positive (n T : Z) :
  0 < n -> 0 < T -> (0 < inject_Z n / inject_Z T * 100)%Q.
Proof.
  intros Hn HT. destruct T as [|p|p]; try lia. destruct n as [|q|q]; try lia.
  unfold Qlt, Qdiv, Qmult, Qinv, inject_Z. cbn. lia.
Qed.

(** X13. A UDP session never reports a result without a segment: a reported
    percentage is strictly positive, and some datagram of what the socket
    delivered passed the validation. *)
Theorem udp_result_has_segment (S : Z) (events : list udp_event)
    (t_start t_init t_end tt sp pct : Q) :
  manage_udp_connection S events t_start t_init t_end = UdpResult tt sp pct ->
  (0 < pct)%Q /\
  exists ev i, ev ∈ events /\ accepted_index ev = Some i.
Proof.
  unfold manage_udp_connection.
  destruct (pack fmt_request _) as [req|] eqn:Epack; [|discriminate].
  assert (HS : 0 <= S).
  { apply unpack_pack in Epack. apply unpack_request_size in Epack. lia. }
  destruct (udp_receive_loop events _) as [st|st|] eqn:Eloop; try discriminate.
  destruct (udp_loop_broke _ _ _ Eloop) as [consumed Hcons].
  destruct (consumed_prefix_effect _ _ _ _ Hcons) as [Hdom Htot].
  cbn [udp_initial segments_received total_segments] in Hdom, Htot.
  rewrite dom_empty_L, union_empty_l_L in Hdom.
  destruct Hcons as (pre & ev & rest & st' & -> & -> & Hpre & Hbrk).
  pose proof (udp_step_break_nonempty _ _ _ Hbrk) as Hne.
  unfold udp_report. destruct (Z.eqb_spec (total_segments st) 0) as [|Hnz]; [discriminate|].
  destruct (Qeq_bool _ 0); [discriminate|]. intros [= _ _ <-].
  split.
  - apply percent_positive.
    + assert (size (segments_received st) <> 0%nat); [|lia].
      intros Hz. apply map_size_empty_iff in Hz. contradiction.
    + pose proof (last_total_nonneg (pre ++ [ev]) ((S + 1024 - 1) / 1024)
                    ltac:(apply Z.div_pos; lia)). lia.
  - assert (Hex : exists i, i ∈ dom (segments_received st)).
    { apply set_choose_L. intros Hd. apply Hne. apply dom_empty_iff_L. exact Hd. }
    destruct Hex as [i Hi]. rewrite Hdom in Hi.
    apply elem_of_accepted_indices in Hi as (ev' & Hin & Hacc).
    exists ev', i. split; [|exact Hacc].
    apply elem_of_app. left. exact Hin.
Qed.

Lemma udp_result_has_segment_witness :
  (0 < 200 # 4)%Q.
Proof.
  apply (udp_result_has_segment 4096
           [Datagram (make_datagram MAGIC_COOKIE MTYPE_PAYLOAD 4 0 1024) 0 0;
            Datagram (make_datagram MAGIC_COOKIE MTYPE_PAYLOAD 4 2 1024) 0 0;
            Timeout] 0 0 1 1 16384 (200 # 4)).
  vm_compute. reflexivity.
Defined.

Lemma udp_loop_fruitless (events : list udp_event) (st0 : udp_state) :
  Forall fruitless events ->
  segments_received st0 = ∅ ->
  exists st,
    udp_receive_loop events st0 = Waiting st /\
    segments_received st = ∅ /\ bytes_received st = bytes_received st0.
Proof.
  intros Hall. revert st0. induction Hall as [|ev events Hev _ IH]; intros st0 Hempty.
  - exists st0. split; [reflexivity|]. split; [exact Hempty|reflexivity].
  - cbn [udp_receive_loop]. destruct Hev as [->|(h & Hh & Hp)].
    + cbn [udp_step]. destruct (decide (segments_received st0 = ∅)); [|contradiction].
      apply IH. exact Hempty.
    + destruct ev as [data t1 t2| |]; try discriminate.
      rewrite (udp_step_discarded st0 data t1 t2 h Hh Hp).
      destruct (IH {| total_segments := snd (fst h);
                      segments_received := segments_received st0;
                      bytes_received := bytes_received st0; last_received := t1 |} Hempty)
        as (st & Hrun & Hsegs & Hbytes).
      exists st. split; [exact Hrun|]. split; [exact Hsegs|exact Hbytes].
Qed.

(** X14. Under total loss the UDP session does not end. As long as the
    socket delivers only timeouts and datagrams that fail the validation, the
    loop is still receiving, with no segment and no byte counted, however
    long that lasts: no result and no error is reported. *)
Theorem udp_total_loss_keeps_waiting (S : Z) (events : list udp_event)
    (t_start t_init t_end : Q) :
  0 <= S < u64_max ->
  Forall fruitless events ->
  exists st,
    manage_udp_connection S events t_start t_init t_end = UdpWaiting st /\
    segments_received st = ∅ /\ bytes_received st = 0.
Proof.
  intros HS Hall. unfold manage_udp_connection.
  assert (Hpack : exists req, pack fmt_request [MAGIC_COOKIE; MTYPE_REQUEST; S] = Some req).
  { apply fits_Q in HS. unfold fmt_request. cbn [pack].
    change (fits FmtI MAGIC_COOKIE) with true. change (fits FmtB MTYPE_REQUEST) with true.
    rewrite HS. cbn. eauto. }
  destruct Hpack as [req ->].
  destruct (udp_loop_fruitless events (udp_initial S t_init) Hall eq_refl)
    as (st & Hrun & Hsegs & Hbytes).
  rewrite Hrun. exists st. split; [reflexivity|]. split; [exact Hsegs|exact Hbytes].
Qed.

Lemma udp_total_loss_keeps_waiting_witness :
  exists st,
    manage_udp_connection 4096 [Timeout; stray_event 2 1; Timeout; Timeout] 0 0 9
    = UdpWaiting st /\
    segments_received st = ∅ /\ bytes_received st = 0.
Proof.
  apply (udp_total_loss_keeps_waiting 4096 [Timeout; stray_event 2 1; Timeout; Timeout] 0 0 9).
  - vm_compute. split; [discriminate|reflexivity].
  - apply Forall_cons. split; [left; reflexivity|].
    apply Forall_cons. split.
    { right. eexists. split; [vm_compute; reflexivity|reflexivity]. }
    apply Forall_cons. split; [left; reflexivity|].
    apply Forall_cons. split; [left; reflexivity|]. apply Forall_nil. exact I.
Defined.

(** ** The byte total against the dictionary *)






(** ** UDP transfer end to end: the server's answer through the client *)

Lemma header_of_segment (S n i : Z) (d : bytes) (t1 t2 : Q) :
  is_segment S n i d ->
  header_of (Datagram d t1 t2) = Some (MAGIC_COOKIE, MTYPE_PAYLOAD, n, i).
Proof.
  intros (hdr & pl & -> & Hhdr & _). cbn [header_of].
  pose proof (length_pack _ _ _ Hhdr) as Hlen.
  rewrite take_app_length' by (symmetry; exact Hlen).
  rewrite (unpack_pack _ _ _ Hhdr). reflexivity.
Qed.

Lemma datagram_index_header (T i : Z) (d : bytes) :
  header_of (Datagram d 0 0) = Some (MAGIC_COOKIE, MTYPE_PAYLOAD, T, i) ->
  datagram_index d = Some i.
Proof. intros H. unfold datagram_index, accepted_index. rewrite H. reflexivity. Qed.

Lemma Qle_bool_gap_false (t1 t2 : Q) :
  (t2 - t1 < idle_gap)%Q -> Qle_bool idle_gap (t2 - t1) = false.
Proof.
  intros Hlt. destruct (Qle_bool idle_gap (t2 - t1)) eqn:E; [|reflexivity].
  apply Qle_bool_iff in E. exfalso. exact (Qlt_not_le _ _ Hlt E).
Qed.

(** The loop over distinct segments of one transfer, short of the total. *)
Lemma udp_loop_delivered (T : Z) (got : list bytes) (events : list udp_event)
    (st0 : udp_state) :
  delivered got events ->
  Forall (fun d => exists i,
            header_of (Datagram d 0 0) = Some (MAGIC_COOKIE, MTYPE_PAYLOAD, T, i)) got ->
  NoDup (omap datagram_index got) ->
  (forall i, i ∈ omap datagram_index got -> i ∉ dom (segments_received st0)) ->
  Z.of_nat (size (segments_received st0)) + Z.of_nat (length got) < T ->
  exists st,
    udp_receive_loop events st0 = Waiting st /\
    size (segments_received st) = (size (segments_received st0) + length got)%nat /\
    bytes_received st = bytes_received st0 + payload_bytes got /\
    (got <> [] -> total_segments st = T) /\
    (got = [] -> st = st0) /\
    dom (segments_received st)
    = dom (segments_received st0) ∪ list_to_set (omap datagram_index got).
Proof.
  intros Hdel. revert st0.
  induction Hdel as [|d ev got events (t1 & t2 & -> & Hgap) _ IH];
    intros st0 Hvalid Hnodup Hfresh Hroom.
  - exists st0. cbn. rewrite Nat.add_0_r, Z.add_0_r.
    repeat split; try reflexivity; [congruence|set_solver].
  - apply Forall_cons in Hvalid as [[i Hhdr] Hvalid].
    pose proof (datagram_index_header T i d Hhdr) as Hidx.
    assert (Hom : omap datagram_index (d :: got) = i :: omap datagram_index got).
    { change (omap datagram_index (d :: got))
        with (match datagram_index d with
              | Some y => y :: omap datagram_index got
              | None => omap datagram_index got
              end).
      rewrite Hidx. reflexivity. }
    rewrite Hom in Hnodup, Hfresh.
    apply NoDup_cons in Hnodup as [Hnotin Hnodup].
    assert (Hi : segments_received st0 !! i = None).
    { apply not_elem_of_dom. apply Hfresh. apply list_elem_of_here. }
    destruct (udp_step_accepted st0 d t1 t2 i Hidx) as (tot & Hhdr' & Hstep).
    change (header_of (Datagram d t1 t2)) with (header_of (Datagram d 0 0)) in Hhdr'.
    rewrite Hhdr in Hhdr'. injection Hhdr' as <-. cbn zeta in Hstep.
    unfold record_segment in Hstep. cbn [segments_received] in Hstep. rewrite Hi in Hstep.
    cbn [segments_received total_segments bytes_received last_received] in Hstep.
    rewrite map_size_insert_None in Hstep by exact Hi.
    rewrite (Qle_bool_gap_false t1 t2 Hgap) in Hstep.
    cbn [length] in Hroom.
    replace (T <=? Z.of_nat (S (size (segments_received st0)))) with false in Hstep
      by (symmetry; apply Z.leb_gt; lia).
    cbn [orb] in Hstep. cbn [udp_receive_loop]. rewrite Hstep.
    match type of Hstep with _ = Continue ?s => set (st1 := s) in * end.
    destruct (IH st1) as (st & Hrun & Hsize & Hbytes & Htot & Hsame & Hdom);
      [exact Hvalid|exact Hnodup| | |]; unfold st1 in *; clear st1.
    + cbn [segments_received]. intros j Hj. rewrite dom_insert_L.
      intros Hin. apply elem_of_union in Hin as [Hin|Hin].
      * apply elem_of_singleton in Hin as ->. contradiction.
      * apply (Hfresh j); [apply list_elem_of_further; exact Hj|exact Hin].
    + cbn [segments_received]. rewrite map_size_insert_None by exact Hi. lia.
    + cbn [segments_received bytes_received total_segments] in *.
      rewrite map_size_insert_None in Hsize by exact Hi.
      exists st. split; [exact Hrun|]. split; [cbn [length]; lia|].
      split.
      { rewrite Hbytes. cbn [payload_bytes foldr]. fold (payload_bytes got).
        change (Z.of_nat header_size) with 21. lia. }
      split.
      { intros _. destruct got as [|d' got'].
        - rewrite (Hsame eq_refl). reflexivity.
        - apply Htot. discriminate. }
      split; [discriminate|].
      rewrite Hdom, dom_insert_L, Hom. cbn [list_to_set foldr]. set_solver.
Qed.

Lemma submseteq_NoDup {A} (l1 l2 : list A) : l1 ⊆+ l2 -> NoDup l2 -> NoDup l1.
Proof.
  intros Hsub Hnd. apply submseteq_Permutation in Hsub as [k Hk].
  rewrite Hk in Hnd. apply NoDup_app in Hnd as [Hnd _]. exact Hnd.
Qed.

Lemma NoDup_omap_of_fmap {A B} (f : A -> option B) (l : list A) :
  NoDup (f <$> l) -> NoDup (omap f l).
Proof.
  induction l as [|x l IH]; intros Hnd; [constructor|].
  apply NoDup_cons in Hnd as [Hx Hnd].
  change (omap f (x :: l))
    with (match f x with Some y => y :: omap f l | None => omap f l end).
  destruct (f x) as [y|] eqn:E; [|exact (IH Hnd)].
  apply NoDup_cons. split; [|exact (IH Hnd)].
  intros Hin. apply list_elem_of_omap in Hin as (x' & Hx' & Hfx').
  apply Hx. apply list_elem_of_fmap. exists x'. split; [congruence|exact Hx'].
Qed.

Lemma NoDup_range (a b : Z) : NoDup (range a b).
Proof.
  unfold range. apply NoDup_fmap_2; [|apply NoDup_seq].
  intros x y H. lia.
Qed.

Lemma segments_indices (S n : Z) (idxs : list Z) (segs : list bytes) :
  Forall2 (is_segment S n) idxs segs ->
  datagram_index <$> segs = Some <$> idxs.
Proof.
  induction 1 as [|i d idxs segs Hseg _ IH]; [reflexivity|].
  cbn [fmap list_fmap]. f_equal; [|exact IH].
  apply (datagram_index_header n). exact (header_of_segment S n i d 0 0 Hseg).
Qed.

Lemma segments_selection (S n : Z) (segs got : list bytes) :
  Forall2 (is_segment S n) (range 0 n) segs ->
  got ⊆+ segs ->
  Forall (fun d => exists i,
            header_of (Datagram d 0 0) = Some (MAGIC_COOKIE, MTYPE_PAYLOAD, n, i)) got /\
  NoDup (omap datagram_index got).
Proof.
  intros HF Hsub. split.
  - apply Forall_forall. intros d Hd.
    pose proof (elem_of_submseteq _ _ _ Hd Hsub) as Hin.
    apply list_elem_of_lookup in Hin as [k Hk].
    destruct (Forall2_lookup_r _ _ _ _ _ HF Hk) as (i & _ & Hseg).
    exists i. exact (header_of_segment S n i d 0 0 Hseg).
  - apply NoDup_omap_of_fmap.
    apply (submseteq_NoDup _ (datagram_index <$> segs)).
    + apply fmap_submseteq. exact Hsub.
    + rewrite (segments_indices S n _ _ HF).
      apply NoDup_fmap_2; [intros x y [= ->]; reflexivity|apply NoDup_range].
Qed.

Lemma payload_bytes_app (a b : list bytes) :
  payload_bytes (a ++ b) = payload_bytes a + payload_bytes b.
Proof.
  induction a as [|d a IH]; [reflexivity|].
  cbn [app payload_bytes foldr]. fold (payload_bytes (a ++ b)). fold (payload_bytes a).
  rewrite IH. lia.
Qed.

Lemma payload_bytes_concat (l : list bytes) :
  payload_bytes l = Z.of_nat (length (concat l)) - 21 * Z.of_nat (length l).
Proof.
  induction l as [|d l IH]; [reflexivity|].
  cbn [payload_bytes foldr concat length]. fold (payload_bytes l).
  rewrite IH, length_app. lia.
Qed.

Lemma payload_bytes_Permutation (a b : list bytes) :
  a ≡ₚ b -> payload_bytes a = payload_bytes b.
Proof.
  induction 1 as [|d a b _ IH|d e a|a b c _ IH1 _ IH2].
  - reflexivity.
  - cbn [payload_bytes foldr]. fold (payload_bytes a). fold (payload_bytes b). lia.
  - cbn [payload_bytes foldr]. lia.
  - congruence.
Qed.

Lemma clock_advanced (t_start t_end : Q) :
  (t_start < t_end)%Q -> Qeq_bool (t_end - t_start) 0 = false.
Proof.
  intros Hclock. destruct (Qeq_bool (t_end - t_start) 0) eqn:Ezero; [|reflexivity].
  exfalso. apply Qeq_bool_iff in Ezero.
  assert (Hd : (0 < t_end - t_start)%Q).
  { unfold Qminus. rewrite <- (Qplus_opp_r t_start). apply Qplus_lt_l. exact Hclock. }
  rewrite Ezero in Hd. exact (Qlt_irrefl 0 Hd).
Qed.

Lemma pack_request_some (S : Z) :
  0 <= S < u64_max ->
  exists req, pack fmt_request [MAGIC_COOKIE; MTYPE_REQUEST; S] = Some req.
Proof.
  intros HS. apply fits_Q in HS. unfold fmt_request. cbn [pack].
  change (fits FmtI MAGIC_COOKIE) with true. change (fits FmtB MTYPE_REQUEST) with true.
  rewrite HS. cbn. eauto.
Qed.

(** X16. A UDP transfer under loss, reordering or a failing server socket.
    Let the client receive, in any order and each once, some but not all of
    the datagrams the server sent for its Request, and then meet a receive
    timeout. The session reports the number received over the total, times
    100, and a speed computed from the payload bytes of exactly those
    datagrams. *)
Theorem udp_transfer_under_loss (getrandbits8 : nat -> byte) (S : Z)
    (packet : bytes) (budget : nat) (tr : list action) (reply : udp_reply)
    (got : list bytes) (events more : list udp_event) (t_start t_init t_end : Q) :
  unpack fmt_request packet = Some [MAGIC_COOKIE; MTYPE_REQUEST; S] ->
  process_udp_connection getrandbits8 packet budget = (tr, reply) ->
  got ⊆+ sent_datagrams tr ->
  got <> [] ->
  Z.of_nat (length got) < (S + CONST_SIZE - 1) / CONST_SIZE ->
  delivered got events ->
  (t_start < t_end)%Q ->
  manage_udp_connection S (events ++ Timeout :: more) t_start t_init t_end
  = UdpResult (t_end - t_start)
      (inject_Z (payload_bytes got * 8) / (t_end - t_start))
      (inject_Z (Z.of_nat (length got))
       / inject_Z ((S + CONST_SIZE - 1) / CONST_SIZE) * 100).
Proof.
  intros Hreq Hproc Hsub Hne Hless Hdel Hclock.
  set (n := (S + CONST_SIZE - 1) / CONST_SIZE) in *.
  pose proof (unpack_request_size _ _ _ _ Hreq) as HS.
  destruct (process_udp_connection_valid getrandbits8 S packet Hreq)
    as (segs & _ & HF & Hlen & Hall).
  fold n in HF, Hlen, Hall.
  destruct (Hall budget) as (tr' & Hproc' & Hsent & _).
  rewrite Hproc in Hproc'. injection Hproc' as <- _.
  assert (Hsub' : got ⊆+ segs).
  { etransitivity; [exact Hsub|]. rewrite Hsent.
    apply sublist_submseteq, sublist_take. }
  destruct (segments_selection S n segs got HF Hsub') as [Hvalid Hnodup].
  destruct (udp_loop_delivered n got events (udp_initial S t_init) Hdel Hvalid Hnodup)
    as (st & Hrun & Hsize & Hbytes & Htot & _ & Hdom).
  { intros i _. cbn. rewrite dom_empty_L. set_solver. }
  { cbn [udp_initial segments_received]. rewrite map_size_empty. lia. }
  cbn [udp_initial segments_received bytes_received] in Hsize, Hbytes.
  rewrite map_size_empty in Hsize. rewrite Z.add_0_l in Hbytes.
  cbn [Nat.add] in Hsize.
  destruct (pack_request_some S HS) as [req Hpack].
  unfold manage_udp_connection. rewrite Hpack.
  rewrite (udp_receive_loop_app _ _ _ _ Hrun). cbn [udp_receive_loop udp_step].
  destruct (decide (segments_received st = ∅)) as [Hempty|_].
  { exfalso. rewrite Hempty, map_size_empty in Hsize. destruct got; [congruence|discriminate]. }
  unfold udp_report. rewrite (Htot Hne), Hsize, Hbytes.
  replace (n =? 0) with false by (symmetry; apply Z.eqb_neq; lia).
  rewrite (clock_advanced _ _ Hclock). reflexivity.
Qed.

Lemma delivered_at (got : list bytes) (t1 t2 : Q) :
  (t2 - t1 < idle_gap)%Q ->
  delivered got (map (fun d => Datagram d t1 t2) got).
Proof.
  intros Hgap. induction got as [|d got IH]; [constructor|].
  constructor; [|exact IH]. exists t1, t2. split; [reflexivity|exact Hgap].
Qed.

Lemma udp_transfer_under_loss_witness :
  manage_udp_connection 1025
    (map (fun d => Datagram d 0 0) (take 1 example_answer) ++ Timeout :: [])
    0 0 1
  = UdpResult (1 - 0)
      (inject_Z (payload_bytes (take 1 example_answer) * 8) / (1 - 0))
      (inject_Z (Z.of_nat (length (take 1 example_answer)))
       / inject_Z ((1025 + CONST_SIZE - 1) / CONST_SIZE) * 100).
Proof.
  apply (udp_transfer_under_loss (fun _ => Byte.x2a) 1025 example_request 2
           (fst (process_udp_connection (fun _ => Byte.x2a) example_request 2))
           (snd (process_udp_connection (fun _ => Byte.x2a) example_request 2))).
  - vm_compute. reflexivity.
  - apply surjective_pairing.
  - apply sublist_submseteq, sublist_take.
  - intros H. apply (f_equal length) in H. vm_compute in H. discriminate.
  - vm_compute. reflexivity.
  - apply delivered_at. vm_compute. reflexivity.
  - vm_compute. reflexivity.
Defined.

(** X17. A UDP transfer that loses nothing. When the server's socket took
    every datagram and the client receives each of them once, in any order,
    the loop ends at the last one without waiting for a timeout; the session
    reports 100 percent and a speed computed from exactly the [S] bytes
    requested. *)
Theorem udp_transfer_complete (getrandbits8 : nat -> byte) (S : Z)
    (packet : bytes) (budget : nat) (tr : list action)
    (got : list bytes) (events more : list udp_event) (t_start t_init t_end : Q) :
  0 < S ->
  unpack fmt_request packet = Some [MAGIC_COOKIE; MTYPE_REQUEST; S] ->
  process_udp_connection getrandbits8 packet budget = (tr, Served) ->
  got ≡ₚ sent_datagrams tr ->
  delivered got events ->
  (t_start < t_end)%Q ->
  exists pct,
    manage_udp_connection S (events ++ more) t_start t_init t_end
    = UdpResult (t_end - t_start) (inject_Z (S * 8) / (t_end - t_start)) pct /\
    (pct == 100)%Q.
Proof.
  intros Hpos Hreq Hproc Hperm Hdel Hclock.
  set (n := (S + CONST_SIZE - 1) / CONST_SIZE).
  pose proof (unpack_request_size _ _ _ _ Hreq) as HS.
  destruct (process_udp_connection_valid getrandbits8 S packet Hreq)
    as (segs & _ & HF & Hlen & Hall).
  fold n in HF, Hlen, Hall.
  destruct (Hall budget) as (tr' & Hproc' & Hsent & _).
  rewrite Hproc in Hproc'. injection Hproc' as <- Hserved.
  assert (Hbud : n <= Z.of_nat budget).
  { destruct (Z.leb_spec n (Z.of_nat budget)); [assumption|discriminate]. }
  rewrite take_ge in Hsent by lia. rewrite Hsent in Hperm.
  assert (Hn : 0 < n).
  { unfold n, CONST_SIZE. apply Z.div_str_pos. lia. }
  assert (Hgotlen : Z.of_nat (length got) = n) by (rewrite Hperm; exact Hlen).
  assert (Hpayload : payload_bytes got = S).
  { rewrite (payload_bytes_Permutation _ _ Hperm), payload_bytes_concat.
    rewrite (segments_total_length S n 0 segs ltac:(lia) eq_refl ltac:(lia) HF).
    unfold CONST_SIZE. lia. }
  destruct (segments_selection S n segs got HF) as [Hvalid Hnodup].
  { rewrite Hperm. reflexivity. }
  destruct got as [|dlast init _] using rev_ind; [cbn in Hgotlen; lia|].
  rewrite length_app in Hgotlen. cbn [length] in Hgotlen.
  apply Forall2_app_inv_l in Hdel as (ev1 & ev2 & Hdel1 & Hdel2 & ->).
  apply Forall2_cons_inv_l in Hdel2 as (ev & evs & (t1 & t2 & -> & Hgap) & Hnil & ->).
  apply Forall2_nil_inv_l in Hnil as ->.
  apply Forall_app in Hvalid as [Hvalid1 Hvalid2].
  apply Forall_cons in Hvalid2 as [[i Hhdr] _].
  pose proof (datagram_index_header n i dlast Hhdr) as Hidx.
  rewrite omap_app in Hnodup.
  assert (Hom : omap datagram_index [dlast] = [i]).
  { change (omap datagram_index [dlast])
      with (match datagram_index dlast with Some y => [y] | None => [] end).
    rewrite Hidx. reflexivity. }
  rewrite Hom in Hnodup. apply NoDup_app in Hnodup as (Hnodup1 & Hdisj & _).
  destruct (udp_loop_delivered n init ev1 (udp_initial S t_init) Hdel1 Hvalid1 Hnodup1)
    as (st & Hrun & Hsize & Hbytes & _ & _ & Hdom).
  { intros j _. cbn. rewrite dom_empty_L. set_solver. }
  { cbn [udp_initial segments_received]. rewrite map_size_empty. lia. }
  cbn [udp_initial segments_received bytes_received] in Hsize, Hbytes, Hdom.
  rewrite map_size_empty in Hsize. rewrite Z.add_0_l in Hbytes.
  rewrite dom_empty_L, union_empty_l_L in Hdom. cbn [Nat.add] in Hsize.
  assert (Hi : segments_received st !! i = None).
  { apply not_elem_of_dom. rewrite Hdom. intros Hin.
    apply elem_of_list_to_set in Hin. apply (Hdisj i Hin). apply list_elem_of_here. }
  destruct (udp_step_accepted st dlast t1 t2 i Hidx) as (tot & Hhdr' & Hstep).
  change (header_of (Datagram dlast t1 t2)) with (header_of (Datagram dlast 0 0)) in Hhdr'.
  rewrite Hhdr in Hhdr'. injection Hhdr' as <-. cbn zeta in Hstep.
  unfold record_segment in Hstep. cbn [segments_received] in Hstep. rewrite Hi in Hstep.
  cbn [segments_received total_segments bytes_received last_received] in Hstep.
  rewrite map_size_insert_None in Hstep by exact Hi.
  replace (n <=? Z.of_nat (Datatypes.S (size (segments_received st)))) with true in Hstep
    by (symmetry; apply Z.leb_le; lia).
  cbn [orb] in Hstep.
  destruct (pack_request_some S HS) as [req Hpack].
  unfold manage_udp_connection. rewrite Hpack.
  rewrite <- app_assoc. rewrite (udp_receive_loop_app _ _ _ _ Hrun).
  cbn [app udp_receive_loop]. rewrite Hstep.
  unfold udp_report. cbn [total_segments segments_received bytes_received].
  replace (n =? 0) with false by (symmetry; apply Z.eqb_neq; lia).
  rewrite (clock_advanced _ _ Hclock).
  rewrite map_size_insert_None by exact Hi.
  eexists. split.
  - f_equal. f_equal. f_equal.
    rewrite payload_bytes_app in Hpayload. cbn [payload_bytes foldr] in Hpayload.
    change (Z.of_nat header_size) with 21. lia.
  - replace (Z.of_nat (Datatypes.S (size (segments_received st)))) with n by lia.
    destruct n as [|p|p]; try lia.
    unfold Qeq, Qdiv, Qmult, Qinv, inject_Z. cbn. lia.
Qed.

Lemma udp_transfer_complete_witness :
  exists pct,
    manage_udp_connection 1025
      (map (fun d => Datagram d 0 0) (rev example_answer) ++ []) 0 0 1
    = UdpResult (1 - 0) (inject_Z (1025 * 8) / (1 - 0)) pct /\
    (pct == 100)%Q.
Proof.
  apply (udp_transfer_complete (fun _ => Byte.x2a) 1025 example_request 2
           (fst (process_udp_connection (fun _ => Byte.x2a) example_request 2))
           (rev example_answer)).
  - lia.
  - vm_compute. reflexivity.
  - vm_compute. reflexivity.
  - symmetry. apply Permutation_rev.
  - apply delivered_at. vm_compute. reflexivity.
  - vm_compute. reflexivity.
Defined.

(** ** Wire layout *)

(** X18. The bytes on the wire, in network byte order: an Offer is the
    four cookie bytes ab cd dc ba, the type byte 02, then each port as two
    bytes, high byte first; a Request is the cookie, the type byte 03 and the
    size as eight bytes, most significant first. *)
Theorem wire_layout (udp_port tcp_port file_size : Z) :
  (0 <= udp_port < 65536 -> 0 <= tcp_port < 65536 ->
   pack fmt_offer [MAGIC_COOKIE; MTYPE_OFFER; udp_port; tcp_port]
   = Some [Byte.xab; Byte.xcd; Byte.xdc; Byte.xba; Byte.x02;
           byte_of_Z (udp_port / 256); byte_of_Z udp_port;
           byte_of_Z (tcp_port / 256); byte_of_Z tcp_port]) /\
  (0 <= file_size < u64_max ->
   pack fmt_request [MAGIC_COOKIE; MTYPE_REQUEST; file_size]
   = Some ([Byte.xab; Byte.xcd; Byte.xdc; Byte.xba; Byte.x03]
           ++ map (fun k => byte_of_Z (file_size / 256 ^ k)) [7; 6; 5; 4; 3; 2; 1; 0])).
Proof.
  split.
  - intros Hu Ht. apply fits_H in Hu, Ht. unfold fmt_offer. cbn [pack].
    change (fits FmtI MAGIC_COOKIE) with true. change (fits FmtB MTYPE_OFFER) with true.
    rewrite Hu, Ht. reflexivity.
  - intros HS. apply fits_Q in HS. unfold fmt_request. cbn [pack].
    change (fits FmtI MAGIC_COOKIE) with true. change (fits FmtB MTYPE_REQUEST) with true.
    rewrite HS. cbn [option_map fmt_width be_encode app map].
    change (be_encode 4 MAGIC_COOKIE) with [Byte.xab; Byte.xcd; Byte.xdc; Byte.xba].
    change (be_encode 1 MTYPE_REQUEST) with [Byte.x03].
    cbn [app]. do 6 f_equal.
    rewrite !Z.div_div by lia.
    change (256 ^ 0) with 1. rewrite Z.div_1_r.
    repeat (f_equal; try reflexivity).
Qed.

(** ** A TCP transfer cut short *)

(** X19. A TCP transfer whose server side fails. The client asks for [S]
    bytes; the server's socket takes [budget] writes, fewer than the size
    needs, and the next [sendall] raises, after it has put [partial], some
    part of its chunk or nothing, on the wire. The server closes. If what
    was written reaches the client before the connection ends, the client's
    loop is left at the read that returns nothing, with
    [8192 * budget + length partial] bytes counted, fewer than it asked for,
    and with a clock that has advanced the session reports its statistics for
    that count: no exception is raised. *)
Theorem tcp_transfer_cut_short (getrandbits8 : nat -> byte)
    (unicode_todecimal : Z -> option Z) (segmentation : nat -> nat)
    (S : Z) (budget : nat) (partial : bytes) (t_start t_end : Q) :
  0 < S ->
  Z.of_nat (length (request_line S)) <= CONST_SIZE ->
  Z.of_nat budget < chunks_needed S ->
  Z.of_nat (length partial) < Z.min chunk_size (S - 8192 * Z.of_nat budget) ->
  (t_start < t_end)%Q ->
  let received := 8192 * Z.of_nat budget + Z.of_nat (length partial) in
  exists chunks fuel0, forall fuel, (fuel0 <= fuel)%nat ->
    process_tcp_connection getrandbits8 unicode_todecimal fuel
      (recv_once CONST_SIZE (request_line S)) budget
    = Some (map Sendall chunks ++ [Close], TcpSendFailed) /\
    length chunks = budget /\
    manage_tcp_connection segmentation fuel S (concat chunks ++ partial) t_start t_end
    = Some (TcpResult received (t_end - t_start)
              (inject_Z received / (t_end - t_start) * 8)) /\
    received < S.
Proof.
  intros HS Hline Hbud Hpartial Hclock received.
  set (f0 := Datatypes.S (Z.to_nat (chunks_needed S))).
  pose proof (chunks_needed_nonneg S) as Hnn.
  destruct (send_chunks_budget getrandbits8 f0 S 0 0 budget) as
    (chunks & Hrun & Hgood & _ & Hfail).
  { rewrite Z.sub_0_r. unfold f0. lia. }
  rewrite Z.sub_0_r in *.
  replace (chunks_needed S <=? Z.of_nat budget) with false in Hrun
    by (symmetry; apply Z.leb_gt; lia).
  destruct (Hfail Hbud) as [Hcount Hfull].
  assert (Hlen : Z.of_nat (length (concat chunks)) = 8192 * Z.of_nat budget).
  { rewrite <- Hcount. clear -Hfull. induction Hfull as [|c cs Hc _ IH]; [reflexivity|].
    cbn [concat length]. rewrite length_app. lia. }
  assert (Hless : received < S) by (unfold received; lia).
  exists chunks, (Nat.max f0 (Datatypes.S (Z.to_nat S))). intros fuel Hfuel.
  split; [|split; [exact Hcount|split; [|exact Hless]]].
  - assert (Hf0 : (f0 <= fuel)%nat) by lia.
    pose proof (send_chunks_fuel_mono getrandbits8 f0 fuel _ _ _ _ _ Hf0 Hrun) as Hrun'.
    unfold process_tcp_connection, tcp_session_body, recv_once.
    rewrite take_ge by lia.
    pose proof (request_line_parsed unicode_todecimal S ltac:(lia)) as Hparse.
    destruct (decode (request_line S)) as [text|]; [|discriminate].
    cbn [option_map] in Hparse. injection Hparse as ->.
    rewrite Hrun'. reflexivity.
  - unfold manage_tcp_connection.
    rewrite tcp_receive_total by (rewrite ?length_app; lia). cbn [option_map].
    rewrite length_app, Nat2Z.inj_add, Hlen, Z.add_0_l, Z.min_r by (unfold received in Hless; lia).
    fold received. unfold tcp_report.
    destruct (Qeq_bool (t_end - t_start) 0) eqn:Ezero; [|reflexivity].
    exfalso. apply Qeq_bool_iff in Ezero. lra.
Qed.

Lemma tcp_transfer_cut_short_witness :
  exists chunks fuel0, forall fuel, (fuel0 <= fuel)%nat ->
    process_tcp_connection (fun _ => Byte.x00) (fun _ => None) fuel
      (recv_once CONST_SIZE (request_line 20000)) 2
    = Some (map Sendall chunks ++ [Close], TcpSendFailed) /\
    length chunks = 2%nat /\
    manage_tcp_connection (fun _ => 999%nat) fuel 20000
      (concat chunks ++ repeat Byte.x00 100) 0 1
    = Some (TcpResult (8192 * Z.of_nat 2 + Z.of_nat (length (repeat Byte.x00 100)))
              (1 - 0)
              (inject_Z (8192 * Z.of_nat 2 + Z.of_nat (length (repeat Byte.x00 100)))
               / (1 - 0) * 8)) /\
    8192 * Z.of_nat 2 + Z.of_nat (length (repeat Byte.x00 100)) < 20000.
Proof.
  apply (tcp_transfer_cut_short (fun _ => Byte.x00) (fun _ => None)
           (fun _ => 999%nat) 20000 2 (repeat Byte.x00 100) 0 1).
  - lia.
  - vm_compute. discriminate.
  - vm_compute. reflexivity.
  - vm_compute. reflexivity.
  - reflexivity.
Defined.

(** ** Server start-up *)

(** X20. How [run_server] starts. Both allocations search 1025..65535, so
    no bind is ever given a port outside 0..65535 and the broadcast thread
    never fails to pack its Offer: start-up either stops with "no available
    port", when for one of the two socket types every port of the range
    refuses the bind, or it broadcasts an Offer that unpacks to the lowest
    bindable UDP port and the lowest bindable TCP port. *)
Theorem server_startup_offer (bind_ok : bool -> Z -> bool) (rounds budget : nat) :
  match server_startup bind_ok rounds budget with
  | Broadcasting udp_port tcp_port sent =>
      (1025 <= udp_port <= 65535 /\ bind_ok false udp_port = true /\
       forall q, 1025 <= q < udp_port -> bind_ok false q = false) /\
      (1025 <= tcp_port <= 65535 /\ bind_ok true tcp_port = true /\
       forall q, 1025 <= q < tcp_port -> bind_ok true q = false) /\
      exists offer_packet,
        unpack fmt_offer offer_packet
        = Some [MAGIC_COOKIE; MTYPE_OFFER; udp_port; tcp_port] /\
        sent = broadcast_loop offer_packet rounds budget
  | StartupRuntimeError =>
      exists stream, forall q, 1025 <= q <= 65535 -> bind_ok stream q = false
  | StartupOverflowError => False
  | BroadcasterStructError => False
  end.
Proof.
  unfold server_startup, allocate_port.
  change (is_stream "udp") with false. change (is_stream "tcp") with true.
  pose proof (try_ports_range bind_ok false 1025 (65535 + 1) ltac:(lia) ltac:(lia)) as Hu.
  pose proof (try_ports_range bind_ok true 1025 (65535 + 1) ltac:(lia) ltac:(lia)) as Ht.
  destruct (try_ports bind_ok false _) as [u| |].
  - destruct (try_ports bind_ok true _) as [t| |].
    + destruct Hu as (Hur & Hub & Hul), Ht as (Htr & Htb & Htl).
      unfold offer_broadcast.
      destruct (pack fmt_offer [MAGIC_COOKIE; MTYPE_OFFER; u; t]) as [pkt|] eqn:Epack.
      * split; [split; [lia|split; assumption]|].
        split; [split; [lia|split; assumption]|].
        exists pkt. split; [apply unpack_pack; exact Epack|reflexivity].
      * revert Epack. unfold fmt_offer. cbn [pack].
        change (fits FmtI MAGIC_COOKIE) with true. change (fits FmtB MTYPE_OFFER) with true.
        assert (Hfu : fits FmtH u = true) by (apply fits_H; lia).
        assert (Hft : fits FmtH t = true) by (apply fits_H; lia).
        rewrite Hfu, Hft. cbn. discriminate.
    + exists true. intros q Hq. apply Ht. lia.
    + exact Ht.
  - exists false. intros q Hq. apply Hu. lia.
  - exact Hu.
Qed.
